(** * PT Finder: adaptive rate limiter, profile filter and search orchestration

    A shallow embedding of the JavaScript sources

      - [lib/searcher.js]  (class [AdaptiveRateLimiter], class [InstagramAPI],
                            the three-phase [PTFinder] with case variations),
      - [lib/utils.js]     ([filterProfile], [extractTrainerInfo],
                            [deduplicateTrainers], [buildSearchQuery]),
      - the priority-based [PTFinder] ([configureKeywordSets],
        [searchAndProcess], [getResults]) and the configuration module,

    followed by the properties of the specification that concern them, and
    then of

      - [lib/utils.js]     ([saveCSV], class [CompletePTFinder] with
                            [filterPotentialTrainers] and [removeDuplicates]),
      - [lib/api.js]       (class [InstagramAPI] with fixed spacing:
                            [getProfile] and its retry, [searchUsers]),
      - the rest of the priority-based [PTFinder] ([initialize], the three
        phases, [runAllPhases]),

    with further properties of the code.

    Conventions of the embedding.
      - JavaScript numbers are exact rationals ([Q]).  Every arithmetic step of
        the rate limiter is an addition, a subtraction, a product by 1.5 or 4,
        or a [Math.min]/[Math.max]; the ordering facts proved below only use
        monotonicity of these operations.
      - [Date.now()] is an explicit clock value; [await sleep(ms)] advances the
        clock by [ms] plus a lag chosen by the environment (a timer never
        fires early).
      - Strings are UTF-8 byte strings.  [toLowerCase], [toUpperCase] and
        [trim] are those of JavaScript on strings made of ASCII characters
        and of the letter ß, whose upper case is SS; other bytes are left
        alone (Arabic keywords have no letter case).  A theorem that uses a
        law of case mapping states the ASCII condition on the strings it
        needs it for ([ascii_only]).
      - A value that may be [undefined]/[null] is an [option]; an exception is
        a [Throw] carrying the message.
      - A method that calls itself without bound takes a number of steps it
        may use; [None] means that the number was used up. *)

From Stdlib Require Import QArith Qminmax Lqa ZArith List String Ascii Bool Lia.
From Stdlib Require Import DecimalString Permutation.
From stdpp Require Import base gmap strings list.

#[local] Set Warnings "-clear-no-such-hyp".

(* ===================================================================== *)
(** * Part I: the program                                                 *)
(* ===================================================================== *)

(** ** JavaScript string primitives *)

Module JS.

Definition is_upper (c : ascii) : bool :=
  let n := nat_of_ascii c in (65 <=? n)%nat && (n <=? 90)%nat.

Definition is_lower (c : ascii) : bool :=
  let n := nat_of_ascii c in (97 <=? n)%nat && (n <=? 122)%nat.

Definition lower_char (c : ascii) : ascii :=
  if is_upper c then ascii_of_nat (nat_of_ascii c + 32) else c.

Definition upper_char (c : ascii) : ascii :=
  if is_lower c then ascii_of_nat (nat_of_ascii c - 32) else c.

(** White space removed by [String.prototype.trim]: TAB, LF, VT, FF, CR and
    the space. *)
Definition is_space (c : ascii) : bool :=
  let n := nat_of_ascii c in
  ((9 <=? n)%nat && (n <=? 13)%nat) || (n =? 32)%nat.

Fixpoint map_chars (f : ascii -> ascii) (s : string) : string :=
  match s with
  | EmptyString => EmptyString
  | String c r => String (f c) (map_chars f r)
  end.

Definition toLowerCase (s : string) : string := map_chars lower_char s.

(** [toUpperCase] maps the ASCII letters and the letter ß (in UTF-8 the two
    bytes 195 and 159), whose upper case is the two letters SS. *)
Fixpoint toUpperCase (s : string) : string :=
  match s with
  | EmptyString => EmptyString
  | String c r =>
      match r with
      | String d r' =>
          if ((nat_of_ascii c =? 195) && (nat_of_ascii d =? 159))%nat
          then String "S" (String "S" (toUpperCase r'))
          else String (upper_char c) (toUpperCase r)
      | EmptyString => String (upper_char c) EmptyString
      end
  end.

(** The strings made of ASCII characters only. *)
Fixpoint ascii_only (s : string) : bool :=
  match s with
  | EmptyString => true
  | String c r => (nat_of_ascii c <? 128)%nat && ascii_only r
  end.

Fixpoint trimStart (s : string) : string :=
  match s with
  | EmptyString => EmptyString
  | String c r => if is_space c then trimStart r else s
  end.

Fixpoint trimEnd (s : string) : string :=
  match s with
  | EmptyString => EmptyString
  | String c r =>
      match trimEnd r with
      | EmptyString => if is_space c then EmptyString else String c EmptyString
      | r' => String c r'
      end
  end.

Definition trim (s : string) : string := trimEnd (trimStart s).

(** [s.includes(sub)]: [sub] occurs in [s] as a contiguous substring. *)
Fixpoint includes (s sub : string) : bool :=
  String.prefix sub s ||
  match s with
  | EmptyString => false
  | String _ r => includes r sub
  end.

(** [sub] occurs in [s] as a contiguous substring: what [includes] decides. *)
Definition occurs_in (sub s : string) : Prop :=
  exists before after : string, s = (before ++ sub ++ after)%string.

(** Two strings that differ at most in the case of their letters. *)
Definition equal_up_to_case (a b : string) : Prop := toLowerCase a = toLowerCase b.

(** [x || ''] for a string that may be missing. *)
Definition or_empty (o : option string) : string :=
  match o with
  | Some s => s
  | None => EmptyString
  end.

(** [x || d] for a string that may be missing; the empty string is falsy. *)
Definition or_else (o : option string) (d : string) : string :=
  match o with
  | Some (String c r) => String c r
  | _ => d
  end.

(** Outcome of a computation that may throw. *)
Inductive result (A : Type) : Type :=
  | Ok (a : A)
  | Throw (message : string).
Arguments Ok {A} a.
Arguments Throw {A} message.

Definition bind {A B : Type} (r : result A) (k : A -> result B) : result B :=
  match r with
  | Ok a => k a
  | Throw m => Throw m
  end.

End JS.

(** ** The configuration module *)

Module Config.

(** [FILTER] *)
Definition FILTER_mustBePublic : bool := true.
Definition FILTER_minFollowers : Z := 100.
Definition FILTER_requireBioKeyword : bool := true.

(** [SEARCH] *)
Definition SEARCH_minFollowers : Z := 100.
Definition SEARCH_delaySecs_betweenRequests : Q := 15 # 10.
Definition SEARCH_delaySecs_betweenNames : Q := 3.
Definition SEARCH_delaySecs_betweenPhases : Q := 5.

End Config.

(** ** [class AdaptiveRateLimiter] (lib/searcher.js) *)

Module AdaptiveRateLimiter.
Local Open Scope Q_scope.

(** [a < b] on numbers, as a boolean. *)
Definition Qltb (a b : Q) : bool := negb (Qle_bool b a).

(** The [options] object of the constructor; a missing key is [None]. *)
Record Options := {
  opt_baseDelayMs : option Q;
  opt_minDelayMs : option Q;
  opt_maxDelayMs : option Q;
  opt_maxRequestsPerMinute : option Q
}.

(** [options.x || d]: a missing value and the falsy number 0 both give [d]. *)
Definition or_default (o : option Q) (d : Q) : Q :=
  match o with
  | Some v => if Qeq_bool v 0 then d else v
  | None => d
  end.

Record t := {
  baseDelayMs : Q;
  minDelayMs : Q;
  maxDelayMs : Q;
  maxRequestsPerMinute : Q;
  dynamicDelayMs : Q;
  emptyStreak : nat;
  cooldownUntil : Q;
  backoffMs : Q;
  requestTimestamps : list Q;
  lastRequestTime : Q
}.

Definition constructor (options : Options) : t :=
  let base := or_default (opt_baseDelayMs options) 1500 in
  {| baseDelayMs := base;
     minDelayMs := or_default (opt_minDelayMs options) 800;
     maxDelayMs := or_default (opt_maxDelayMs options) 8000;
     maxRequestsPerMinute := or_default (opt_maxRequestsPerMinute options) 90;
     dynamicDelayMs := base;
     emptyStreak := 0;
     cooldownUntil := 0;
     backoffMs := 60000;
     requestTimestamps := [];
     lastRequestTime := 0 |}.

(** The priority label is a string compared with ['high'] and ['low']; any
    other label (also a missing one) takes the last return. *)
Definition baseForPriority (s : t) (priority : string) : Q :=
  if String.eqb priority "high" then Qmax (baseDelayMs s - 300) (minDelayMs s)
  else if String.eqb priority "low" then baseDelayMs s + 300
  else baseDelayMs s.

Definition set_lastRequestTime (s : t) (v : Q) : t :=
  {| baseDelayMs := baseDelayMs s;
     minDelayMs := minDelayMs s;
     maxDelayMs := maxDelayMs s;
     maxRequestsPerMinute := maxRequestsPerMinute s;
     dynamicDelayMs := dynamicDelayMs s;
     emptyStreak := emptyStreak s;
     cooldownUntil := cooldownUntil s;
     backoffMs := backoffMs s;
     requestTimestamps := requestTimestamps s;
     lastRequestTime := v |}.

Section Timers.

(** [lag clock ms]: by how much the timer armed at [clock] for [ms]
    milliseconds overshoots. *)
Variable lag : Q -> Q -> Q.

(** [await sleep(ms)], on the clock. *)
Definition sleep (ms : Q) (clock : Q) : Q := clock + ms + lag clock ms.

(** [beforeRequest({ priority })] entered when the clock shows [clock];
    returns the limiter and the clock at which the caller resumes. *)
Definition beforeRequest (s : t) (priority : string) (clock : Q) : t * Q :=
  let now := clock in
  let clock1 :=
    if negb (Qeq_bool (cooldownUntil s) 0) && Qltb now (cooldownUntil s)
    then sleep (cooldownUntil s - now) clock
    else clock in
  let spacingTarget := Qmax (dynamicDelayMs s) (baseForPriority s priority) in
  let sinceLast := now - lastRequestTime s in
  let waitMs := Qmax (spacingTarget - sinceLast) 0 in
  let clock2 := if Qltb 0 waitMs then sleep waitMs clock1 else clock1 in
  (set_lastRequestTime s clock2, clock2).

End Timers.

(** [afterResponse({ status, resultsCount, responseTimeMs })] executed when
    [Date.now()] is [now]. *)
Definition afterResponse (s : t) (now : Q) (status : Z) (resultsCount : Z)
    (responseTimeMs : Q) : t :=
  let stamps :=
    List.filter (fun ts => Qltb (now - ts) 60000) (requestTimestamps s ++ [now]) in
  if (status =? 429)%Z then
    {| baseDelayMs := baseDelayMs s;
       minDelayMs := minDelayMs s;
       maxDelayMs := maxDelayMs s;
       maxRequestsPerMinute := maxRequestsPerMinute s;
       dynamicDelayMs := Qmin (dynamicDelayMs s * (3 # 2) + 200) (maxDelayMs s);
       emptyStreak := emptyStreak s;
       cooldownUntil := now + backoffMs s;
       backoffMs := Qmin (backoffMs s * (3 # 2)) (maxDelayMs s * 4);
       requestTimestamps := stamps;
       lastRequestTime := lastRequestTime s |}
  else
    let density := inject_Z (Z.of_nat (List.length stamps)) in
    let d1 :=
      if Qltb (maxRequestsPerMinute s) density
      then Qmin (dynamicDelayMs s + 400) (maxDelayMs s)
      else dynamicDelayMs s in
    let d2 :=
      if Qltb 2000 responseTimeMs then Qmin (d1 + 200) (maxDelayMs s)
      else if Qltb responseTimeMs 800 then Qmax (d1 - 100) (minDelayMs s)
      else d1 in
    let streak := if (resultsCount =? 0)%Z then S (emptyStreak s) else O in
    let d3 :=
      if (resultsCount =? 0)%Z then
        if (3 <=? streak)%nat then Qmax (d2 - 150) (minDelayMs s) else d2
      else Qmax (d2 - 50) (minDelayMs s) in
    {| baseDelayMs := baseDelayMs s;
       minDelayMs := minDelayMs s;
       maxDelayMs := maxDelayMs s;
       maxRequestsPerMinute := maxRequestsPerMinute s;
       dynamicDelayMs := d3;
       emptyStreak := streak;
       cooldownUntil := cooldownUntil s;
       backoffMs := backoffMs s;
       requestTimestamps := stamps;
       lastRequestTime := lastRequestTime s |}.

(** One [afterResponse] call with the clock reading at which it runs. *)
Record Call := {
  call_now : Q;
  call_status : Z;
  call_resultsCount : Z;
  call_responseTimeMs : Q
}.

Definition apply_call (s : t) (c : Call) : t :=
  afterResponse s (call_now c) (call_status c) (call_resultsCount c)
    (call_responseTimeMs c).

(** The limiter after each call of a sequence, in order. *)
Fixpoint trace (s : t) (calls : list Call) : list t :=
  match calls with
  | [] => []
  | c :: rest => let s' := apply_call s c in s' :: trace s' rest
  end.

Definition within_bounds (s : t) : Prop :=
  minDelayMs s <= dynamicDelayMs s /\ dynamicDelayMs s <= maxDelayMs s.

(** The limiter built by [new InstagramAPI()]:
    [baseDelayMs = config.SEARCH.delaySecs.betweenRequests * 1000], the
    rational 1500 in lowest terms. *)
Definition api_limiter : t :=
  constructor {| opt_baseDelayMs :=
                   Some (Qred (Config.SEARCH_delaySecs_betweenRequests * 1000));
                 opt_minDelayMs := Some 800;
                 opt_maxDelayMs := Some 8000;
                 opt_maxRequestsPerMinute := Some 90 |}.

End AdaptiveRateLimiter.

(** ** lib/utils.js *)

Module Utils.
Import JS.

(** The profile object returned by [api.getProfile]. *)
Record Profile := {
  id : option string;
  username : option string;
  full_name : option string;
  biography : option string;
  profile_pic_url : option string;
  profile_pic_url_hd : option string;
  is_private : bool;
  is_verified : bool;
  is_business_account : bool;
  edge_followed_by : option Z;
  edge_follow : option Z;
  edge_owner_to_timeline_media : option Z
}.

(** [obj?.count || 0] *)
Definition count_or_zero (o : option Z) : Z :=
  match o with
  | Some n => n
  | None => 0%Z
  end.

(** A keyword object of keywords.json: one list per language, either of which
    may be absent from the object. *)
Record KeywordSets := {
  english : option (list string);
  arabic : option (list string)
}.

Record FilterVerdict := {
  pass : bool;
  reason : string
}.

(** [k.english.concat(k.arabic)]: reading [concat] of a missing [english]
    throws; a missing [arabic] is not an array, so [concat] appends the value
    [undefined] itself as one element. *)
Definition concat_languages (k : KeywordSets) : result (list (option string)) :=
  match english k with
  | None => Throw "Cannot read properties of undefined (reading 'concat')"
  | Some en =>
      Ok (List.map Some en ++
          match arabic k with
          | Some ar => List.map Some ar
          | None => [None]
          end)
  end.

(** [keywords.some(keyword => bio.includes(keyword.toLowerCase()))]: stops at
    the first match; calling [toLowerCase] on an [undefined] element throws. *)
Fixpoint some_keyword_in (bio : string) (keywords : list (option string))
    : result bool :=
  match keywords with
  | [] => Ok false
  | None :: _ => Throw "Cannot read properties of undefined (reading 'toLowerCase')"
  | Some keyword :: rest =>
      if includes bio (toLowerCase keyword) then Ok true
      else some_keyword_in bio rest
  end.

(** The body of the [try] block of [filterProfile]. *)
Definition filterProfile_try (profile : Profile) (bioKeywords excludeKeywords : KeywordSets)
    : result FilterVerdict :=
  let followers := count_or_zero (edge_followed_by profile) in
  if is_private profile then
    Ok {| pass := false; reason := "Account is private" |}
  else
    let bio := toLowerCase (or_empty (biography profile)) in
    bind (concat_languages bioKeywords) (fun include_list =>
    bind (some_keyword_in bio include_list) (fun hasBioKeyword =>
    if negb hasBioKeyword then
      Ok {| pass := false; reason := "No trainer keyword in bio" |}
    else
      bind (concat_languages excludeKeywords) (fun exclude_list =>
      bind (some_keyword_in bio exclude_list) (fun hasExcludeKeyword =>
      if hasExcludeKeyword then
        Ok {| pass := false; reason := "Has exclude keyword (not a trainer)" |}
      else
        Ok {| pass := true; reason := "All checks passed" |})))).

Definition filterProfile (profile : Profile) (bioKeywords excludeKeywords : KeywordSets)
    : FilterVerdict :=
  match filterProfile_try profile bioKeywords excludeKeywords with
  | Ok verdict => verdict
  | Throw message => {| pass := false; reason := "Filter error: " ++ message |}
  end.

(** A keyword of [keywords] occurs, letter case ignored, in the biography. *)
Definition bio_mentions (profile : Profile) (keywords : list string) : Prop :=
  exists keyword,
    In keyword keywords /\
    occurs_in (toLowerCase keyword) (toLowerCase (or_empty (biography profile))).

(** The record stored for an accepted profile. *)
Record Trainer := {
  t_username : string;
  t_fullName : string;
  t_userId : string;
  t_followers : Z;
  t_following : Z;
  t_postsCount : Z;
  t_verified : string;
  t_businessAccount : string;
  t_isPrivate : string;
  t_profileImageUrl : string;
  t_bio : string;
  t_searchKeyword : string;
  t_timestamp : string
}.

Definition yes_no (b : bool) : string := if b then "Yes" else "No".

(** [extractTrainerInfo(profile, searchKeyword)]; [timestamp] is the value of
    [new Date().toISOString()] at the call.  The [catch] branch, which returns
    [null], is only reached for a [profile] that is not an object. *)
Definition extractTrainerInfo (profile : Profile) (searchKeyword timestamp : string)
    : option Trainer :=
  Some {| t_username := or_empty (username profile);
          t_fullName := or_empty (full_name profile);
          t_userId := or_empty (id profile);
          t_followers := count_or_zero (edge_followed_by profile);
          t_following := count_or_zero (edge_follow profile);
          t_postsCount := count_or_zero (edge_owner_to_timeline_media profile);
          t_verified := yes_no (is_verified profile);
          t_businessAccount := yes_no (is_business_account profile);
          t_isPrivate := yes_no (is_private profile);
          t_profileImageUrl :=
            or_else (profile_pic_url_hd profile) (or_empty (profile_pic_url profile));
          t_bio := or_empty (biography profile);
          t_searchKeyword := searchKeyword;
          t_timestamp := timestamp |}.

(** The key under which a trainer is known: [trainer.username.toLowerCase()]. *)
Definition dedupKey (trainer : Trainer) : string := toLowerCase (t_username trainer).

(** The keys of a list of trainers, as a set. *)
Definition keys_of (trainers : list Trainer) : gset string :=
  list_to_set (dedupKey <$> trainers).

(** The loop of [deduplicateTrainers] with its two locals [seen], [unique]. *)
Fixpoint dedup_loop (seen : gset string) (unique : list Trainer)
    (trainers : list Trainer) : list Trainer :=
  match trainers with
  | [] => unique
  | trainer :: rest =>
      if decide (dedupKey trainer ∈ seen) then dedup_loop seen unique rest
      else dedup_loop ({[dedupKey trainer]} ∪ seen) (unique ++ [trainer]) rest
  end.

Definition deduplicateTrainers (trainers : list Trainer) : list Trainer :=
  dedup_loop ∅ [] trainers.

Definition buildSearchQuery (name searchTerm : string) : string :=
  let cleanName := trim name in
  let cleanTerm := trim searchTerm in
  (cleanName ++ " " ++ cleanTerm)%string.

End Utils.

(** ** [class InstagramAPI] (lib/searcher.js) *)

Module InstagramAPI.
Import JS.
Local Open Scope Q_scope.

(** One entry of the array returned by [searchProfiles]. *)
Record User := {
  u_id : string;
  u_username : string;
  u_full_name : string;
  u_followers : Z;
  u_is_verified : bool;
  u_is_private : bool;
  u_profile_pic_url : string;
  u_bio : string
}.

Record t := {
  cookie : string;
  userAgent : string;
  appId : string;
  csrftoken : string;
  requestCount : nat;
  rateLimiter : AdaptiveRateLimiter.t
}.

Definition set_rateLimiter (api : t) (rl : AdaptiveRateLimiter.t) : t :=
  {| cookie := cookie api; userAgent := userAgent api; appId := appId api;
     csrftoken := csrftoken api; requestCount := requestCount api;
     rateLimiter := rl |}.

Definition count_request (api : t) : t :=
  {| cookie := cookie api; userAgent := userAgent api; appId := appId api;
     csrftoken := csrftoken api; requestCount := S (requestCount api);
     rateLimiter := rateLimiter api |}.

(** What is handed to [fetch]: the URL, its query parameters (the
    [URLSearchParams] in order) and the headers. *)
Record Request := {
  method : string;
  url : string;
  params : list (string * string);
  headers : list (string * string)
}.

(** What [fetch] and [response.json()] produce: [fetch] rejects, or a
    response arrives with a status and a body that parses to a value or does
    not parse. *)
Inductive Outcome (Body : Type) : Type :=
  | Rejects (message : string)
  | Responds (status : Z) (json : result Body).
Arguments Rejects {Body} message.
Arguments Responds {Body} status json.

Record Reply (Body : Type) := {
  latency : Q;
  outcome : Outcome Body
}.
Arguments latency {Body} r.
Arguments outcome {Body} r.

(** [response.ok] *)
Definition ok (status : Z) : bool := ((200 <=? status) && (status <=? 299))%Z.

(** The clock and the number of [Math.random()] draws made so far. *)
Record World := {
  clock : Q;
  random_draws : nat
}.

(** The request built by [searchProfiles(query, priority)] when
    [Math.random().toString(36).substring(7)] evaluates to [rank_token]. *)
Definition searchRequest (api : t) (rank_token query : string) : Request :=
  {| method := "GET";
     url := "https://www.instagram.com/web/search/topsearch/";
     params := [("context", "user");
                ("query", toLowerCase query);
                ("rank_token", rank_token);
                ("include_reel", "true")]%string;
     headers := [("User-Agent", userAgent api);
                 ("Cookie", cookie api);
                 ("X-IG-App-ID", appId api);
                 ("X-CSRFToken", csrftoken api);
                 ("X-Requested-With", "XMLHttpRequest");
                 ("Accept", "*/*");
                 ("Referer", "https://www.instagram.com/");
                 ("Accept-Language", "en-US,en;q=0.9,ar;q=0.8")]%string |}.

(** The value of the [query] parameter of a request, if it has one. *)
Fixpoint lookup_param (name : string) (ps : list (string * string)) : option string :=
  match ps with
  | [] => None
  | (k, v) :: rest => if String.eqb k name then Some v else lookup_param name rest
  end.

Definition profileRequest (api : t) (username : string) : Request :=
  {| method := "GET";
     url := "https://www.instagram.com/api/v1/users/web_profile_info/";
     params := [("username", username)]%string;
     headers := [("User-Agent", userAgent api);
                 ("Cookie", cookie api);
                 ("X-IG-App-ID", appId api);
                 ("Accept", "application/json");
                 ("X-Requested-With", "XMLHttpRequest");
                 ("Referer", "https://www.instagram.com/")]%string |}.

Section Network.

Variable lag : Q -> Q -> Q.
(** The n-th random rank token. *)
Variable random_token : nat -> string.
(** The remote service: the reply to a request sent at a given time.  The
    body of a search reply is [data.users], the body of a profile reply is
    [data.data.user], both after the field-by-field copy made by the caller;
    [None] when absent. *)
Variable search_endpoint : Request -> Q -> Reply (option (list User)).
Variable profile_endpoint : Request -> Q -> Reply (option Utils.Profile).

Definition searchProfiles (api : t) (query priority : string) (w : World)
    : list User * t * World :=
  let request := searchRequest api (random_token (random_draws w)) query in
  let '(rl, start) :=
    AdaptiveRateLimiter.beforeRequest lag (rateLimiter api) priority (clock w) in
  let api := set_rateLimiter api rl in
  let reply := search_endpoint request start in
  let finish := start + latency reply in
  let responseTime := finish - start in
  let w' := {| clock := finish; random_draws := S (random_draws w) |} in
  match outcome reply with
  | Rejects _ => ([], api, w')
  | Responds status json =>
      if (status =? 429)%Z then
        ([], set_rateLimiter api
               (AdaptiveRateLimiter.afterResponse rl finish 429 0 responseTime), w')
      else if negb (ok status) then
        ([], set_rateLimiter api
               (AdaptiveRateLimiter.afterResponse rl finish status 0 responseTime), w')
      else
        match json with
        | Throw _ => ([], api, w')
        | Ok data =>
            let users := match data with Some us => us | None => [] end in
            (users,
             count_request
               (set_rateLimiter api
                  (AdaptiveRateLimiter.afterResponse rl finish status
                     (Z.of_nat (List.length users)) responseTime)),
             w')
        end
  end.

Definition searchUsers (api : t) (query priority : string) (w : World)
    : list User * t * World :=
  searchProfiles api query priority w.

Definition getProfile (api : t) (username : string) (w : World)
    : option Utils.Profile * t * World :=
  let request := profileRequest api username in
  let '(rl, start) :=
    AdaptiveRateLimiter.beforeRequest lag (rateLimiter api) "high" (clock w) in
  let api := set_rateLimiter api rl in
  let reply := profile_endpoint request start in
  let finish := start + latency reply in
  let responseTime := finish - start in
  let w' := {| clock := finish; random_draws := random_draws w |} in
  match outcome reply with
  | Rejects _ => (None, api, w')
  | Responds status json =>
      if (status =? 429)%Z then
        (None, set_rateLimiter api
                 (AdaptiveRateLimiter.afterResponse rl finish 429 0 responseTime), w')
      else if negb (ok status) then
        (None, set_rateLimiter api
                 (AdaptiveRateLimiter.afterResponse rl finish status 0 responseTime), w')
      else
        match json with
        | Throw _ => (None, api, w')
        | Ok None =>
            (None, set_rateLimiter api
                     (AdaptiveRateLimiter.afterResponse rl finish status 0 responseTime), w')
        | Ok (Some user) =>
            (Some user,
             count_request
               (set_rateLimiter api
                  (AdaptiveRateLimiter.afterResponse rl finish status 1 responseTime)),
             w')
        end
  end.

End Network.

(** The profile that a reply delivers: only a response with an ok status
    other than 429 whose body parses and holds a user. *)
Definition delivered (o : Outcome (option Utils.Profile)) : option Utils.Profile :=
  match o with
  | Responds status (Ok (Some user)) =>
      if (status =? 429)%Z then None
      else if ok status then Some user
      else None
  | _ => None
  end.

End InstagramAPI.

(** ** The collaborators of the orchestrators

    Both [PTFinder] classes reach the remote service through the module-level
    [api] object and read the wall clock for the acceptance timestamp.  [Env]
    is everything they own (the [api] object with its rate limiter, the clock,
    the network); each orchestrator takes it and the operations on it as
    the variables of its section. *)

(** ** The three-phase [PTFinder] with case variations (lib/searcher.js) *)

Module PTFinderLegacy.
Import JS Utils.

Record Keywords := {
  egyptianLocations : list string;
  bioFilterKeywords : KeywordSets;
  excludeKeywords : KeywordSets
}.

Record t := {
  names : list string;
  keywords : Keywords;
  allTrainers : list Trainer
}.

Definition push_trainer (f : t) (trainer : Trainer) : t :=
  {| names := names f; keywords := keywords f;
     allTrainers := allTrainers f ++ [trainer] |}.

(** Returns: [Normal, lowercase, UPPERCASE] *)
Definition generateCaseVariations (name : string) : list string :=
  [name; toLowerCase name; toUpperCase name].

(** The search terms of phase 1 in the order of its three nested loops, each
    with the name variation and the location it is built from. *)
Definition phase1_terms (f : t) : list (string * string) :=
  List.flat_map
    (fun name =>
       List.flat_map
         (fun nameVar =>
            List.map (fun location => (nameVar, location))
              (egyptianLocations (keywords f)))
         (generateCaseVariations name))
    (names f).

Section Collaborators.

Variable Env : Type.
Variable searchUsers : string -> Env -> list InstagramAPI.User * Env.
Variable getProfile : string -> Env -> option Profile * Env.
(** [new Date().toISOString()] *)
Variable timestamp_now : Env -> string.
(** [await sleep(config.SEARCH.delaySecs.betweenNames * 1000)] *)
Variable pause_between_names : Env -> Env.

(** The body of [for (const user of users)]. *)
Definition process_user (label : string) (st : t * Env) (user : InstagramAPI.User)
    : t * Env :=
  let '(f, env) := st in
  let '(profile, env) := getProfile (InstagramAPI.u_username user) env in
  match profile with
  | None => (f, env)
  | Some profile =>
      let filterResult :=
        filterProfile profile (bioFilterKeywords (keywords f))
          (excludeKeywords (keywords f)) in
      if negb (pass filterResult) then (f, env)
      else
        match extractTrainerInfo profile label (timestamp_now env) with
        | Some trainer => (push_trainer f trainer, env)
        | None => (f, env)
        end
  end.

Definition process_users (label : string) (users : list InstagramAPI.User)
    (st : t * Env) : t * Env :=
  List.fold_left (process_user label) users st.

(** One iteration of the innermost loop of [phase1SearchNameLocations]. *)
Definition phase1_iteration (locations : list string)
    (acc : nat * (t * Env)) (term : string * string) : nat * (t * Env) :=
  let '(phaseCount, (f, env)) := acc in
  let '(nameVar, location) := term in
  let phaseCount := S phaseCount in
  let searchQuery := buildSearchQuery nameVar location in
  let '(users, env) := searchUsers searchQuery env in
  let '(f, env) :=
    process_users (nameVar ++ " + " ++ location)%string users (f, env) in
  if (phaseCount mod (List.length locations * 3) =? 0)%nat
  then (phaseCount, (f, pause_between_names env))
  else (phaseCount, (f, env)).

Definition phase1SearchNameLocations (st : t * Env) : t * Env :=
  let f := fst st in
  snd (List.fold_left (phase1_iteration (egyptianLocations (keywords f)))
         (phase1_terms f) (O, st)).

(** [getResults()] *)
Definition getResults (f : t) : list Trainer := deduplicateTrainers (allTrainers f).

End Collaborators.

End PTFinderLegacy.

(** ** The priority-based [PTFinder] *)

Module PTFinder.
Import JS Utils.

Record Keywords := {
  bioFilterKeywords : KeywordSets;
  excludeKeywords : KeywordSets
}.

Record t := {
  names : list string;
  keywords : Keywords;
  allTrainers : list Trainer;
  priorityNames : list string;
  remainingNames : list string;
  priorityKeywords : list string;
  reducedKeywords : list string;
  broadKeywords : list string;
  seenUsernames : gset string
}.

Definition constructor : t :=
  {| names := [];
     keywords := {| bioFilterKeywords := {| english := None; arabic := None |};
                    excludeKeywords := {| english := None; arabic := None |} |};
     allTrainers := [];
     priorityNames := [];
     remainingNames := [];
     priorityKeywords := [];
     reducedKeywords := [];
     broadKeywords := [];
     seenUsernames := ∅ |}.

Definition prioritySeed : list string :=
  ["ahmed"; "mohamed"; "mohammed"; "omar"; "ali"; "sara"; "fatma"; "mona";
   "nour"; "mariam"]%string.

Definition configureKeywordSets (f : t) : t :=
  let available : gset string := list_to_set (names f) in
  let priorityNames := filter (fun n => n ∈ available) prioritySeed in
  let remainingNames := filter (fun n => n ∉ priorityNames) (names f) in
  {| names := names f;
     keywords := keywords f;
     allTrainers := allTrainers f;
     priorityNames := priorityNames;
     remainingNames := remainingNames;
     priorityKeywords := ["trainer"; "coach"; "personal trainer"; "مدرب"; "كوتش"]%string;
     reducedKeywords := ["trainer"; "coach"; "مدرب"]%string;
     broadKeywords := ["personal trainer"; "fitness coach"; "gym trainer";
                       "مدرب شخصي"; "مدرب لياقة"; "كوتش فتنس"]%string;
     seenUsernames := seenUsernames f |}.

(** [this.seenUsernames.add(key); this.allTrainers.push(trainer)] *)
Definition accept (f : t) (trainer : Trainer) : t :=
  {| names := names f;
     keywords := keywords f;
     allTrainers := allTrainers f ++ [trainer];
     priorityNames := priorityNames f;
     remainingNames := remainingNames f;
     priorityKeywords := priorityKeywords f;
     reducedKeywords := reducedKeywords f;
     broadKeywords := broadKeywords f;
     seenUsernames := {[toLowerCase (t_username trainer)]} ∪ seenUsernames f |}.

(** Every accepted record has its key in [seenUsernames]. *)
Definition seen_covers (f : t) : Prop :=
  forall trainer, trainer ∈ allTrainers f -> dedupKey trainer ∈ seenUsernames f.

(** No two accepted records share a key. *)
Definition unique_keys (f : t) : Prop := NoDup (dedupKey <$> allTrainers f).

Section Collaborators.

Variable Env : Type.
Variable searchProfiles : string -> string -> Env -> list InstagramAPI.User * Env.
Variable getProfile : string -> Env -> option Profile * Env.
(** [new Date().toISOString()] *)
Variable timestamp_now : Env -> string.

(** The body of [for (const user of users)] in [searchAndProcess]. *)
Definition process_user (contextLabel : string) (st : t * Env)
    (user : InstagramAPI.User) : t * Env :=
  let '(f, env) := st in
  if decide (toLowerCase (InstagramAPI.u_username user) ∈ seenUsernames f) then (f, env)
  else
    let '(profile, env) := getProfile (InstagramAPI.u_username user) env in
    match profile with
    | None => (f, env)
    | Some profile =>
        let filterResult :=
          filterProfile profile (bioFilterKeywords (keywords f))
            (excludeKeywords (keywords f)) in
        if negb (pass filterResult) then (f, env)
        else
          match extractTrainerInfo profile contextLabel (timestamp_now env) with
          | Some trainer => (accept f trainer, env)
          | None => (f, env)
          end
    end.

(** The whole loop over the hits of one search. *)
Definition process_users (contextLabel : string) (users : list InstagramAPI.User)
    (st : t * Env) : t * Env :=
  List.fold_left (process_user contextLabel) users st.

(** The four ways through the loop body, for a hit [user] met in state
    [(f, env)]: the three [continue]s and the acceptance. *)
Inductive iteration (contextLabel : string) (f : t) (env : Env)
    (user : InstagramAPI.User) : t * Env -> Prop :=
  | already_seen :
      toLowerCase (InstagramAPI.u_username user) ∈ seenUsernames f ->
      iteration contextLabel f env user (f, env)
  | no_profile :
      toLowerCase (InstagramAPI.u_username user) ∉ seenUsernames f ->
      fst (getProfile (InstagramAPI.u_username user) env) = None ->
      iteration contextLabel f env user
        (f, snd (getProfile (InstagramAPI.u_username user) env))
  | filtered_out (profile : Profile) :
      toLowerCase (InstagramAPI.u_username user) ∉ seenUsernames f ->
      fst (getProfile (InstagramAPI.u_username user) env) = Some profile ->
      pass (filterProfile profile (bioFilterKeywords (keywords f))
              (excludeKeywords (keywords f))) = false ->
      iteration contextLabel f env user
        (f, snd (getProfile (InstagramAPI.u_username user) env))
  | accepted (profile : Profile) (trainer : Trainer) :
      toLowerCase (InstagramAPI.u_username user) ∉ seenUsernames f ->
      fst (getProfile (InstagramAPI.u_username user) env) = Some profile ->
      pass (filterProfile profile (bioFilterKeywords (keywords f))
              (excludeKeywords (keywords f))) = true ->
      extractTrainerInfo profile contextLabel
        (timestamp_now (snd (getProfile (InstagramAPI.u_username user) env)))
      = Some trainer ->
      iteration contextLabel f env user
        (accept f trainer, snd (getProfile (InstagramAPI.u_username user) env)).

Definition searchAndProcess (query priorityLabel contextLabel : string)
    (st : t * Env) : t * Env :=
  let '(f, env) := st in
  let '(users, env) := searchProfiles query priorityLabel env in
  process_users contextLabel users (f, env).

(** [getResults()] *)
Definition getResults (f : t) : list Trainer := deduplicateTrainers (allTrainers f).

End Collaborators.

End PTFinder.

(** ** The orchestrators run against [InstagramAPI]

    The environment of a run is the [api] object and the world; the
    orchestrators' [getProfile] and [searchProfiles] are the methods of
    [InstagramAPI], and the acceptance timestamp is the clock rendered by
    [Date.prototype.toISOString]. *)

Module Session.
Import Utils.

Definition Env : Type := InstagramAPI.t * InstagramAPI.World.

Section Session.

Variable lag : Q -> Q -> Q.
Variable random_token : nat -> string.
Variable search_endpoint :
  InstagramAPI.Request -> Q -> InstagramAPI.Reply (option (list InstagramAPI.User)).
Variable profile_endpoint :
  InstagramAPI.Request -> Q -> InstagramAPI.Reply (option Profile).
Variable toISOString : Q -> string.

Definition getProfile (username : string) (env : Env) : option Profile * Env :=
  let '(profile, api, w) :=
    InstagramAPI.getProfile lag profile_endpoint (fst env) username (snd env) in
  (profile, (api, w)).

Definition searchProfiles (query priority : string) (env : Env)
    : list InstagramAPI.User * Env :=
  let '(users, api, w) :=
    InstagramAPI.searchProfiles lag random_token search_endpoint (fst env)
      query priority (snd env) in
  (users, (api, w)).

Definition timestamp_now (env : Env) : string :=
  toISOString (InstagramAPI.clock (snd env)).

End Session.

End Session.

(** ** Concrete inputs used in the examples below *)

Module Samples.
Import JS Utils.

(** [profile] with its biography replaced and marked public. *)
Definition public_with_bio (profile : Profile) (bio : string) : Profile :=
  {| id := id profile;
     username := username profile;
     full_name := full_name profile;
     biography := Some bio;
     profile_pic_url := profile_pic_url profile;
     profile_pic_url_hd := profile_pic_url_hd profile;
     is_private := false;
     is_verified := is_verified profile;
     is_business_account := is_business_account profile;
     edge_followed_by := edge_followed_by profile;
     edge_follow := edge_follow profile;
     edge_owner_to_timeline_media := edge_owner_to_timeline_media profile |}.

(** A public profile with the given user name, biography and follower count. *)
Definition profile_of (name bio : string) (followers : Z) : Profile :=
  {| id := Some "4242"%string;
     username := Some name;
     full_name := Some name;
     biography := Some bio;
     profile_pic_url := None;
     profile_pic_url_hd := None;
     is_private := false;
     is_verified := false;
     is_business_account := false;
     edge_followed_by := Some followers;
     edge_follow := Some 10%Z;
     edge_owner_to_timeline_media := Some 3%Z |}.

Definition keyword_lists (en ar : list string) : KeywordSets :=
  {| english := Some en; arabic := Some ar |}.

(** The object [{ english: en }]. *)
Definition english_only (en : list string) : KeywordSets :=
  {| english := Some en; arabic := None |}.

(** The object [{}]. *)
Definition empty_object : KeywordSets :=
  {| english := None; arabic := None |}.

Definition sample_calls : list AdaptiveRateLimiter.Call :=
  [ {| AdaptiveRateLimiter.call_now := 1000;
       AdaptiveRateLimiter.call_status := 429;
       AdaptiveRateLimiter.call_resultsCount := 0;
       AdaptiveRateLimiter.call_responseTimeMs := 350 |};
    {| AdaptiveRateLimiter.call_now := 40000;
       AdaptiveRateLimiter.call_status := 200;
       AdaptiveRateLimiter.call_resultsCount := 12;
       AdaptiveRateLimiter.call_responseTimeMs := 2500 |};
    {| AdaptiveRateLimiter.call_now := 43000;
       AdaptiveRateLimiter.call_status := 200;
       AdaptiveRateLimiter.call_resultsCount := 0;
       AdaptiveRateLimiter.call_responseTimeMs := 400 |} ].

Definition one_429 : list AdaptiveRateLimiter.Call :=
  [ {| AdaptiveRateLimiter.call_now := 0;
       AdaptiveRateLimiter.call_status := 429;
       AdaptiveRateLimiter.call_resultsCount := 0;
       AdaptiveRateLimiter.call_responseTimeMs := 100 |} ].

Definition default_options : AdaptiveRateLimiter.Options :=
  {| AdaptiveRateLimiter.opt_baseDelayMs := None;
     AdaptiveRateLimiter.opt_minDelayMs := None;
     AdaptiveRateLimiter.opt_maxDelayMs := None;
     AdaptiveRateLimiter.opt_maxRequestsPerMinute := None |}.

Definition negative_options : AdaptiveRateLimiter.Options :=
  {| AdaptiveRateLimiter.opt_baseDelayMs := Some (-1000)%Q;
     AdaptiveRateLimiter.opt_minDelayMs := Some (-1000)%Q;
     AdaptiveRateLimiter.opt_maxDelayMs := Some 8000%Q;
     AdaptiveRateLimiter.opt_maxRequestsPerMinute := None |}.

Definition short_base_options : AdaptiveRateLimiter.Options :=
  {| AdaptiveRateLimiter.opt_baseDelayMs := Some 500%Q;
     AdaptiveRateLimiter.opt_minDelayMs := None;
     AdaptiveRateLimiter.opt_maxDelayMs := None;
     AdaptiveRateLimiter.opt_maxRequestsPerMinute := None |}.

Definition long_base_options : AdaptiveRateLimiter.Options :=
  {| AdaptiveRateLimiter.opt_baseDelayMs := Some 8000%Q;
     AdaptiveRateLimiter.opt_minDelayMs := Some 800%Q;
     AdaptiveRateLimiter.opt_maxDelayMs := Some 8000%Q;
     AdaptiveRateLimiter.opt_maxRequestsPerMinute := None |}.

(** Timers that fire exactly on time. *)
Definition punctual : Q -> Q -> Q := fun _ _ => 0%Q.

Definition sample_api : InstagramAPI.t :=
  {| InstagramAPI.cookie := "sessionid=abc; csrftoken=xyz";
     InstagramAPI.userAgent := "Mozilla/5.0";
     InstagramAPI.appId := "936619743392459";
     InstagramAPI.csrftoken := "xyz";
     InstagramAPI.requestCount := 0;
     InstagramAPI.rateLimiter := AdaptiveRateLimiter.api_limiter |}.

Definition hit (name : string) : InstagramAPI.User :=
  {| InstagramAPI.u_id := "4242";
     InstagramAPI.u_username := name;
     InstagramAPI.u_full_name := name;
     InstagramAPI.u_followers := 2500;
     InstagramAPI.u_is_verified := false;
     InstagramAPI.u_is_private := false;
     InstagramAPI.u_profile_pic_url := "";
     InstagramAPI.u_bio := "" |}.

Definition sample_world : InstagramAPI.World :=
  {| InstagramAPI.clock := 1000%Q; InstagramAPI.random_draws := 0 |}.

Definition sample_token : nat -> string := fun _ => "k3x9"%string.

(** A service that answers every search with the same two hits. *)
Definition sample_search_endpoint (request : InstagramAPI.Request) (sent : Q)
    : InstagramAPI.Reply (option (list InstagramAPI.User)) :=
  {| InstagramAPI.latency := 350%Q;
     InstagramAPI.outcome :=
       InstagramAPI.Responds 200
         (Ok (Some [hit "coach_dina"; hit "Omar.Fit"])) |}.

(** A profile service that answers every user name with the same account
    (as after a rename on the remote side); its state counts the calls. *)
Definition redirecting_getProfile (name : string) (calls : nat) : option Profile * nat :=
  (Some (profile_of "coach_dina" "Fitness coach" 2500), S calls).

(** A profile service on which every account has 5 followers. *)
Definition small_account_getProfile (name : string) (calls : nat) : option Profile * nat :=
  (Some (profile_of name "Fitness coach" 5), S calls).

Definition sample_hits : list InstagramAPI.User :=
  [hit "coach_dina"; hit "Omar.Fit"; hit "ghost"; hit "COACH_DINA"].

Definition sample_timestamp : Q -> string :=
  fun _ => "2024-05-01T10:00:00.000Z"%string.

Definition sample_env : Session.Env := (sample_api, sample_world).

(** A finder after [initialize()] on the corpus ["karim"; "sara"; "ahmed"]. *)
Definition sample_finder : PTFinder.t :=
  PTFinder.configureKeywordSets
    {| PTFinder.names := ["karim"; "sara"; "ahmed"]%string;
       PTFinder.keywords :=
         {| PTFinder.bioFilterKeywords :=
              keyword_lists ["trainer"; "coach"]%string ["مدرب"]%string;
            PTFinder.excludeKeywords :=
              keyword_lists ["musician"]%string [] |};
       PTFinder.allTrainers := [];
       PTFinder.priorityNames := [];
       PTFinder.remainingNames := [];
       PTFinder.priorityKeywords := [];
       PTFinder.reducedKeywords := [];
       PTFinder.broadKeywords := [];
       PTFinder.seenUsernames := ∅ |}.

Definition sample_legacy_finder : PTFinderLegacy.t :=
  {| PTFinderLegacy.names := ["Ahmed"]%string;
     PTFinderLegacy.keywords :=
       {| PTFinderLegacy.egyptianLocations := ["Cairo"; "Giza"]%string;
          PTFinderLegacy.bioFilterKeywords :=
            keyword_lists ["trainer"; "coach"]%string ["مدرب"]%string;
          PTFinderLegacy.excludeKeywords := keyword_lists ["musician"]%string [] |};
     PTFinderLegacy.allTrainers := [] |}.

(** A service that knows two fitness accounts, answers 404 for "ghost" and
    drops the connection for every other user name. *)
Definition sample_profile_endpoint (request : InstagramAPI.Request) (sent : Q)
    : InstagramAPI.Reply (option Profile) :=
  let name :=
    or_empty (InstagramAPI.lookup_param "username" (InstagramAPI.params request)) in
  {| InstagramAPI.latency := 500%Q;
     InstagramAPI.outcome :=
       if String.eqb name "coach_dina" then
         InstagramAPI.Responds 200 (Ok (Some (profile_of "coach_dina" "Fitness coach" 2500)))
       else if String.eqb name "Omar.Fit" then
         InstagramAPI.Responds 200 (Ok (Some (profile_of "omar.fit" "Personal trainer" 900)))
       else if String.eqb name "ghost" then
         InstagramAPI.Responds 404 (Throw "Unexpected token < in JSON")
       else InstagramAPI.Rejects "socket hang up" |}.

End Samples.

(** ** [InstagramAPI]: construction (lib/searcher.js) *)

Module ApiSetup.
Import JS.

(** [config.API.headers] *)
Definition API_headers_User_Agent : string :=
  "Mozilla/5.0 (Windows NT 10.0; Win64; x64) AppleWebKit/537.36".
Definition API_headers_X_IG_App_ID : string := "936619743392459".

(** [Some rest] when [s] is [p] followed by [rest]. *)
Fixpoint drop_prefix (p s : string) : option string :=
  match p with
  | EmptyString => Some s
  | String a p' =>
      match s with
      | EmptyString => None
      | String b s' => if Ascii.eqb a b then drop_prefix p' s' else None
      end
  end.

(** The longest run of characters other than [;] at the start of [s]: what
    the greedy class [[^;]+] consumes. *)
Fixpoint take_until_semicolon (s : string) : string :=
  match s with
  | EmptyString => EmptyString
  | String c r =>
      if Ascii.eqb c ";" then EmptyString else String c (take_until_semicolon r)
  end.

(** The regular expression [/csrftoken=([^;]+)/] tried at the start of [s]:
    the captured group, if the literal is there and is followed by at least
    one character other than [;]. *)
Definition csrftoken_at (s : string) : option string :=
  match drop_prefix "csrftoken=" s with
  | Some rest =>
      match take_until_semicolon rest with
      | EmptyString => None
      | token => Some token
      end
  | None => None
  end.

(** [cookieString.match(/csrftoken=([^;]+)/)]: the leftmost position at which
    the expression matches wins. *)
Fixpoint match_csrftoken (s : string) : option string :=
  match csrftoken_at s with
  | Some token => Some token
  | None =>
      match s with
      | EmptyString => None
      | String _ r => match_csrftoken r
      end
  end.

Definition extractCsrfFromCookie (cookieString : string) : string :=
  match match_csrftoken cookieString with
  | Some token => token
  | None => EmptyString
  end.

(** The three variables of [process.env] that the constructor reads. *)
Record ProcessEnv := {
  COOKIE : option string;
  USER_AGENT : option string;
  X_IG_APP_ID : option string
}.

(** [new InstagramAPI()] *)
Definition constructor (env : ProcessEnv) : InstagramAPI.t :=
  let cookie := or_empty (COOKIE env) in
  {| InstagramAPI.cookie := cookie;
     InstagramAPI.userAgent := or_else (USER_AGENT env) API_headers_User_Agent;
     InstagramAPI.appId := or_else (X_IG_APP_ID env) API_headers_X_IG_App_ID;
     InstagramAPI.csrftoken := extractCsrfFromCookie cookie;
     InstagramAPI.requestCount := 0;
     InstagramAPI.rateLimiter := AdaptiveRateLimiter.api_limiter |}.

(** The time at which [beforeRequest] lets a request of the given priority
    go, for an API and a world. *)
Definition send_time (lag : Q -> Q -> Q) (api : InstagramAPI.t) (priority : string)
    (w : InstagramAPI.World) : Q :=
  snd (AdaptiveRateLimiter.beforeRequest lag (InstagramAPI.rateLimiter api)
         priority (InstagramAPI.clock w)).

(** The value of a header of a request, if it is set. *)
Definition header (name : string) (request : InstagramAPI.Request) : option string :=
  InstagramAPI.lookup_param name (InstagramAPI.headers request).

End ApiSetup.

(** ** [saveCSV] (lib/utils.js): the text written to the file *)

Module Csv.
Import JS Utils.

(** The values found in the exported objects. *)
Inductive JSValue : Type :=
  | VString (s : string)
  | VNumber (n : Z)
  | VBoolean (b : bool).

(** [String(value)], for integers in plain decimal notation. *)
Definition to_text (value : JSValue) : string :=
  match value with
  | VString s => s
  | VNumber n => DecimalString.NilZero.string_of_int (Z.to_int n)
  | VBoolean true => "true"
  | VBoolean false => "false"
  end.

(** The double quote character. *)
Definition quote : ascii := ascii_of_nat 34.
(** The line feed character. *)
Definition newline : ascii := ascii_of_nat 10.

(** The global [replace] of the value: every quote is doubled. *)
Fixpoint escape_quotes (s : string) : string :=
  match s with
  | EmptyString => EmptyString
  | String c r =>
      if Ascii.eqb c quote then String quote (String quote (escape_quotes r))
      else String c (escape_quotes r)
  end.

(** The text wrapped in quotes. *)
Definition quoted (s : string) : string :=
  String quote (s ++ String quote EmptyString).

(** The cell of one value; [None] is [null] or [undefined]. *)
Definition cell (value : option JSValue) : string :=
  match value with
  | None => EmptyString
  | Some v => quoted (escape_quotes (to_text v))
  end.

(** [array.join(separator)] on strings. *)
Fixpoint join (separator : string) (parts : list string) : string :=
  match parts with
  | [] => EmptyString
  | [part] => part
  | part :: rest => part ++ separator ++ join separator rest
  end.

(** An object, as the function from property names to values. *)
Definition JSObject : Type := string -> option JSValue.

Definition headerRow (headers : list string) : string :=
  join "," (List.map quoted headers).

Definition row (headers : list string) (item : JSObject) : string :=
  join "," (List.map (fun header => cell (item header)) headers).

(** [csvContent] *)
Definition csvContent (headers : list string) (items : list JSObject) : string :=
  join (String newline EmptyString)
    (headerRow headers :: List.map (row headers) items).

(** The properties of a trainer record. *)
Definition trainer_object (trainer : Trainer) : JSObject :=
  fun header =>
    if String.eqb header "username" then Some (VString (t_username trainer))
    else if String.eqb header "fullName" then Some (VString (t_fullName trainer))
    else if String.eqb header "userId" then Some (VString (t_userId trainer))
    else if String.eqb header "followers" then Some (VNumber (t_followers trainer))
    else if String.eqb header "following" then Some (VNumber (t_following trainer))
    else if String.eqb header "postsCount" then Some (VNumber (t_postsCount trainer))
    else if String.eqb header "verified" then Some (VString (t_verified trainer))
    else if String.eqb header "businessAccount"
      then Some (VString (t_businessAccount trainer))
    else if String.eqb header "isPrivate" then Some (VString (t_isPrivate trainer))
    else if String.eqb header "profileImageUrl"
      then Some (VString (t_profileImageUrl trainer))
    else if String.eqb header "bio" then Some (VString (t_bio trainer))
    else if String.eqb header "searchKeyword"
      then Some (VString (t_searchKeyword trainer))
    else if String.eqb header "timestamp" then Some (VString (t_timestamp trainer))
    else None.

(** The [headers] of [exportResults]. *)
Definition export_headers : list string :=
  ["username"; "fullName"; "userId"; "followers"; "following"; "postsCount";
   "verified"; "businessAccount"; "isPrivate"; "bio"; "profileImageUrl";
   "searchKeyword"; "timestamp"]%string.

(** The text that reading the cell back should give. *)
Definition cell_text (value : option JSValue) : string :=
  match value with
  | None => EmptyString
  | Some v => to_text v
  end.

(** A reader of one CSV record in the usual convention: fields are separated
    by commas, a field may be wrapped in quotes, and inside quotes a doubled
    quote stands for one quote.  [in_quotes] tells whether the reader is
    inside a quoted field, [field] is the text of the field read so far. *)
Fixpoint read_fields (s : string) (in_quotes : bool) (field : string) : list string :=
  match s with
  | EmptyString => [field]
  | String c r =>
      if in_quotes then
        if Ascii.eqb c quote then
          match r with
          | EmptyString => [field]
          | String c' r' =>
              if Ascii.eqb c' quote
              then read_fields r' true (field ++ String quote EmptyString)
              else read_fields r false field
          end
        else read_fields r true (field ++ String c EmptyString)
      else if Ascii.eqb c "," then field :: read_fields r false EmptyString
      else if Ascii.eqb c quote then read_fields r true field
      else read_fields r false (field ++ String c EmptyString)
  end.

Definition read_record (line : string) : list string :=
  read_fields line false EmptyString.

End Csv.

(** ** lib/utils.js, continued *)

Module UtilsMore.
Import JS Utils.

(** The keywords of a language list that may be missing. *)
Definition or_nil (o : option (list string)) : list string :=
  match o with
  | Some l => l
  | None => []
  end.

End UtilsMore.

(** ** The priority-based [PTFinder]: initialisation and the three phases *)

Module PTFinderRun.
Import JS Utils UtilsMore PTFinder.

(** The content of names.json. *)
Record NamesData := {
  maleNames : list string;
  femaleNames : list string
}.

Definition set_names (f : PTFinder.t) (value : list string) : PTFinder.t :=
  {| names := value;
     keywords := keywords f;
     allTrainers := allTrainers f;
     priorityNames := priorityNames f;
     remainingNames := remainingNames f;
     priorityKeywords := priorityKeywords f;
     reducedKeywords := reducedKeywords f;
     broadKeywords := broadKeywords f;
     seenUsernames := seenUsernames f |}.

Definition set_keywords (f : PTFinder.t) (value : Keywords) : PTFinder.t :=
  {| names := names f;
     keywords := value;
     allTrainers := allTrainers f;
     priorityNames := priorityNames f;
     remainingNames := remainingNames f;
     priorityKeywords := priorityKeywords f;
     reducedKeywords := reducedKeywords f;
     broadKeywords := broadKeywords f;
     seenUsernames := seenUsernames f |}.

(** [initialize()]; [namesData] and [keywordsData] are what the two
    [loadJSON] calls return, [None] being [null] (the file could not be read
    or parsed).  The second file is only read when the first one loaded. *)
Definition initialize (namesData : option NamesData) (keywordsData : option Keywords)
    (f : PTFinder.t) : bool * PTFinder.t :=
  match namesData with
  | None => (false, f)
  | Some data =>
      let f :=
        set_names f (List.map toLowerCase (maleNames data ++ femaleNames data)) in
      match keywordsData with
      | None => (false, f)
      | Some loaded => (true, configureKeywordSets (set_keywords f loaded))
      end
  end.

(** One search of a phase: the query, the priority label handed to the
    limiter, and the context label stored with what it finds. *)
Record Term := {
  term_query : string;
  term_priority : string;
  term_label : string
}.

(** The searches of the two nested loops over names and keywords, in order. *)
Definition combos (priority : string) (names keywords : list string) : list Term :=
  List.flat_map
    (fun name =>
       List.map
         (fun keyword =>
            {| term_query := buildSearchQuery name keyword;
               term_priority := priority;
               term_label := (name ++ " + " ++ keyword)%string |})
         keywords)
    names.

Definition priority_terms (f : PTFinder.t) : list Term :=
  combos "high" (priorityNames f) (priorityKeywords f).

Definition remaining_terms (f : PTFinder.t) : list Term :=
  combos "medium" (remainingNames f) (reducedKeywords f).

Definition broad_terms (f : PTFinder.t) : list Term :=
  List.map
    (fun keyword =>
       {| term_query := keyword; term_priority := "low"; term_label := keyword |})
    (broadKeywords f).

(** The searches of a whole run, in the order of the three phases. *)
Definition all_terms (f : PTFinder.t) : list Term :=
  priority_terms f ++ remaining_terms f ++ broad_terms f.

(** The configuration part of two finders is the same. *)
Definition same_setup (f f' : PTFinder.t) : Prop :=
  names f' = names f /\ keywords f' = keywords f /\
  priorityNames f' = priorityNames f /\ remainingNames f' = remainingNames f /\
  priorityKeywords f' = priorityKeywords f /\
  reducedKeywords f' = reducedKeywords f /\ broadKeywords f' = broadKeywords f.

(** [f'] is [f] with the records [extra] accepted on top. *)
Definition grown_by (f f' : PTFinder.t) (extra : list Trainer) : Prop :=
  same_setup f f' /\
  allTrainers f' = allTrainers f ++ extra /\
  seenUsernames f' = keys_of extra ∪ seenUsernames f.

(** What is required of a stored record: it comes from a public profile whose
    biography mentions a keyword of the include lists and no keyword of the
    exclude lists. *)
Definition acceptable (k : Keywords) (trainer : Trainer) : Prop :=
  t_isPrivate trainer = "No"%string /\
  (exists keyword,
     In keyword (or_nil (english (bioFilterKeywords k))
                 ++ or_nil (arabic (bioFilterKeywords k))) /\
     occurs_in (toLowerCase keyword) (toLowerCase (t_bio trainer))) /\
  (forall keyword,
     In keyword (or_nil (english (excludeKeywords k))
                 ++ or_nil (arabic (excludeKeywords k))) ->
     ~ occurs_in (toLowerCase keyword) (toLowerCase (t_bio trainer))).

(** names.json as parsed: either list may be missing from the object. *)
Record NamesFile := {
  file_maleNames : option (list string);
  file_femaleNames : option (list string)
}.

(** [[...namesData.maleNames, ...namesData.femaleNames]]: spreading a
    missing list throws. *)
Definition spread_names (file : NamesFile) : result NamesData :=
  match file_maleNames file, file_femaleNames file with
  | Some male, Some female => Ok {| maleNames := male; femaleNames := female |}
  | None, _ => Throw "namesData.maleNames is not iterable"
  | Some _, None => Throw "namesData.femaleNames is not iterable"
  end.

(** [initialize()] on the parsed files: as [initialize] when the names
    object has both lists, an exception before anything is assigned when it
    lacks one. *)
Definition initialize_files (namesFile : option NamesFile)
    (keywordsData : option Keywords) (f : PTFinder.t) : result (bool * PTFinder.t) :=
  match namesFile with
  | None => Ok (false, f)
  | Some file =>
      match spread_names file with
      | Throw message => Throw message
      | Ok data => Ok (initialize (Some data) keywordsData f)
      end
  end.

(** A hit as [searchProfiles] copies it from the reply: [username] is copied
    without a default, so a hit may come without one ([None]). *)
Definition RawHit : Type := option InstagramAPI.User.

(** How a part of the run ends: it returns, or an exception leaves it; in
    both cases with the finder and the environment as they are then. *)
Inductive Completion (Env : Type) : Type :=
  | Returned (st : PTFinder.t * Env)
  | Threw (st : PTFinder.t * Env).
Arguments Returned {Env} st.
Arguments Threw {Env} st.

Definition state_of {Env : Type} (c : Completion Env) : PTFinder.t * Env :=
  match c with
  | Returned st => st
  | Threw st => st
  end.

(** [await first; await next] *)
Definition and_then {Env : Type} (c : Completion Env)
    (next : PTFinder.t * Env -> Completion Env) : Completion Env :=
  match c with
  | Returned st => next st
  | Threw st => Threw st
  end.

Section Collaborators.

Variable Env : Type.
Variable searchProfiles : string -> string -> Env -> list RawHit * Env.
Variable getProfile : string -> Env -> option Profile * Env.
Variable timestamp_now : Env -> string.
(** [await sleep(config.SEARCH.delaySecs.betweenPhases * 1000)] *)
Variable pause_between_phases : Env -> Env.

(** The body of [for (const user of users)] on a raw hit:
    [user.username.toLowerCase()] throws on a hit without user name; any
    other hit is processed by [process_user]. *)
Definition process_hit (contextLabel : string) (c : Completion Env) (hit : RawHit)
    : Completion Env :=
  and_then c
    (fun st =>
       match hit with
       | None => Threw st
       | Some user =>
           Returned (process_user Env getProfile timestamp_now contextLabel st user)
       end).

(** [searchAndProcess(query, priorityLabel, contextLabel)] on raw hits. *)
Definition searchAndProcess_raw (query priorityLabel contextLabel : string)
    (st : PTFinder.t * Env) : Completion Env :=
  let '(f, env) := st in
  let '(users, env) := searchProfiles query priorityLabel env in
  List.fold_left (process_hit contextLabel) users (Returned (f, env)).

Definition run_term (c : Completion Env) (term : Term) : Completion Env :=
  and_then c
    (searchAndProcess_raw (term_query term) (term_priority term) (term_label term)).

Definition run_terms (terms : list Term) (c : Completion Env) : Completion Env :=
  List.fold_left run_term terms c.

Definition phasePriorityCombos (st : PTFinder.t * Env) : Completion Env :=
  run_terms (priority_terms (fst st)) (Returned st).

Definition phaseRemainingCombos (st : PTFinder.t * Env) : Completion Env :=
  run_terms (remaining_terms (fst st)) (Returned st).

Definition phaseBroadKeywords (st : PTFinder.t * Env) : Completion Env :=
  run_terms (broad_terms (fst st)) (Returned st).

Definition pause (st : PTFinder.t * Env) : PTFinder.t * Env :=
  (fst st, pause_between_phases (snd st)).

(** The three phases with the pauses between them: the body of the [try]
    of [runAllPhases] after [initialize]. *)
Definition three_phases (st : PTFinder.t * Env) : Completion Env :=
  and_then
    (and_then (phasePriorityCombos st)
       (fun st => phaseRemainingCombos (pause st)))
    (fun st => phaseBroadKeywords (pause st)).

(** [runAllPhases()]: [true] when the three phases have returned, [false]
    when [initialize] returned [false] or an exception was caught. *)
Definition runAllPhases (namesFile : option NamesFile) (keywordsData : option Keywords)
    (st : PTFinder.t * Env) : bool * (PTFinder.t * Env) :=
  match initialize_files namesFile keywordsData (fst st) with
  | Throw _ => (false, st)
  | Ok (ok, f) =>
      if negb ok then (false, (f, snd st))
      else
        match three_phases (f, snd st) with
        | Returned st => (true, st)
        | Threw st => (false, st)
        end
  end.

End Collaborators.

End PTFinderRun.

(** ** [class CompletePTFinder] (lib/utils.js)

    The stand-alone finder: its filter works on the entries that
    [searchInstagram] returns, and, unlike [filterProfile], compares the
    follower count with [filters.minFollowers]. *)

Module CompletePTFinder.
Import JS.

(** [this.filters] *)
Record Filters := {
  minFollowers : Z;
  mustBePublic : bool;
  bioKeywords : list string;
  excludeKeywords : list string
}.

(** One entry of the array built by [searchInstagram]: every field has been
    defaulted there ([|| ''], [|| 0], [|| false]). *)
Record FoundUser := {
  fu_username : string;
  fu_full_name : string;
  fu_followers : Z;
  fu_is_verified : bool;
  fu_is_private : bool;
  fu_profile_pic_url : string;
  fu_bio : string
}.

(** One entry of [allTrainers]. *)
Record Found := {
  username : string;
  full_name : string;
  followers : Z;
  is_verified : bool;
  is_private : bool;
  bio : string;
  search_term : string;
  found_at : string
}.

(** The fields of the object that the two methods below use. *)
Record t := {
  filters : Filters;
  allTrainers : list Found;
  duplicatesRemoved : Z
}.

Definition constructor : t :=
  {| filters :=
       {| minFollowers := 100;
          mustBePublic := true;
          bioKeywords :=
            ["trainer"; "coach"; "fitness"; "gym"; "personal"; "pt"; "crossfit";
             "yoga"; "pilates"; "bodybuilding"; "nutrition"; "workout";
             "مدرب"; "كوتش"; "فتنس"; "جيم"; "شخصي"; "تدريب"; "رياضة";
             "لياقة"]%string;
          excludeKeywords :=
            ["musician"; "singer"; "artist"; "photographer"; "food"; "travel";
             "fashion"; "beauty"; "makeup"; "hair"; "nail"; "wedding"]%string |};
     allTrainers := [];
     duplicatesRemoved := 0 |}.

(** The body of [for (const user of users)] in [filterPotentialTrainers];
    [clock i] is [new Date().toISOString()] as read in iteration [i]. *)
Definition filter_step (this : t) (searchTerm : string) (clock : nat -> string)
    (acc : nat * list Found) (user : FoundUser) : nat * list Found :=
  let '(i, trainers) := acc in
  if mustBePublic (filters this) && fu_is_private user then (S i, trainers)
  else if (fu_followers user <? minFollowers (filters this))%Z then (S i, trainers)
  else
    let bioLower := toLowerCase (fu_bio user) in
    let hasFitnessKeyword :=
      existsb (fun keyword => includes bioLower (toLowerCase keyword))
        (bioKeywords (filters this)) in
    if negb hasFitnessKeyword then (S i, trainers)
    else
      let hasExcludeKeyword :=
        existsb (fun keyword => includes bioLower (toLowerCase keyword))
          (excludeKeywords (filters this)) in
      if hasExcludeKeyword then (S i, trainers)
      else
        (S i,
         trainers ++ [ {| username := fu_username user;
                          full_name := fu_full_name user;
                          followers := fu_followers user;
                          is_verified := fu_is_verified user;
                          is_private := fu_is_private user;
                          bio := fu_bio user;
                          search_term := searchTerm;
                          found_at := clock i |} ]).

(** [filterPotentialTrainers(users, searchTerm)] *)
Definition filterPotentialTrainers (this : t) (users : list FoundUser)
    (searchTerm : string) (clock : nat -> string) : list Found :=
  snd (List.fold_left (filter_step this searchTerm clock) users (O, [])).

(** The callback of [this.allTrainers.filter(...)] in [removeDuplicates],
    with the set [seen] it closes over and the elements kept so far. *)
Definition removeDuplicates_step (acc : gset string * list Found) (trainer : Found)
    : gset string * list Found :=
  let '(seen, kept) := acc in
  if decide (username trainer ∈ seen) then (seen, kept)
  else ({[username trainer]} ∪ seen, kept ++ [trainer]).

(** [removeDuplicates()] *)
Definition removeDuplicates (this : t) : t :=
  let beforeCount := Z.of_nat (List.length (allTrainers this)) in
  let kept := snd (List.fold_left removeDuplicates_step (allTrainers this) (∅, [])) in
  {| filters := filters this;
     allTrainers := kept;
     duplicatesRemoved :=
       (duplicatesRemoved this + (beforeCount - Z.of_nat (List.length kept)))%Z |}.

End CompletePTFinder.

(** ** [class InstagramAPI] of lib/api.js: fixed spacing, retry on 429

    The module that the three-phase finder imports as [api].  It has no
    search endpoint: [searchUsers] probes twelve user names derived from the
    first word of the query.  The credential fields are constants that only
    flow into the request headers and are left out. *)

Module ProbingAPI.
Import JS.
Local Open Scope Q_scope.

Record t := {
  requestCount : nat;
  lastRequestTime : Q
}.

Definition constructor : t := {| requestCount := 0; lastRequestTime := 0 |}.

(** One entry of the array returned by [searchUsers]. *)
Record Hit := {
  h_id : option string;
  h_username : option string;
  h_full_name : option string;
  h_profile_pic_url : option string;
  h_profile_pic_url_hd : option string;
  h_is_private : bool;
  h_is_verified : bool;
  h_is_business_account : bool
}.

Definition hit_of (profile : Utils.Profile) : Hit :=
  {| h_id := Utils.id profile;
     h_username := Utils.username profile;
     h_full_name := Utils.full_name profile;
     h_profile_pic_url := Utils.profile_pic_url profile;
     h_profile_pic_url_hd := Utils.profile_pic_url_hd profile;
     h_is_private := Utils.is_private profile;
     h_is_verified := Utils.is_verified profile;
     h_is_business_account := Utils.is_business_account profile |}.

(** [query.split(' ')[0]]: the text before the first space. *)
Fixpoint first_word (query : string) : string :=
  match query with
  | EmptyString => EmptyString
  | String c rest => if Ascii.eqb c " " then EmptyString else String c (first_word rest)
  end.

Definition usernamePatterns (name : string) : list string :=
  [ toLowerCase name;
    toLowerCase name ++ "_pt";
    toLowerCase name ++ "_trainer";
    toLowerCase name ++ "_coach";
    toLowerCase name ++ "_fitness";
    toLowerCase name ++ "pt";
    toLowerCase name ++ "trainer";
    toLowerCase name ++ "coach";
    "pt_" ++ toLowerCase name;
    "trainer_" ++ toLowerCase name;
    "coach_" ++ toLowerCase name;
    toLowerCase name ++ "_gym" ]%string.

Section Network.

Variable lag : Q -> Q -> Q.
(** The remote service: the reply to a profile request for a user name sent
    at a given time; the body is [data.data.user] after the field-by-field
    copy, [None] when absent. *)
Variable profile_endpoint : string -> Q -> InstagramAPI.Reply (option Utils.Profile).

(** [getProfile(username)] entered when the clock shows [clock].  The method
    calls itself after a 429, without bound: [fuel] bounds the number of
    requests, and [None] means that it was used up. *)
Fixpoint getProfile (fuel : nat) (api : t) (username : string) (clock : Q)
    : option (option Utils.Profile * t * Q) :=
  match fuel with
  | O => None
  | S fuel =>
      let timeSinceLastRequest := clock - lastRequestTime api in
      let delayMs := Config.SEARCH_delaySecs_betweenRequests * 1000 in
      let clock :=
        if AdaptiveRateLimiter.Qltb timeSinceLastRequest delayMs
        then AdaptiveRateLimiter.sleep lag (delayMs - timeSinceLastRequest) clock
        else clock in
      let api := {| requestCount := S (requestCount api); lastRequestTime := clock |} in
      let reply := profile_endpoint username clock in
      let clock := clock + InstagramAPI.latency reply in
      match InstagramAPI.outcome reply with
      | InstagramAPI.Rejects _ => Some (None, api, clock)
      | InstagramAPI.Responds status json =>
          if negb (InstagramAPI.ok status) then
            if (status =? 429)%Z then
              getProfile fuel api username (AdaptiveRateLimiter.sleep lag 60000 clock)
            else Some (None, api, clock)
          else
            match json with
            | Throw _ => Some (None, api, clock)
            | Ok None => Some (None, api, clock)
            | Ok (Some user) => Some (Some user, api, clock)
            end
      end
  end.

(** The body of [for (const username of usernamePatterns)]. *)
Definition probe (fuel : nat) (acc : option (list Hit * t * Q)) (username : string)
    : option (list Hit * t * Q) :=
  match acc with
  | None => None
  | Some (results, api, clock) =>
      match getProfile fuel api username clock with
      | None => None
      | Some (profile, api, clock) =>
          let results :=
            match profile with
            | Some profile => results ++ [hit_of profile]
            | None => results
            end in
          Some (results, api, AdaptiveRateLimiter.sleep lag 1500 clock)
      end
  end.

(** [searchUsers(query)]; [fuel] bounds the requests of each probe. *)
Definition searchUsers (fuel : nat) (api : t) (query : string) (clock : Q)
    : option (list Hit * t * Q) :=
  let name := first_word query in
  List.fold_left (probe fuel) (usernamePatterns name) (Some ([], api, clock)).

End Network.

End ProbingAPI.

(** ** Further concrete inputs *)

Module MoreSamples.
Import JS Utils Samples.

Definition quiet_calls : list AdaptiveRateLimiter.Call :=
  [ {| AdaptiveRateLimiter.call_now := 1000;
       AdaptiveRateLimiter.call_status := 200;
       AdaptiveRateLimiter.call_resultsCount := 4;
       AdaptiveRateLimiter.call_responseTimeMs := 350 |};
    {| AdaptiveRateLimiter.call_now := 4000;
       AdaptiveRateLimiter.call_status := 404;
       AdaptiveRateLimiter.call_resultsCount := 0;
       AdaptiveRateLimiter.call_responseTimeMs := 2500 |} ].

(** A service that throttles every search. *)
Definition throttling_search_endpoint (request : InstagramAPI.Request) (sent : Q)
    : InstagramAPI.Reply (option (list InstagramAPI.User)) :=
  {| InstagramAPI.latency := 350%Q;
     InstagramAPI.outcome := InstagramAPI.Responds 429 (Throw "Unexpected token <") |}.

(** A public profile that has no biography. *)
Definition profile_without_bio : Profile :=
  {| id := Some "77"%string;
     username := Some "silent_sam"%string;
     full_name := None;
     biography := None;
     profile_pic_url := None;
     profile_pic_url_hd := None;
     is_private := false;
     is_verified := false;
     is_business_account := false;
     edge_followed_by := Some 40000%Z;
     edge_follow := None;
     edge_owner_to_timeline_media := None |}.

(** A record whose biography holds a quote, a comma and a line break. *)
Definition awkward_trainer : Trainer :=
  {| t_username := "coach_dina";
     t_fullName := "Dina, the coach";
     t_userId := "4242";
     t_followers := 2500;
     t_following := 10;
     t_postsCount := 3;
     t_verified := "No";
     t_businessAccount := "Yes";
     t_isPrivate := "No";
     t_profileImageUrl := "";
     t_bio := String Csv.quote "Train hard" ++ String Csv.quote ", she says"
              ++ String Csv.newline "DM for coaching";
     t_searchKeyword := "ahmed + trainer";
     t_timestamp := "2024-05-01T10:00:00.000Z" |}.


(** A limiter whose ceiling leaves room above the initial backoff. *)
Definition roomy_limiter : AdaptiveRateLimiter.t :=
  AdaptiveRateLimiter.constructor
    {| AdaptiveRateLimiter.opt_baseDelayMs := Some 1500%Q;
       AdaptiveRateLimiter.opt_minDelayMs := Some 800%Q;
       AdaptiveRateLimiter.opt_maxDelayMs := Some 20000%Q;
       AdaptiveRateLimiter.opt_maxRequestsPerMinute := Some 90%Q |}.


(** An environment that only counts: the searches sent and the pauses
    taken.  No search returns a hit. *)
Definition counting_searchUsers (query : string) (env : nat * nat)
    : list InstagramAPI.User * (nat * nat) :=
  ([], (S (fst env), snd env)).

Definition counting_getProfile (name : string) (env : nat * nat)
    : option Profile * (nat * nat) :=
  (None, env).

Definition counting_timestamp (env : nat * nat) : string :=
  "2024-05-01T10:00:00.000Z".

Definition counting_pause (env : nat * nat) : nat * nat :=
  (fst env, S (snd env)).


(** A service that answers 429 until the clock shows one minute and then
    finds nobody. *)
Definition busy_then_unknown (username : string) (sent : Q)
    : InstagramAPI.Reply (option Profile) :=
  {| InstagramAPI.latency := 100;
     InstagramAPI.outcome :=
       if AdaptiveRateLimiter.Qltb sent 60000
       then InstagramAPI.Responds 429 (Ok None)
       else InstagramAPI.Responds 404 (Ok None) |}.

(** A service that answers 429 whatever is asked. *)
Definition always_busy (username : string) (sent : Q)
    : InstagramAPI.Reply (option Profile) :=
  {| InstagramAPI.latency := 100;
     InstagramAPI.outcome := InstagramAPI.Responds 429 (Ok None) |}.

End MoreSamples.

(* ===================================================================== *)
(** * Part II: properties                                                 *)
(* ===================================================================== *)

(** ** The rate limiter *)

Section RateLimiterFacts.
Import AdaptiveRateLimiter Samples.
Local Open Scope Q_scope.

Lemma Qltb_lt (a b : Q) : Qltb a b = true <-> a < b.
Proof.
  unfold Qltb. rewrite negb_true_iff. split.
  - intros H. apply Qnot_le_lt. intros Hle.
    apply Qle_bool_iff in Hle. congruence.
  - intros H. destruct (Qle_bool b a) eqn:E; [|reflexivity].
    apply Qle_bool_iff in E. exfalso. eapply Qlt_not_le; eauto.
Qed.

Lemma Qltb_ge (a b : Q) : Qltb a b = false <-> b <= a.
Proof.
  unfold Qltb. rewrite negb_false_iff. apply Qle_bool_iff.
Qed.

(** Case analysis on every [Math.min] and [Math.max] in sight. *)
Ltac split_minmax :=
  repeat match goal with
  | |- context [Qmin ?a ?b] =>
      let H := fresh "Hmin" in
      destruct (Q.min_spec a b) as [[? H] | [? H]];
      generalize dependent (Qmin a b); intros
  | |- context [Qmax ?a ?b] =>
      let H := fresh "Hmax" in
      destruct (Q.max_spec a b) as [[? H] | [? H]];
      generalize dependent (Qmax a b); intros
  | _ : context [Qmin ?a ?b] |- _ =>
      let H := fresh "Hmin" in
      destruct (Q.min_spec a b) as [[? H] | [? H]];
      generalize dependent (Qmin a b); intros
  | _ : context [Qmax ?a ?b] |- _ =>
      let H := fresh "Hmax" in
      destruct (Q.max_spec a b) as [[? H] | [? H]];
      generalize dependent (Qmax a b); intros
  end.

Lemma afterResponse_config s now status rc rt :
  let s' := afterResponse s now status rc rt in
  baseDelayMs s' = baseDelayMs s /\ minDelayMs s' = minDelayMs s /\
  maxDelayMs s' = maxDelayMs s /\
  maxRequestsPerMinute s' = maxRequestsPerMinute s /\
  lastRequestTime s' = lastRequestTime s.
Proof.
  unfold afterResponse. destruct (status =? 429)%Z; cbn; auto.
Qed.

(** One call keeps the dynamic delay between the two bounds, as soon as the
    lower bound is not below -400 (so that multiplying by 1.5 and adding 200
    cannot move the delay down). *)
Lemma afterResponse_within_bounds s now status rc rt :
  -400 <= minDelayMs s ->
  within_bounds s ->
  within_bounds (afterResponse s now status rc rt).
Proof.
  unfold within_bounds, afterResponse. intros Hlo [Hmin Hmax].
  destruct (status =? 429)%Z; cbn.
  - split_minmax; split; lra.
  - repeat match goal with
           | |- context [if ?b then _ else _] => destruct b
           end; split_minmax; split; lra.
Qed.

Lemma trace_within_bounds (calls : list Call) : forall s,
  -400 <= minDelayMs s ->
  within_bounds s ->
  Forall (fun s' => minDelayMs s <= dynamicDelayMs s' /\
                    dynamicDelayMs s' <= maxDelayMs s) (trace s calls).
Proof.
  induction calls as [|c calls IH]; intros s Hlo Hb; cbn; [constructor|].
  pose proof (afterResponse_within_bounds s (call_now c) (call_status c)
                (call_resultsCount c) (call_responseTimeMs c) Hlo Hb) as Hb'.
  pose proof (afterResponse_config s (call_now c) (call_status c)
                (call_resultsCount c) (call_responseTimeMs c)) as (_ & Emin & Emax & _).
  cbn in Emin, Emax. unfold apply_call.
  constructor.
  - unfold within_bounds in Hb'. rewrite Emin, Emax in Hb'. exact Hb'.
  - specialize (IH _ (eq_ind_r (fun m => -400 <= m) Hlo Emin) Hb').
    rewrite Emin, Emax in IH. exact IH.
Qed.

(** What the 429 branch does, and that no other branch touches the cooldown. *)
Lemma afterResponse_429 s now rc rt :
  let s' := afterResponse s now 429 rc rt in
  cooldownUntil s' = now + backoffMs s /\
  dynamicDelayMs s' = Qmin (dynamicDelayMs s * (3 # 2) + 200) (maxDelayMs s) /\
  backoffMs s' = Qmin (backoffMs s * (3 # 2)) (maxDelayMs s * 4) /\
  backoffMs s' <= maxDelayMs s * 4 /\
  (0 <= backoffMs s -> backoffMs s <= maxDelayMs s * 4 -> backoffMs s <= backoffMs s').
Proof.
  cbn. repeat split; try reflexivity.
  - apply Q.le_min_r.
  - intros. split_minmax; lra.
Qed.

Lemma afterResponse_other_status s now status rc rt :
  status <> 429%Z ->
  let s' := afterResponse s now status rc rt in
  cooldownUntil s' = cooldownUntil s /\ backoffMs s' = backoffMs s.
Proof.
  intros H. unfold afterResponse.
  destruct (Z.eqb_spec status 429); [contradiction|]. cbn. auto.
Qed.

(** C1, as amended.  For every sequence of [afterResponse] calls applied to a
    freshly constructed limiter whose resolved configuration satisfies
    [-400 <= minDelayMs <= baseDelayMs <= maxDelayMs] (in particular for every
    non-negative [minDelayMs]), [dynamicDelayMs] lies in
    [[minDelayMs, maxDelayMs]] after every call, whatever the status, result
    count and response time of each call. *)
Theorem dynamicDelayMs_stays_within_bounds (options : Options) (calls : list Call) :
  let s0 := constructor options in
  -400 <= minDelayMs s0 ->
  minDelayMs s0 <= baseDelayMs s0 ->
  baseDelayMs s0 <= maxDelayMs s0 ->
  Forall (fun s => minDelayMs s0 <= dynamicDelayMs s /\
                   dynamicDelayMs s <= maxDelayMs s0) (trace s0 calls).
Proof.
  intros s0 Hlo Hmin Hmax. apply trace_within_bounds; [exact Hlo|].
  split; [exact Hmin | exact Hmax].
Qed.

Lemma dynamicDelayMs_stays_within_bounds_witness :
  Forall (fun s => minDelayMs (constructor default_options) <= dynamicDelayMs s /\
                   dynamicDelayMs s <= maxDelayMs (constructor default_options))
    (trace (constructor default_options) sample_calls).
Proof.
  apply (dynamicDelayMs_stays_within_bounds default_options sample_calls);
    vm_compute; intros H; discriminate H.
Defined.

(** C1 as stated fails for a negative lower bound: with
    [minDelayMs = baseDelayMs = -1000] and [maxDelayMs = 8000] the hypothesis
    [minDelayMs <= baseDelayMs <= maxDelayMs] holds, and one 429 moves
    [dynamicDelayMs] to [-1300], below [minDelayMs]. *)
Lemma dynamicDelayMs_bounds_counterexample :
  let s0 := constructor negative_options in
  let calls := one_429 in
  (minDelayMs s0 <= baseDelayMs s0 /\ baseDelayMs s0 <= maxDelayMs s0) /\
  ~ Forall (fun s => minDelayMs s0 <= dynamicDelayMs s /\
                     dynamicDelayMs s <= maxDelayMs s0) (trace s0 calls).
Proof.
  cbv zeta. split.
  - split; vm_compute; intros H; discriminate H.
  - intros H. inversion H as [|? ? [Hlow _] _]; subst.
    vm_compute in Hlow. apply Hlow. reflexivity.
Qed.

(** C3, at the failing input.  On the limiter that [new InstagramAPI()]
    builds ([maxDelayMs = 8000], initial [backoffMs = 60000]) the first 429
    sets [cooldownUntil = now + 60000] and then lowers [backoffMs] to
    [4 * maxDelayMs = 32000]: the back-off is smaller than before, and the
    next 429 leaves it at 32000. *)
Theorem backoffMs_shrinks_on_first_429 (now now' : Q) (rc rc' : Z) (rt rt' : Q) :
  let s := api_limiter in
  let s' := afterResponse s now 429 rc rt in
  let s'' := afterResponse s' now' 429 rc' rt' in
  backoffMs s = 60000 /\
  cooldownUntil s' = now + 60000 /\
  backoffMs s' == 32000 /\
  backoffMs s' < backoffMs s /\
  backoffMs s'' == 32000.
Proof.
  cbv zeta. repeat split.
Qed.

(** C7, as amended.  For every limiter whose [minDelayMs] does not exceed its
    [baseDelayMs], the base delays are ordered high <= medium <= low, where
    high is [baseDelayMs - 300] floored at [minDelayMs], medium is
    [baseDelayMs], and low adds the same 300, which is the value capped at
    [maxDelayMs] whenever [baseDelayMs + 300 <= maxDelayMs]. *)
Theorem baseForPriority_ordering (s : t) :
  minDelayMs s <= baseDelayMs s ->
  baseForPriority s "high" <= baseForPriority s "medium" /\
  baseForPriority s "medium" <= baseForPriority s "low" /\
  baseForPriority s "high" = Qmax (baseDelayMs s - 300) (minDelayMs s) /\
  baseForPriority s "medium" = baseDelayMs s /\
  (baseDelayMs s + 300 <= maxDelayMs s ->
   baseForPriority s "low" == Qmin (baseDelayMs s + 300) (maxDelayMs s)).
Proof.
  intros H. unfold baseForPriority. cbn.
  split; [split_minmax; lra|]. split; [lra|].
  split; [reflexivity|]. split; [reflexivity|].
  intros Hcap. split_minmax; lra.
Qed.

Lemma baseForPriority_ordering_witness :
  baseForPriority api_limiter "high" <= baseForPriority api_limiter "medium" /\
  baseForPriority api_limiter "medium" <= baseForPriority api_limiter "low" /\
  baseForPriority api_limiter "high" =
    Qmax (baseDelayMs api_limiter - 300) (minDelayMs api_limiter) /\
  baseForPriority api_limiter "medium" = baseDelayMs api_limiter /\
  (baseDelayMs api_limiter + 300 <= maxDelayMs api_limiter ->
   baseForPriority api_limiter "low"
   == Qmin (baseDelayMs api_limiter + 300) (maxDelayMs api_limiter)).
Proof.
  apply (baseForPriority_ordering api_limiter).
  vm_compute. intros H. discriminate H.
Defined.

(** C7 as stated fails twice.  With [baseDelayMs = 500] and the default
    [minDelayMs = 800], high is 800 and medium is 500, so high <= medium
    fails; with [baseDelayMs = maxDelayMs = 8000], low is 8300, above
    [maxDelayMs]: the low branch has no [Math.min] that would mirror the
    [Math.max] of the high branch. *)
Lemma baseForPriority_counterexample :
  ~ (baseForPriority (constructor short_base_options) "high"
       <= baseForPriority (constructor short_base_options) "medium") /\
  ~ (baseForPriority (constructor long_base_options) "low"
       <= maxDelayMs (constructor long_base_options)) /\
  baseForPriority (constructor long_base_options) "low" == 8300.
Proof.
  repeat split.
  - intros H. vm_compute in H. apply H. reflexivity.
  - intros H. vm_compute in H. apply H. reflexivity.
Qed.

Section Cooldown.

Variable lag : Q -> Q -> Q.
Hypothesis lag_nonneg : forall clock ms, 0 <= lag clock ms.

Lemma sleep_advances ms clock : clock + ms <= sleep lag ms clock.
Proof. unfold sleep. pose proof (lag_nonneg clock ms). lra. Qed.

(** [beforeRequest] never resumes before the cooldown deadline, whatever the
    priority label. *)
Lemma beforeRequest_waits_for_cooldown (s : t) (priority : string) (clock : Q) :
  0 <= clock ->
  cooldownUntil s <= snd (beforeRequest lag s priority clock) /\
  clock <= snd (beforeRequest lag s priority clock) /\
  lastRequestTime (fst (beforeRequest lag s priority clock))
    = snd (beforeRequest lag s priority clock).
Proof.
  intros Hclock. unfold beforeRequest. cbn [fst snd set_lastRequestTime lastRequestTime].
  set (wait := Qmax _ 0).
  assert (Hwait : 0 <= wait) by apply Q.le_max_r.
  set (clock1 := if _ && _ then _ else clock).
  assert (H1 : cooldownUntil s <= clock1 /\ clock <= clock1).
  { subst clock1.
    destruct (Qeq_bool (cooldownUntil s) 0) eqn:Ez; cbn [negb andb].
    - apply Qeq_bool_iff in Ez. split; lra.
    - destruct (Qltb clock (cooldownUntil s)) eqn:El.
      + apply Qltb_lt in El.
        pose proof (sleep_advances (cooldownUntil s - clock) clock). split; lra.
      + apply Qltb_ge in El. split; lra. }
  destruct H1 as [H1 H2].
  destruct (Qltb 0 wait) eqn:Ew.
  - pose proof (sleep_advances wait clock1). repeat split; try lra.
  - repeat split; lra.
Qed.

(** C2.  After [afterResponse] has recorded a 429 at time [now] (so that
    [cooldownUntil = now + backoffMs]), the next [beforeRequest], entered at
    any clock value and with any priority label, suspends the caller for at
    least [cooldownUntil - clock]: it resumes, and records
    [lastRequestTime], no earlier than [cooldownUntil]. *)
Theorem cooldown_dominance (s : t) (now : Q) (rc : Z) (rt : Q)
    (priority : string) (clock : Q) :
  0 <= clock ->
  let s' := afterResponse s now 429 rc rt in
  let resumed := snd (beforeRequest lag s' priority clock) in
  cooldownUntil s' = now + backoffMs s /\
  cooldownUntil s' - clock <= resumed - clock /\
  cooldownUntil s' <= resumed /\
  lastRequestTime (fst (beforeRequest lag s' priority clock)) = resumed.
Proof.
  intros Hclock s' resumed.
  destruct (beforeRequest_waits_for_cooldown s' priority clock Hclock)
    as (Hc & _ & Hl).
  fold resumed in Hc, Hl.
  split; [reflexivity|]. split; [lra|]. split; [exact Hc | exact Hl].
Qed.

End Cooldown.

Lemma cooldown_dominance_witness :
  let s' := afterResponse api_limiter 1000 429 0 350 in
  let resumed := snd (beforeRequest punctual s' "low" 2000) in
  cooldownUntil s' = 1000 + backoffMs api_limiter /\
  cooldownUntil s' - 2000 <= resumed - 2000 /\
  cooldownUntil s' <= resumed /\
  lastRequestTime (fst (beforeRequest punctual s' "low" 2000)) = resumed.
Proof.
  apply (cooldown_dominance punctual (fun _ _ => Qle_refl 0)
           api_limiter 1000 0 350 "low" 2000).
  vm_compute. intros H. discriminate H.
Defined.

End RateLimiterFacts.

(** ** Strings *)

Section StringFacts.
Import JS.
Local Open Scope string_scope.

Lemma append_cons (c : ascii) (a b : string) : String c a ++ b = String c (a ++ b).
Proof. reflexivity. Qed.

Lemma append_empty (b : string) : "" ++ b = b.
Proof. reflexivity. Qed.

Lemma prefix_true_iff (sub s : string) :
  String.prefix sub s = true <-> exists after, s = sub ++ after.
Proof.
  revert s. induction sub as [|a sub IH]; intros s.
  - destruct s; cbn; split; eauto.
  - destruct s as [|b s]; cbn.
    + split; [discriminate | intros [after H]; discriminate H].
    + destruct (ascii_dec a b) as [->|Hne].
      * rewrite IH. split; intros [after H]; exists after.
        -- now rewrite H.
        -- now injection H.
      * split; [discriminate | intros [after H]].
        rewrite append_cons in H. injection H as E _. congruence.
Qed.

Lemma includes_true_iff (s sub : string) :
  includes s sub = true <-> occurs_in sub s.
Proof.
  unfold occurs_in. induction s as [|c s IH]; cbn [includes].
  - rewrite orb_false_r, prefix_true_iff. split.
    + intros [after H]. exists "", after. exact H.
    + intros (before & after & H). destruct before; [eauto | discriminate H].
  - rewrite orb_true_iff, prefix_true_iff, IH. split.
    + intros [[after H] | (before & after & H)].
      * exists "", after. exact H.
      * exists (String c before), after. rewrite append_cons. congruence.
    + intros (before & after & H). destruct before as [|b before].
      * left. exists after. exact H.
      * right. rewrite append_cons in H. injection H as -> H. eauto.
Qed.

Lemma map_chars_app f (a b : string) :
  map_chars f (a ++ b) = map_chars f a ++ map_chars f b.
Proof.
  induction a as [|c a IH]; [reflexivity|].
  rewrite append_cons. cbn [map_chars]. rewrite append_cons. congruence.
Qed.

Lemma lower_upper_char (c : ascii) : lower_char (upper_char c) = lower_char c.
Proof. destruct c as [[] [] [] [] [] [] [] []]; reflexivity. Qed.

Lemma lower_lower_char (c : ascii) : lower_char (lower_char c) = lower_char c.
Proof. destruct c as [[] [] [] [] [] [] [] []]; reflexivity. Qed.

Lemma is_space_lower_char (c : ascii) : is_space (lower_char c) = is_space c.
Proof. destruct c as [[] [] [] [] [] [] [] []]; reflexivity. Qed.

Lemma is_space_upper_char (c : ascii) : is_space (upper_char c) = is_space c.
Proof. destruct c as [[] [] [] [] [] [] [] []]; reflexivity. Qed.

(** On ASCII strings [toUpperCase] works character by character. *)
Lemma toUpperCase_ascii (s : string) :
  ascii_only s = true -> toUpperCase s = map_chars upper_char s.
Proof.
  induction s as [|c r IH]; [reflexivity|].
  cbn [ascii_only]. intros H. apply andb_prop in H as [Hc Hr].
  apply Nat.ltb_lt in Hc. specialize (IH Hr).
  cbn [toUpperCase map_chars]. destruct r as [|d r']; [reflexivity|].
  destruct (Nat.eqb_spec (nat_of_ascii c) 195) as [E|_]; [lia|].
  cbn [andb]. now rewrite IH.
Qed.

Lemma toLowerCase_map_upper (s : string) :
  toLowerCase (map_chars upper_char s) = toLowerCase s.
Proof.
  unfold toLowerCase.
  induction s as [|c s IH]; cbn; [reflexivity|].
  now rewrite lower_upper_char, IH.
Qed.

Lemma toLowerCase_toUpperCase (s : string) :
  ascii_only s = true -> toLowerCase (toUpperCase s) = toLowerCase s.
Proof. intros H. rewrite (toUpperCase_ascii s H). apply toLowerCase_map_upper. Qed.

Lemma toLowerCase_idempotent (s : string) :
  toLowerCase (toLowerCase s) = toLowerCase s.
Proof.
  unfold toLowerCase.
  induction s as [|c s IH]; cbn; [reflexivity|].
  now rewrite lower_lower_char, IH.
Qed.

(** Trimming commutes with a character map that keeps white space white and
    the rest non-white. *)
Section TrimMap.
Variable f : ascii -> ascii.
Hypothesis f_space : forall c, is_space (f c) = is_space c.

Lemma trimStart_map_chars (s : string) :
  trimStart (map_chars f s) = map_chars f (trimStart s).
Proof.
  induction s as [|c s IH]; cbn; [reflexivity|].
  rewrite f_space. destruct (is_space c); [exact IH | reflexivity].
Qed.

Lemma trimEnd_map_chars (s : string) :
  trimEnd (map_chars f s) = map_chars f (trimEnd s).
Proof.
  induction s as [|c s IH]; cbn; [reflexivity|].
  rewrite IH, f_space.
  destruct (trimEnd s); cbn; [destruct (is_space c)|]; reflexivity.
Qed.

Lemma trim_map_chars (s : string) : trim (map_chars f s) = map_chars f (trim s).
Proof. unfold trim. now rewrite trimStart_map_chars, trimEnd_map_chars. Qed.

End TrimMap.

Lemma toLowerCase_buildSearchQuery (name term : string) :
  toLowerCase (Utils.buildSearchQuery name term)
  = Utils.buildSearchQuery (toLowerCase name) (toLowerCase term).
Proof.
  unfold Utils.buildSearchQuery, toLowerCase.
  rewrite !map_chars_app, !(trim_map_chars _ is_space_lower_char). reflexivity.
Qed.

End StringFacts.

(** ** The profile filter *)

Section FilterFacts.
Import JS Utils Samples.

Lemma some_keyword_in_all_present (bio : string) (keywords : list string) :
  some_keyword_in bio (List.map Some keywords)
  = Ok (existsb (fun keyword => includes bio (toLowerCase keyword)) keywords).
Proof.
  induction keywords as [|k ks IH]; cbn; [reflexivity|].
  destruct (includes bio (toLowerCase k)); [reflexivity | exact IH].
Qed.

Lemma concat_languages_present (en ar : list string) :
  concat_languages (keyword_lists en ar) = Ok (List.map Some (en ++ ar)).
Proof. cbn. now rewrite List.map_app. Qed.

Lemma existsb_includes_iff (profile : Profile) (keywords : list string) :
  existsb (fun keyword =>
             includes (toLowerCase (or_empty (biography profile))) (toLowerCase keyword))
    keywords = true
  <-> bio_mentions profile keywords.
Proof.
  unfold bio_mentions. rewrite existsb_exists.
  split; intros (k & Hin & H); exists k; split; auto; now apply includes_true_iff.
Qed.

(** The verdict when all four keyword lists are present. *)
Lemma filterProfile_present (profile : Profile) (inEn inAr exEn exAr : list string) :
  pass (filterProfile profile (keyword_lists inEn inAr) (keyword_lists exEn exAr))
  = negb (is_private profile)
    && existsb (fun keyword =>
                  includes (toLowerCase (or_empty (biography profile)))
                    (toLowerCase keyword)) (inEn ++ inAr)
    && negb (existsb (fun keyword =>
                        includes (toLowerCase (or_empty (biography profile)))
                          (toLowerCase keyword)) (exEn ++ exAr)).
Proof.
  unfold filterProfile, filterProfile_try.
  destruct (is_private profile); [reflexivity|].
  rewrite !concat_languages_present. cbn [bind].
  rewrite !some_keyword_in_all_present. cbn [bind negb andb].
  destruct (existsb _ (inEn ++ inAr)); cbn [negb andb pass]; [|reflexivity].
  rewrite ?concat_languages_present; cbn [bind].
  rewrite ?some_keyword_in_all_present; cbn [bind].
  destruct (existsb _ (exEn ++ exAr)); reflexivity.
Qed.

(** A matching exclude keyword rejects, whatever the include object is. *)
Lemma filterProfile_exclude_wins (profile : Profile) (include : KeywordSets)
    (exEn exAr : list string) :
  bio_mentions profile (exEn ++ exAr) ->
  pass (filterProfile profile include (keyword_lists exEn exAr)) = false.
Proof.
  intros Hex. apply existsb_includes_iff in Hex.
  unfold filterProfile, filterProfile_try.
  destruct (is_private profile); [reflexivity|].
  destruct (concat_languages include) as [inc|m]; cbn [bind]; [|reflexivity].
  destruct (some_keyword_in _ inc) as [[|]|m]; cbn [bind negb pass]; try reflexivity.
  rewrite concat_languages_present. cbn [bind].
  rewrite some_keyword_in_all_present, Hex. reflexivity.
Qed.

(** C4, as amended.  For every profile and every keyword configuration whose
    include and exclude objects both carry the [english] and the [arabic]
    list, [filterProfile] passes exactly when the profile is not private, its
    biography contains (letter case ignored, as a substring) a keyword of the
    union of the include lists, and contains no exclude keyword.  In
    particular the biography "DM for coaching" with include lists
    [{english: ["coach"], arabic: []}] and exclude lists
    [{english: [], arabic: []}] passes, and the biography
    "musician and coach" with exclude lists [{english: ["musician"],
    arabic: []}] fails whatever the include object is. *)
Theorem filterProfile_pass_iff (profile : Profile) (inEn inAr exEn exAr : list string) :
  (pass (filterProfile profile (keyword_lists inEn inAr) (keyword_lists exEn exAr)) = true
   <-> is_private profile = false /\
       bio_mentions profile (inEn ++ inAr) /\
       ~ bio_mentions profile (exEn ++ exAr)) /\
  pass (filterProfile (public_with_bio profile "DM for coaching")
          (keyword_lists ["coach"%string] []) (keyword_lists [] [])) = true /\
  (forall include : KeywordSets,
     pass (filterProfile (public_with_bio profile "musician and coach")
             include (keyword_lists ["musician"%string] [])) = false).
Proof.
  split; [|split].
  - rewrite filterProfile_present.
    pose proof (existsb_includes_iff profile (inEn ++ inAr)) as Hin.
    pose proof (existsb_includes_iff profile (exEn ++ exAr)) as Hex.
    destruct (is_private profile), (existsb _ (inEn ++ inAr)),
      (existsb _ (exEn ++ exAr)); cbn [negb andb];
      intuition congruence.
  - rewrite filterProfile_present. reflexivity.
  - intros include. apply filterProfile_exclude_wins.
    exists "musician"%string. split; [now left|].
    apply includes_true_iff. reflexivity.
Qed.

(** C4 as stated fails on keyword objects that lack a language list.  With
    the include object [{english: ["coach"]}] and the exclude object [{}] of
    the specification's example, reading [concat] of the missing [english]
    list throws and the [catch] branch answers fail; with the exclude object
    [{english: []}] the [undefined] element appended by [concat] throws when
    it is lower-cased: the verdict is fail although the profile is public, an
    include keyword matches and there is no exclude keyword at all. *)
Lemma filterProfile_counterexample :
  let profile := profile_of "coach_dina" "DM for coaching" 2500 in
  filterProfile profile (english_only ["coach"%string]) empty_object
  = {| pass := false;
       reason := "Filter error: Cannot read properties of undefined (reading 'concat')" |} /\
  filterProfile profile (english_only ["coach"%string]) (english_only [])
  = {| pass := false;
       reason := "Filter error: Cannot read properties of undefined (reading 'toLowerCase')" |} /\
  is_private profile = false /\
  bio_mentions profile ["coach"%string] /\
  ~ bio_mentions profile [].
Proof.
  cbv zeta. repeat split.
  - exists "coach"%string. split; [now left|].
    apply includes_true_iff. reflexivity.
  - intros (k & [] & _).
Qed.

(** C6, at the failing input.  A public profile with 5 followers, below
    [FILTER.minFollowers = 100], whose biography has an include keyword and
    no exclude keyword, passes: [filterProfile] reads the follower count and
    never compares it with the floor.  The orchestrator then accepts the
    profile, and [getResults] returns it. *)
Theorem filterProfile_ignores_follower_floor :
  let profile := profile_of "coach_dina" "Fitness coach" 5 in
  (count_or_zero (edge_followed_by profile) < Config.FILTER_minFollowers)%Z /\
  filterProfile profile (keyword_lists ["coach"%string] []) (keyword_lists [] [])
  = {| pass := true; reason := "All checks passed" |} /\
  List.map (fun trainer => (t_username trainer, t_followers trainer))
    (PTFinder.getResults
       (fst (PTFinder.process_users nat small_account_getProfile
               (fun _ => "2024-05-01T10:00:00.000Z"%string) "ahmed + trainer"
               [hit "coach_dina"] (sample_finder, O))))
  = [("coach_dina"%string, 5%Z)].
Proof.
  cbv zeta. split; [reflexivity|]. split; [reflexivity|].
  vm_compute. reflexivity.
Qed.

(** The verdict does not depend on the follower count at all. *)
Lemma filterProfile_followers_irrelevant (name bio : string) (n m : Z)
    (include exclude : KeywordSets) :
  filterProfile (profile_of name bio n) include exclude
  = filterProfile (profile_of name bio m) include exclude.
Proof. reflexivity. Qed.

End FilterFacts.

(** ** Strategy configuration *)

Section StrategyFacts.
Import PTFinder.

(** C8.  For every name corpus [names], [configureKeywordSets] splits it: the
    priority names are exactly the seed names that occur in the corpus (a seed
    name missing from the corpus is dropped, the function always returns),
    the remaining names are exactly the corpus names that are not priority
    names, no name is in both lists, and a name is in the corpus exactly when
    it is in one of the two. *)
Theorem configureKeywordSets_partition (f : PTFinder.t) :
  let f' := configureKeywordSets f in
  names f' = names f /\
  (forall n, n ∈ priorityNames f' <-> n ∈ prioritySeed /\ n ∈ names f) /\
  (forall n, n ∈ remainingNames f' <-> n ∈ names f /\ n ∉ priorityNames f') /\
  (forall n, ~ (n ∈ priorityNames f' /\ n ∈ remainingNames f')) /\
  (forall n, n ∈ names f <-> n ∈ priorityNames f' \/ n ∈ remainingNames f').
Proof.
  cbv zeta. unfold configureKeywordSets. cbn [names priorityNames remainingNames].
  set (prio := filter _ prioritySeed).
  assert (Hprio : forall n, n ∈ prio <-> n ∈ prioritySeed /\ n ∈ names f).
  { intros n. subst prio. rewrite list_elem_of_filter, elem_of_list_to_set. tauto. }
  assert (Hrem : forall n, n ∈ filter (fun n => n ∉ prio) (names f)
                           <-> n ∈ names f /\ n ∉ prio).
  { intros n. rewrite list_elem_of_filter. tauto. }
  split; [reflexivity|]. split; [exact Hprio|]. split; [exact Hrem|]. split.
  - intros n [H1 H2]. apply Hrem in H2. tauto.
  - intros n. rewrite Hrem, Hprio.
    destruct (decide (n ∈ prio)) as [Hin|Hout].
    + apply Hprio in Hin. tauto.
    + rewrite Hprio in Hout. tauto.
Qed.

(** The partition on a small corpus: "ahmed" and "sara" are seed names,
    "karim" is not, and the seed names missing from the corpus disappear. *)
Example configureKeywordSets_small :
  let f := configureKeywordSets
             {| names := ["karim"; "sara"; "ahmed"]%string;
                keywords := keywords constructor;
                allTrainers := [];
                priorityNames := []; remainingNames := [];
                priorityKeywords := []; reducedKeywords := []; broadKeywords := [];
                seenUsernames := ∅ |} in
  priorityNames f = ["ahmed"; "sara"]%string /\
  remainingNames f = ["karim"]%string.
Proof. cbv zeta. split; reflexivity. Qed.

End StrategyFacts.

(** ** The search request *)

Section SearchFacts.
Import JS Utils InstagramAPI Samples.

Variable lag : Q -> Q -> Q.
Variable random_token : nat -> string.
Variable search_endpoint : Request -> Q -> Reply (option (list User)).

Lemma searchRequest_query (api : InstagramAPI.t) (rank_token query : string) :
  lookup_param "query" (params (searchRequest api rank_token query))
  = Some (toLowerCase query).
Proof. reflexivity. Qed.

Lemma searchRequest_case (api : InstagramAPI.t) (rank_token q1 q2 : string) :
  equal_up_to_case q1 q2 ->
  searchRequest api rank_token q1 = searchRequest api rank_token q2.
Proof. unfold equal_up_to_case, searchRequest. now intros ->. Qed.

Lemma searchProfiles_case (api : InstagramAPI.t) (priority q1 q2 : string) (w : World) :
  equal_up_to_case q1 q2 ->
  searchProfiles lag random_token search_endpoint api q1 priority w
  = searchProfiles lag random_token search_endpoint api q2 priority w.
Proof.
  intros H. unfold searchProfiles.
  now rewrite (searchRequest_case api _ q1 q2 H).
Qed.

(** Each of the three variations of an ASCII name gives, with any search
    term, a query equal up to letter case to the one built from the name
    itself. *)
Lemma variation_query_case (name term variation : string) :
  ascii_only name = true ->
  In variation (PTFinderLegacy.generateCaseVariations name) ->
  equal_up_to_case (buildSearchQuery variation term) (buildSearchQuery name term).
Proof.
  unfold equal_up_to_case, PTFinderLegacy.generateCaseVariations.
  intros Hascii [<- | [<- | [<- | []]]].
  - reflexivity.
  - rewrite !toLowerCase_buildSearchQuery. now rewrite toLowerCase_idempotent.
  - rewrite (toUpperCase_ascii name Hascii), !toLowerCase_buildSearchQuery.
    now rewrite toLowerCase_map_upper.
Qed.

(** The hits of a search whose reply has an ok status and a body with a user
    list are that list: the reply consulted is the one to the request built
    from the query, at the time the limiter releases it. *)
Lemma searchProfiles_delivers (api : InstagramAPI.t) (priority query : string)
    (w : World) (status : Z) (users : list User) :
  let request := searchRequest api (random_token (random_draws w)) query in
  let sent :=
    snd (AdaptiveRateLimiter.beforeRequest lag (rateLimiter api) priority (clock w)) in
  outcome (search_endpoint request sent) = Responds status (Ok (Some users)) ->
  ok status = true ->
  fst (fst (searchProfiles lag random_token search_endpoint api query priority w))
  = users.
Proof.
  cbv zeta. unfold searchProfiles. intros Hreply Hok.
  destruct (AdaptiveRateLimiter.beforeRequest lag (rateLimiter api) priority (clock w))
    as [rl start]. cbn [snd] in Hreply. rewrite Hreply.
  assert (E429 : (status =? 429)%Z = false).
  { destruct (status =? 429)%Z eqn:E; [|reflexivity].
    apply Z.eqb_eq in E. subst status. discriminate Hok. }
  rewrite E429, Hok. reflexivity.
Qed.

Lemma searchProfiles_consults (api : InstagramAPI.t) (priority query : string)
    (w : World) (other : Request -> Q -> Reply (option (list User))) :
  let request := searchRequest api (random_token (random_draws w)) query in
  let sent :=
    snd (AdaptiveRateLimiter.beforeRequest lag (rateLimiter api) priority (clock w)) in
  other request sent = search_endpoint request sent ->
  searchProfiles lag random_token other api query priority w
  = searchProfiles lag random_token search_endpoint api query priority w.
Proof.
  cbv zeta. unfold searchProfiles. intros Hsame.
  destruct (AdaptiveRateLimiter.beforeRequest lag (rateLimiter api) priority (clock w))
    as [rl start]. cbn [snd] in Hsame. now rewrite Hsame.
Qed.

(** C10.  [searchProfiles] lower-cases the query before it issues the
    request.  For two queries equal up to letter case: (1) the request is the
    same (for the same random rank token) and (2) its [query] parameter is
    the lower-cased query; (3) that request is the one handed to the service,
    at the time the limiter releases it: an ok reply with a user list gives
    exactly those users as hits, and (4) no other request or time matters;
    (5) the whole call, started from the same limiter, clock and service,
    returns the same hits and leaves the same state for both queries.
    (6) [generateCaseVariations] makes three variations of a name: the name,
    its lower case and its upper case; for a name made of ASCII characters
    each of them sends, with any search term, the query parameter of the
    name itself and returns the same hits. *)
Theorem searchProfiles_ignores_letter_case
    (api : InstagramAPI.t) (priority q1 q2 : string) (w : World) :
  equal_up_to_case q1 q2 ->
  let request := searchRequest api (random_token (random_draws w)) q1 in
  let sent :=
    snd (AdaptiveRateLimiter.beforeRequest lag (rateLimiter api) priority (clock w)) in
  (forall rank_token,
     searchRequest api rank_token q1 = searchRequest api rank_token q2) /\
  (forall rank_token,
     lookup_param "query" (params (searchRequest api rank_token q1))
     = Some (toLowerCase q1)) /\
  (forall status users,
     outcome (search_endpoint request sent) = Responds status (Ok (Some users)) ->
     ok status = true ->
     fst (fst (searchProfiles lag random_token search_endpoint api q1 priority w))
     = users) /\
  (forall other,
     other request sent = search_endpoint request sent ->
     searchProfiles lag random_token other api q1 priority w
     = searchProfiles lag random_token search_endpoint api q1 priority w) /\
  searchProfiles lag random_token search_endpoint api q1 priority w
  = searchProfiles lag random_token search_endpoint api q2 priority w /\
  (forall name term,
     PTFinderLegacy.generateCaseVariations name
     = [name; toLowerCase name; toUpperCase name] /\
     (ascii_only name = true ->
      forall variation rank_token,
        In variation (PTFinderLegacy.generateCaseVariations name) ->
        lookup_param "query"
          (params (searchRequest api rank_token (buildSearchQuery variation term)))
        = Some (toLowerCase (buildSearchQuery name term)) /\
        searchUsers lag random_token search_endpoint api
          (buildSearchQuery variation term) priority w
        = searchUsers lag random_token search_endpoint api
            (buildSearchQuery name term) priority w)).
Proof.
  intros H. cbv zeta. split; [|split; [|split; [|split; [|split]]]].
  - intros tok. now apply searchRequest_case.
  - intros tok. apply searchRequest_query.
  - intros status users. apply searchProfiles_delivers.
  - intros other. apply searchProfiles_consults.
  - now apply searchProfiles_case.
  - intros name term. split; [reflexivity|].
    intros Hascii variation tok Hin.
    pose proof (variation_query_case name term variation Hascii Hin) as Hv. split.
    + rewrite searchRequest_query. now rewrite Hv.
    + unfold searchUsers. now apply searchProfiles_case.
Qed.

(** The claim without the ASCII condition fails: the upper case of the name
    ß is SS, whose lower case is ss, so the UPPERCASE variation of that
    name sends another query than the name itself. *)
Theorem case_variation_counterexample :
  toUpperCase "ß" = "SS"%string /\
  In (toUpperCase "ß") (PTFinderLegacy.generateCaseVariations "ß") /\
  lookup_param "query"
    (params (searchRequest sample_api "k3x9" (buildSearchQuery (toUpperCase "ß") "cairo")))
  = Some "ss cairo"%string /\
  lookup_param "query"
    (params (searchRequest sample_api "k3x9" (buildSearchQuery "ß" "cairo")))
  = Some "ß cairo"%string /\
  searchRequest sample_api "k3x9" (buildSearchQuery (toUpperCase "ß") "cairo")
  <> searchRequest sample_api "k3x9" (buildSearchQuery "ß" "cairo").
Proof.
  split; [reflexivity|]. split; [right; right; left; reflexivity|].
  split; [vm_compute; reflexivity|]. split; [vm_compute; reflexivity|].
  intros E.
  assert (Eq : lookup_param "query"
                 (params (searchRequest sample_api "k3x9"
                            (buildSearchQuery (toUpperCase "ß") "cairo")))
               = lookup_param "query"
                   (params (searchRequest sample_api "k3x9"
                              (buildSearchQuery "ß" "cairo"))))
    by now rewrite E.
  vm_compute in Eq. discriminate Eq.
Qed.

End SearchFacts.

Lemma searchProfiles_ignores_letter_case_witness :
  InstagramAPI.searchProfiles Samples.punctual Samples.sample_token
    Samples.sample_search_endpoint Samples.sample_api "Ahmed Cairo" "medium"
    Samples.sample_world
  = InstagramAPI.searchProfiles Samples.punctual Samples.sample_token
      Samples.sample_search_endpoint Samples.sample_api "AHMED cairo" "medium"
      Samples.sample_world /\
  InstagramAPI.lookup_param "query"
    (InstagramAPI.params
       (InstagramAPI.searchRequest Samples.sample_api "k3x9"
          (Utils.buildSearchQuery "AHMED" "Cairo")))
  = Some (JS.toLowerCase (Utils.buildSearchQuery "Ahmed" "Cairo")).
Proof.
  destruct (searchProfiles_ignores_letter_case Samples.punctual Samples.sample_token
              Samples.sample_search_endpoint Samples.sample_api "medium"
              "Ahmed Cairo" "AHMED cairo" Samples.sample_world eq_refl)
    as (_ & _ & _ & _ & Hsame & Hvariations).
  split; [exact Hsame|].
  destruct (Hvariations "Ahmed"%string "Cairo"%string) as [_ Hascii].
  apply (Hascii eq_refl "AHMED"%string "k3x9"%string).
  right. right. left. reflexivity.
Defined.

(** ** Deduplication *)

Section DedupFacts.
Import JS Utils.

Lemma keys_of_nil : keys_of [] = ∅.
Proof. reflexivity. Qed.

Lemma keys_of_cons (t : Trainer) (l : list Trainer) :
  keys_of (t :: l) = {[dedupKey t]} ∪ keys_of l.
Proof. reflexivity. Qed.

Lemma elem_of_keys_of (k : string) (l : list Trainer) :
  k ∈ keys_of l <-> exists t, t ∈ l /\ dedupKey t = k.
Proof.
  unfold keys_of. rewrite elem_of_list_to_set, list_elem_of_fmap.
  split; intros (t & H1 & H2); exists t; auto.
Qed.

Lemma dedup_loop_app (l1 l2 : list Trainer) : forall seen unique,
  dedup_loop seen unique (l1 ++ l2)
  = dedup_loop (seen ∪ keys_of l1) (dedup_loop seen unique l1) l2.
Proof.
  induction l1 as [|t l1 IH]; intros seen unique.
  - cbn [app dedup_loop]. rewrite keys_of_nil.
    now replace (seen ∪ ∅) with seen by set_solver.
  - cbn [app dedup_loop]. rewrite keys_of_cons. case_decide as Hin.
    + rewrite IH. f_equal. set_solver.
    + rewrite IH. f_equal. set_solver.
Qed.

Lemma dedup_loop_all_seen (l : list Trainer) : forall seen unique,
  (forall t, t ∈ l -> dedupKey t ∈ seen) ->
  dedup_loop seen unique l = unique.
Proof.
  induction l as [|t l IH]; intros seen unique H; cbn [dedup_loop]; [reflexivity|].
  case_decide as Hin.
  - apply IH. intros t' Ht'. apply H. now right.
  - exfalso. apply Hin, H. now left.
Qed.

Lemma dedup_loop_NoDup (l : list Trainer) : forall seen unique,
  NoDup (dedupKey <$> unique) ->
  (forall t, t ∈ unique -> dedupKey t ∈ seen) ->
  NoDup (dedupKey <$> dedup_loop seen unique l).
Proof.
  induction l as [|t l IH]; intros seen unique Hnd Hcov; cbn [dedup_loop]; [exact Hnd|].
  case_decide as Hin.
  - now apply IH.
  - apply IH.
    + rewrite fmap_app. apply NoDup_app. split; [exact Hnd|]. split.
      * intros k Hk Hk'. cbn in Hk'. apply list_elem_of_singleton in Hk'. subst k.
        apply list_elem_of_fmap in Hk as (t' & E & Ht').
        apply Hin. rewrite E. now apply Hcov.
      * cbn. apply NoDup_singleton.
    + intros t' Ht'. apply elem_of_app in Ht' as [Ht'|Ht'].
      * apply elem_of_union_r. now apply Hcov.
      * apply list_elem_of_singleton in Ht'. subst t'. set_solver.
Qed.

Lemma deduplicateTrainers_NoDup (l : list Trainer) :
  NoDup (dedupKey <$> deduplicateTrainers l).
Proof.
  unfold deduplicateTrainers. apply dedup_loop_NoDup.
  - constructor.
  - intros t Ht. inversion Ht.
Qed.

(** Records whose keys all occur earlier in the list change nothing. *)
Lemma deduplicateTrainers_app_known (l extra : list Trainer) :
  (forall t, t ∈ extra -> dedupKey t ∈ keys_of l) ->
  deduplicateTrainers (l ++ extra) = deduplicateTrainers l.
Proof.
  intros H. unfold deduplicateTrainers. rewrite dedup_loop_app.
  apply dedup_loop_all_seen. intros t Ht. apply elem_of_union_r. now apply H.
Qed.

End DedupFacts.

(** ** The priority-based orchestrator *)

Section OrchestratorFacts.
Import JS Utils PTFinder.

Variable Env : Type.
Variable getProfile : string -> Env -> option Profile * Env.
Variable timestamp_now : Env -> string.

Local Abbreviation step := (process_user Env getProfile timestamp_now).
Local Abbreviation run := (process_users Env getProfile timestamp_now).
Local Abbreviation key_of_hit user := (toLowerCase (InstagramAPI.u_username user)).

Lemma process_user_iteration ctx f env user :
  iteration Env getProfile timestamp_now ctx f env user (step ctx (f, env) user).
Proof.
  unfold process_user. case_decide as Hseen; [now constructor|].
  destruct (getProfile (InstagramAPI.u_username user) env) as [[profile|] env'] eqn:E.
  - destruct (pass (filterProfile profile _ _)) eqn:Ef; cbn [negb].
    + replace env' with (snd (getProfile (InstagramAPI.u_username user) env))
        by now rewrite E.
      eapply accepted; eauto; rewrite E; reflexivity.
    + replace env' with (snd (getProfile (InstagramAPI.u_username user) env))
        by now rewrite E.
      eapply filtered_out; eauto. now rewrite E.
  - replace env' with (snd (getProfile (InstagramAPI.u_username user) env))
      by now rewrite E.
    apply no_profile; auto. now rewrite E.
Qed.

Lemma process_users_cons ctx user rest st :
  run ctx (user :: rest) st = run ctx rest (step ctx st user).
Proof. reflexivity. Qed.

Lemma extractTrainerInfo_key profile label timestamp trainer :
  extractTrainerInfo profile label timestamp = Some trainer ->
  dedupKey trainer = toLowerCase (or_empty (username profile)).
Proof. intros [= <-]. reflexivity. Qed.

(** *** What one iteration and the whole loop keep *)

Lemma step_frame ctx f env user :
  let f' := fst (step ctx (f, env) user) in
  keywords f' = keywords f /\
  seenUsernames f ⊆ seenUsernames f' /\
  (exists extra, allTrainers f' = allTrainers f ++ extra) /\
  (seen_covers f -> seen_covers f').
Proof.
  cbv zeta. destruct (process_user_iteration ctx f env user); cbn [fst].
  1-3: repeat split; auto; exists []; now rewrite app_nil_r.
  repeat split.
  - cbn. set_solver.
  - now exists [trainer].
  - intros Hcov t Ht. cbn in Ht |- *.
    apply elem_of_app in Ht as [Ht|Ht].
    + apply elem_of_union_r. now apply Hcov.
    + apply list_elem_of_singleton in Ht. subst t. set_solver.
Qed.

Lemma run_frame ctx hits : forall st,
  let f' := fst (run ctx hits st) in
  keywords f' = keywords (fst st) /\
  seenUsernames (fst st) ⊆ seenUsernames f' /\
  (exists extra, allTrainers f' = allTrainers (fst st) ++ extra) /\
  (seen_covers (fst st) -> seen_covers f').
Proof.
  induction hits as [|user rest IH]; intros [f env]; cbv zeta.
  - cbn. repeat split; auto. exists []. now rewrite app_nil_r.
  - rewrite process_users_cons.
    destruct (step_frame ctx f env user) as (Hk & Hs & [e He] & Hc).
    destruct (IH (step ctx (f, env) user)) as (Hk' & Hs' & [e' He'] & Hc').
    cbn [fst] in *. repeat split.
    + congruence.
    + set_solver.
    + exists (e ++ e'). rewrite He', He. now rewrite app_assoc.
    + auto.
Qed.

(** *** A hit whose key is known is skipped *)

Lemma step_seen ctx f env user :
  key_of_hit user ∈ seenUsernames f -> step ctx (f, env) user = (f, env).
Proof. intros H. unfold process_user. now rewrite decide_True. Qed.

(** *** A hit without profile data is skipped *)

Lemma step_no_profile ctx f env user :
  fst (getProfile (InstagramAPI.u_username user) env) = None ->
  fst (step ctx (f, env) user) = f.
Proof.
  intros H. destruct (process_user_iteration ctx f env user); try reflexivity.
  all: congruence.
Qed.

(** *** Running the same hits again *)

Section Deterministic.

Hypothesis getProfile_deterministic :
  forall name env env', fst (getProfile name env) = fst (getProfile name env').

(** The second pass only adds records whose key the first pass has put in
    the list. *)
Lemma second_pass_adds_known_keys hits : forall ctx1 ctx2 A envA B envB,
  keywords A = keywords B ->
  seenUsernames (fst (run ctx1 hits (A, envA))) ⊆ seenUsernames B ->
  exists extra,
    allTrainers (fst (run ctx2 hits (B, envB))) = allTrainers B ++ extra /\
    forall t, t ∈ extra ->
      dedupKey t ∈ keys_of (allTrainers (fst (run ctx1 hits (A, envA)))).
Proof.
  induction hits as [|user rest IH]; intros ctx1 ctx2 A envA B envB Hkw Hsub.
  - exists []. split; [cbn; now rewrite app_nil_r | intros tr Ht; inversion Ht].
  - rewrite !process_users_cons in *.
    destruct (step ctx1 (A, envA) user) as [A' envA'] eqn:EA.
    destruct (step ctx2 (B, envB) user) as [B' envB'] eqn:EB.
    destruct (step_frame ctx1 A envA user) as (HkA & HsA & _ & _).
    destruct (step_frame ctx2 B envB user) as (HkB & HsB & _ & _).
    rewrite EA in HkA, HsA. rewrite EB in HkB, HsB. cbn [fst] in *.
    destruct (IH ctx1 ctx2 A' envA' B' envB') as (extra & Hex & Hkeys).
    { congruence. }
    { set_solver. }
    destruct (run_frame ctx1 rest (A', envA')) as (_ & HsA' & [eA HeA] & _).
    cbn [fst] in *.
    pose proof (process_user_iteration ctx2 B envB user) as HB. rewrite EB in HB.
    inversion HB as [Hseen | Hns Hnone | p Hns Hsome Hf | p tB Hns Hsome Hf Hx]; subst.
    1-3: exists extra; split; auto.
    (* the second pass accepts: so did the first *)
    pose proof (process_user_iteration ctx1 A envA user) as HA. rewrite EA in HA.
    assert (HnsA : key_of_hit user ∉ seenUsernames A) by set_solver.
    rewrite (getProfile_deterministic _ envB envA) in Hsome.
    inversion HA as [Hseen | _ Hnone | p' _ Hsome' Hf' | p' tA _ Hsome' Hf' Hx'];
      subst; try contradiction; try congruence.
    assert (p' = p) by congruence. subst p'.
    exists (tB :: extra). split.
    + rewrite Hex. cbn. now rewrite <- app_assoc.
    + intros tr Ht. apply elem_of_cons in Ht as [-> | Ht]; [|now apply Hkeys].
      rewrite HeA. apply elem_of_keys_of. exists tA. split.
      * cbn. set_solver.
      * rewrite (extractTrainerInfo_key _ _ _ _ Hx),
          (extractTrainerInfo_key _ _ _ _ Hx'). reflexivity.
Qed.

Lemma getResults_second_pass ctx1 ctx2 hits f env :
  getResults (fst (run ctx2 hits (run ctx1 hits (f, env))))
  = getResults (fst (run ctx1 hits (f, env))).
Proof.
  destruct (run ctx1 hits (f, env)) as [B envB] eqn:E.
  destruct (second_pass_adds_known_keys hits ctx1 ctx2 f env B envB)
    as (extra & Hex & Hkeys).
  - destruct (run_frame ctx1 hits (f, env)) as (Hk & _). rewrite E in Hk.
    cbn [fst] in Hk. congruence.
  - rewrite E. reflexivity.
  - unfold getResults. cbn [fst]. rewrite Hex. rewrite E in Hkeys. cbn [fst] in Hkeys.
    now apply deduplicateTrainers_app_known.
Qed.

End Deterministic.

Section Consistent.

(** The profile service answers with the profile of the requested user name
    (up to letter case). *)
Hypothesis getProfile_consistent :
  forall name env profile,
    fst (getProfile name env) = Some profile ->
    toLowerCase (or_empty (username profile)) = toLowerCase name.

Lemma step_unique_keys ctx f env user :
  seen_covers f -> unique_keys f -> unique_keys (fst (step ctx (f, env) user)).
Proof.
  intros Hcov Hnd.
  destruct (process_user_iteration ctx f env user)
    as [ | | | p tr Hns Hsome Hf Hx]; cbn [fst]; auto.
  unfold unique_keys. cbn. rewrite fmap_app. apply NoDup_app.
  split; [exact Hnd|]. split; [|apply NoDup_singleton].
  intros k Hk Hk'. cbn in Hk'. apply list_elem_of_singleton in Hk'. subst k.
  apply list_elem_of_fmap in Hk as (t' & E & Ht').
  apply Hns. rewrite <- (getProfile_consistent _ _ _ Hsome).
  rewrite <- (extractTrainerInfo_key _ _ _ _ Hx), E. now apply Hcov.
Qed.

Lemma run_unique_keys ctx hits : forall st,
  seen_covers (fst st) -> unique_keys (fst st) ->
  unique_keys (fst (run ctx hits st)).
Proof.
  induction hits as [|user rest IH]; intros [f env] Hcov Hnd; [exact Hnd|].
  rewrite process_users_cons.
  destruct (step_frame ctx f env user) as (_ & _ & _ & Hc).
  pose proof (step_unique_keys ctx f env user Hcov Hnd) as Hu.
  destruct (step ctx (f, env) user) as [f' env'] eqn:E. cbn [fst] in *.
  apply IH; cbn [fst]; auto.
Qed.

(** With a deterministic service, the second pass over the same hits leaves
    the finder as it is. *)
Lemma second_pass_identity hits :
  (forall name env env', fst (getProfile name env) = fst (getProfile name env')) ->
  forall ctx1 ctx2 A envA B envB,
  keywords A = keywords B ->
  seenUsernames (fst (run ctx1 hits (A, envA))) ⊆ seenUsernames B ->
  fst (run ctx2 hits (B, envB)) = B.
Proof.
  intros Hdet.
  induction hits as [|user rest IH]; intros ctx1 ctx2 A envA B envB Hkw Hsub;
    [reflexivity|].
  rewrite !process_users_cons in *.
  destruct (step ctx1 (A, envA) user) as [A' envA'] eqn:EA.
  destruct (step_frame ctx1 A envA user) as (HkA & HsA & _ & _).
  rewrite EA in HkA, HsA. cbn [fst] in *.
  destruct (run_frame ctx1 rest (A', envA')) as (_ & HsA' & _ & _).
  cbn [fst] in *.
  assert (HB : fst (step ctx2 (B, envB) user) = B).
  { pose proof (process_user_iteration ctx2 B envB user) as HB.
    destruct (step ctx2 (B, envB) user) as [B' envB'] eqn:EB. cbn [fst].
    inversion HB as [Hseen | Hns Hnone | p Hns Hsome Hf | p tB Hns Hsome Hf Hx];
      subst; try reflexivity.
    exfalso.
    pose proof (process_user_iteration ctx1 A envA user) as HA. rewrite EA in HA.
    assert (HnsA : key_of_hit user ∉ seenUsernames A) by set_solver.
    rewrite (Hdet _ envB envA) in Hsome.
    inversion HA as [Hseen | _ Hnone | p' _ Hsome' Hf' | p' tA _ Hsome' Hf' Hx'];
      subst; try contradiction; try congruence.
    assert (p' = p) by congruence. subst p'.
    apply Hns, Hsub, HsA'.
    pose proof (extractTrainerInfo_key _ _ _ _ Hx') as Ek.
    rewrite (getProfile_consistent _ _ _ Hsome) in Ek.
    unfold dedupKey in Ek. cbn. rewrite Ek. set_solver. }
  destruct (step ctx2 (B, envB) user) as [B' envB'] eqn:EB. cbn [fst] in HB.
  subst B'. apply (IH ctx1 ctx2 A' envA' B envB'); [congruence | exact Hsub].
Qed.

End Consistent.

(** C5.  (1) A hit whose case-folded user name is already in
    [seenUsernames] is skipped: the finder and the environment are left
    untouched, no profile is fetched.  (2) Every accepted record has its key
    in [seenUsernames], and the loop keeps it so: the check happens at
    insertion.  (3) The set returned by [getResults] never holds two records
    with the same case-folded user name.  (4) With a profile service that
    answers the same for the same user name, processing the same hits a
    second time gives the same [getResults] as processing them once.  (5) If
    moreover the service answers with the profile of the requested user name,
    the list [allTrainers] itself never holds two records with the same key,
    and the second pass leaves the finder unchanged. *)
Theorem dedup_idempotent :
  (forall ctx f env user,
     key_of_hit user ∈ seenUsernames f -> step ctx (f, env) user = (f, env)) /\
  (forall ctx hits st,
     seen_covers (fst st) -> seen_covers (fst (run ctx hits st))) /\
  (forall f, NoDup (dedupKey <$> getResults f)) /\
  ((forall name env env', fst (getProfile name env) = fst (getProfile name env')) ->
   forall ctx1 ctx2 hits st,
     getResults (fst (run ctx2 hits (run ctx1 hits st)))
     = getResults (fst (run ctx1 hits st))) /\
  ((forall name env profile,
      fst (getProfile name env) = Some profile ->
      toLowerCase (or_empty (username profile)) = toLowerCase name) ->
   (forall ctx hits st,
      seen_covers (fst st) -> unique_keys (fst st) ->
      unique_keys (fst (run ctx hits st))) /\
   ((forall name env env', fst (getProfile name env) = fst (getProfile name env')) ->
    forall ctx1 ctx2 hits st,
      fst (run ctx2 hits (run ctx1 hits st)) = fst (run ctx1 hits st))).
Proof.
  split; [|split; [|split; [|split]]].
  - intros. now apply step_seen.
  - intros ctx hits st. apply run_frame.
  - intros f. apply deduplicateTrainers_NoDup.
  - intros Hdet ctx1 ctx2 hits [f env]. now apply getResults_second_pass.
  - intros Hcons. split.
    + intros ctx hits st. now apply run_unique_keys.
    + intros Hdet ctx1 ctx2 hits [f env].
      destruct (run ctx1 hits (f, env)) as [B envB] eqn:E. cbn [fst].
      apply (second_pass_identity Hcons hits Hdet ctx1 ctx2 f env B envB).
      * destruct (run_frame ctx1 hits (f, env)) as (Hk & _).
        rewrite E in Hk. cbn [fst] in Hk. congruence.
      * rewrite E. reflexivity.
Qed.

End OrchestratorFacts.

(** ** Fetch failures *)

Section FetchFailureFacts.
Import JS Utils.

Lemma getProfile_delivered lag endpoint (api : InstagramAPI.t) (name : string)
    (w : InstagramAPI.World) :
  fst (fst (InstagramAPI.getProfile lag endpoint api name w))
  = InstagramAPI.delivered
      (InstagramAPI.outcome
         (endpoint (InstagramAPI.profileRequest api name)
            (snd (AdaptiveRateLimiter.beforeRequest lag
                    (InstagramAPI.rateLimiter api) "high" (InstagramAPI.clock w))))).
Proof.
  unfold InstagramAPI.getProfile.
  destruct (AdaptiveRateLimiter.beforeRequest _ _ _ _) as [rl start]. cbn [snd].
  replace (InstagramAPI.profileRequest (InstagramAPI.set_rateLimiter api rl) name)
    with (InstagramAPI.profileRequest api name) by reflexivity.
  destruct (InstagramAPI.outcome _) as [m | status [[user|] | m]]; cbn;
    try reflexivity;
    destruct (status =? 429)%Z; try reflexivity;
    destruct (InstagramAPI.ok status); reflexivity.
Qed.

Variable Env : Type.
Variable getProfile : string -> Env -> option Profile * Env.
Variable timestamp_now : Env -> string.

Lemma legacy_step_no_profile label (g : PTFinderLegacy.t) env user :
  fst (getProfile (InstagramAPI.u_username user) env) = None ->
  PTFinderLegacy.process_user Env getProfile timestamp_now label (g, env) user
  = (g, snd (getProfile (InstagramAPI.u_username user) env)).
Proof.
  intros H. unfold PTFinderLegacy.process_user.
  destruct (getProfile (InstagramAPI.u_username user) env) as [[p|] env'];
    [discriminate H | reflexivity].
Qed.

(** C9.  When the profile fetch for a hit returns no data, both orchestrators
    leave their finder (the accepted records included) as it was and go on
    with the next hit; the result is an ordinary state, nothing is thrown.
    [InstagramAPI.getProfile] itself answers [null] in every failure mode of
    the request (rejection, 429, other non-ok status, unparsable body, body
    without user). *)
Theorem fetch_failure_skips_hit (label : string) (f : PTFinder.t)
    (g : PTFinderLegacy.t) (env : Env) (user : InstagramAPI.User)
    (rest : list InstagramAPI.User) :
  fst (getProfile (InstagramAPI.u_username user) env) = None ->
  (fst (PTFinder.process_user Env getProfile timestamp_now label (f, env) user) = f /\
   exists env',
     PTFinder.process_users Env getProfile timestamp_now label (user :: rest) (f, env)
     = PTFinder.process_users Env getProfile timestamp_now label rest (f, env')) /\
  (fst (PTFinderLegacy.process_user Env getProfile timestamp_now label (g, env) user) = g /\
   exists env',
     PTFinderLegacy.process_users Env getProfile timestamp_now label
       (user :: rest) (g, env)
     = PTFinderLegacy.process_users Env getProfile timestamp_now label rest (g, env')) /\
  (forall lag endpoint api name w,
     InstagramAPI.delivered
       (InstagramAPI.outcome
          (endpoint (InstagramAPI.profileRequest api name)
             (snd (AdaptiveRateLimiter.beforeRequest lag
                     (InstagramAPI.rateLimiter api) "high" (InstagramAPI.clock w)))))
     = None ->
     fst (fst (InstagramAPI.getProfile lag endpoint api name w)) = None).
Proof.
  intros H. split; [|split].
  - pose proof (step_no_profile Env getProfile timestamp_now label f env user H) as Hf.
    split; [exact Hf|].
    rewrite process_users_cons.
    destruct (PTFinder.process_user _ _ _ _ _ _) as [f' env']. cbn [fst] in Hf.
    subst f'. now exists env'.
  - rewrite (legacy_step_no_profile label g env user H). split; [reflexivity|].
    exists (snd (getProfile (InstagramAPI.u_username user) env)).
    unfold PTFinderLegacy.process_users. cbn [fold_left].
    now rewrite (legacy_step_no_profile label g env user H).
  - intros lag endpoint api name w Hnone. now rewrite getProfile_delivered.
Qed.

End FetchFailureFacts.

(** ** The orchestrators on the sample service *)

Section SampleRuns.
Import JS Utils Samples.

Local Abbreviation sample_getProfile :=
  (Session.getProfile punctual sample_profile_endpoint).
Local Abbreviation sample_now := (Session.timestamp_now sample_timestamp).

Lemma sample_getProfile_result (name : string) (env : Session.Env) :
  fst (sample_getProfile name env)
  = InstagramAPI.delivered
      (InstagramAPI.outcome
         (sample_profile_endpoint (InstagramAPI.profileRequest (fst env) name) 0%Q)).
Proof.
  unfold Session.getProfile.
  pose proof (getProfile_delivered punctual sample_profile_endpoint
                (fst env) name (snd env)) as H.
  destruct (InstagramAPI.getProfile _ _ _ _ _) as [[p api] w]. cbn [fst] in *.
  exact H.
Qed.

Lemma sample_getProfile_deterministic (name : string) (env env' : Session.Env) :
  fst (sample_getProfile name env) = fst (sample_getProfile name env').
Proof. now rewrite !sample_getProfile_result. Qed.

(** The sample service answers with the profile of the user name asked for,
    up to letter case. *)
Lemma sample_getProfile_consistent (name : string) (env : Session.Env)
    (profile : Profile) :
  fst (sample_getProfile name env) = Some profile ->
  toLowerCase (or_empty (username profile)) = toLowerCase name.
Proof.
  rewrite sample_getProfile_result. unfold sample_profile_endpoint.
  cbn [InstagramAPI.profileRequest InstagramAPI.params InstagramAPI.lookup_param
       InstagramAPI.outcome].
  change (String.eqb "username" "username") with true. cbv iota. cbn [or_empty].
  destruct (String.eqb_spec name "coach_dina") as [-> | _].
  { cbn. intros [= <-]. reflexivity. }
  destruct (String.eqb_spec name "Omar.Fit") as [-> | _].
  { cbn. intros [= <-]. reflexivity. }
  destruct (String.eqb_spec name "ghost") as [-> | _]; cbn; discriminate.
Qed.

Lemma dedup_idempotent_witness :
  fst (PTFinder.process_users Session.Env sample_getProfile sample_now
         "omar + coach" sample_hits
         (PTFinder.process_users Session.Env sample_getProfile sample_now
            "ahmed + trainer" sample_hits (sample_finder, sample_env)))
  = fst (PTFinder.process_users Session.Env sample_getProfile sample_now
           "ahmed + trainer" sample_hits (sample_finder, sample_env)).
Proof.
  apply (dedup_idempotent Session.Env sample_getProfile sample_now).
  - exact sample_getProfile_consistent.
  - exact sample_getProfile_deterministic.
Defined.

Lemma fetch_failure_skips_hit_witness :
  fst (PTFinder.process_user Session.Env sample_getProfile sample_now
         "ahmed + trainer" (sample_finder, sample_env) (hit "ghost"))
  = sample_finder.
Proof.
  apply (fetch_failure_skips_hit Session.Env sample_getProfile sample_now
           "ahmed + trainer" sample_finder sample_legacy_finder sample_env
           (hit "ghost") [hit "coach_dina"]).
  rewrite sample_getProfile_result. reflexivity.
Defined.

(** [searchAndProcess] on the sample service: one search, two candidates,
    both accepted. *)
Example searchAndProcess_sample :
  let st := PTFinder.searchAndProcess Session.Env
              (Session.searchProfiles punctual sample_token sample_search_endpoint)
              sample_getProfile sample_now
              "ahmed trainer" "high" "ahmed + trainer" (sample_finder, sample_env) in
  List.map (fun trainer => (t_username trainer, t_searchKeyword trainer))
    (PTFinder.allTrainers (fst st))
  = [("coach_dina", "ahmed + trainer"); ("omar.fit", "ahmed + trainer")]%string /\
  InstagramAPI.requestCount (fst (snd st)) = 3%nat.
Proof. vm_compute. split; reflexivity. Qed.

(** Phase 1 of the three-phase finder on one name and two locations: six
    searches (three variations of the name for each location), every one
    answered with the same two hits, so [allTrainers] holds twelve records
    and [getResults] two. *)
Example phase1_sample :
  let st := PTFinderLegacy.phase1SearchNameLocations Session.Env
              (fun query =>
                 Session.searchProfiles punctual sample_token sample_search_endpoint
                   query "medium")
              sample_getProfile sample_now (fun env => env)
              (sample_legacy_finder, sample_env) in
  List.map fst (PTFinderLegacy.phase1_terms sample_legacy_finder)
  = ["Ahmed"; "Ahmed"; "ahmed"; "ahmed"; "AHMED"; "AHMED"]%string /\
  List.length (PTFinderLegacy.allTrainers (fst st)) = 12%nat /\
  List.map t_username (PTFinderLegacy.getResults (fst st))
  = ["coach_dina"; "omar.fit"]%string.
Proof. vm_compute. repeat split; reflexivity. Qed.

(** What the sample run accepts: the two accounts, once each, although
    "coach_dina" is found twice. *)
Example sample_run_accepts :
  List.map t_username
    (PTFinder.allTrainers
       (fst (PTFinder.process_users Session.Env sample_getProfile sample_now
               "ahmed + trainer" sample_hits (sample_finder, sample_env))))
  = ["coach_dina"; "omar.fit"]%string.
Proof. vm_compute. reflexivity. Qed.

(** When the service answers two different user names with the same account,
    the check at insertion (made on the name of the hit) lets both records
    into [allTrainers]; the final pass of [getResults] keeps one. *)
Example renamed_account_is_caught_by_getResults :
  let f := fst (PTFinder.process_users nat redirecting_getProfile
                  (fun _ => "2024-05-01T10:00:00.000Z"%string) "ahmed + trainer"
                  [hit "dina_old"; hit "dina.new"] (sample_finder, O)) in
  List.map dedupKey (PTFinder.allTrainers f) = ["coach_dina"; "coach_dina"]%string /\
  List.map dedupKey (PTFinder.getResults f) = ["coach_dina"]%string.
Proof. vm_compute. split; reflexivity. Qed.

(** Without the condition on the service the claim fails.  The service
    [redirecting_getProfile] answers the same for the same user name, but
    with the account "coach_dina" whatever name is asked for.  The hit
    "dina.new" is then inserted although its identity is already in
    [seenUsernames] and in [allTrainers]; after one pass [allTrainers] holds
    two records with the key "coach_dina", and a second pass over the same
    hits adds two more. *)
Theorem dedup_at_insertion_counterexample :
  let now := fun _ : nat => "2024-05-01T10:00:00.000Z"%string in
  let step := PTFinder.process_user nat redirecting_getProfile now "ahmed + trainer" in
  let run := PTFinder.process_users nat redirecting_getProfile now "ahmed + trainer" in
  let hits := [hit "dina_old"; hit "dina.new"] in
  let first := step (sample_finder, O) (hit "dina_old") in
  let once := run hits (sample_finder, O) in
  let twice := run hits once in
  (forall name calls calls',
     fst (redirecting_getProfile name calls) = fst (redirecting_getProfile name calls')) /\
  List.map dedupKey (PTFinder.allTrainers (fst first)) = ["coach_dina"]%string /\
  "coach_dina"%string ∈ PTFinder.seenUsernames (fst first) /\
  List.map dedupKey (PTFinder.allTrainers (fst (step first (hit "dina.new"))))
  = ["coach_dina"; "coach_dina"]%string /\
  List.map dedupKey (PTFinder.allTrainers (fst once))
  = ["coach_dina"; "coach_dina"]%string /\
  List.length (PTFinder.allTrainers (fst twice)) = 4%nat /\
  fst twice <> fst once.
Proof.
  cbv zeta. split; [reflexivity|]. split; [vm_compute; reflexivity|].
  split; [refine (bool_decide_unpack _ _); vm_compute; exact I|].
  split; [vm_compute; reflexivity|]. split; [vm_compute; reflexivity|].
  split; [vm_compute; reflexivity|].
  intros E. apply (f_equal (fun f => List.length (PTFinder.allTrainers f))) in E.
  vm_compute in E. discriminate E.
Qed.

End SampleRuns.

(* ===================================================================== *)
(** * Part III: further properties of the code                            *)
(* ===================================================================== *)

(** ** The rate limiter, continued *)

Section RateLimiterPacing.
Import AdaptiveRateLimiter Samples.
Local Open Scope Q_scope.

Ltac minmax_cases :=
  repeat match goal with
  | |- context [Qmin ?a ?b] =>
      let H := fresh "Hmin" in
      destruct (Q.min_spec a b) as [[? H] | [? H]];
      generalize dependent (Qmin a b); intros
  | |- context [Qmax ?a ?b] =>
      let H := fresh "Hmax" in
      destruct (Q.max_spec a b) as [[? H] | [? H]];
      generalize dependent (Qmax a b); intros
  | _ : context [Qmin ?a ?b] |- _ =>
      let H := fresh "Hmin" in
      destruct (Q.min_spec a b) as [[? H] | [? H]];
      generalize dependent (Qmin a b); intros
  | _ : context [Qmax ?a ?b] |- _ =>
      let H := fresh "Hmax" in
      destruct (Q.max_spec a b) as [[? H] | [? H]];
      generalize dependent (Qmax a b); intros
  end.

Lemma beforeRequest_frame lag (s : t) (priority : string) (clock : Q) :
  let s' := fst (beforeRequest lag s priority clock) in
  baseDelayMs s' = baseDelayMs s /\ minDelayMs s' = minDelayMs s /\
  maxDelayMs s' = maxDelayMs s /\
  maxRequestsPerMinute s' = maxRequestsPerMinute s /\
  dynamicDelayMs s' = dynamicDelayMs s /\ emptyStreak s' = emptyStreak s /\
  cooldownUntil s' = cooldownUntil s /\ backoffMs s' = backoffMs s /\
  requestTimestamps s' = requestTimestamps s.
Proof. cbn. repeat split. Qed.

Section Lagging.

Variable lag : Q -> Q -> Q.
Hypothesis lag_nonneg : forall clock ms, 0 <= lag clock ms.

(** X1.  [beforeRequest] lets the caller go no earlier than
    [lastRequestTime] plus the dynamic delay and no earlier than
    [lastRequestTime] plus the base delay of the priority label, never
    before the time it was entered, and changes no field of the limiter but
    [lastRequestTime], which becomes the time of resumption. *)
Theorem beforeRequest_enforces_spacing (s : t) (priority : string) (clock : Q) :
  let resumed := snd (beforeRequest lag s priority clock) in
  let s' := fst (beforeRequest lag s priority clock) in
  lastRequestTime s + dynamicDelayMs s <= resumed /\
  lastRequestTime s + baseForPriority s priority <= resumed /\
  clock <= resumed /\
  lastRequestTime s' = resumed /\
  dynamicDelayMs s' = dynamicDelayMs s /\
  cooldownUntil s' = cooldownUntil s /\
  backoffMs s' = backoffMs s /\
  requestTimestamps s' = requestTimestamps s.
Proof.
  cbv zeta. unfold beforeRequest.
  cbn [fst snd set_lastRequestTime lastRequestTime dynamicDelayMs cooldownUntil
       backoffMs requestTimestamps].
  set (target := Qmax (dynamicDelayMs s) (baseForPriority s priority)).
  set (wait := Qmax (target - (clock - lastRequestTime s)) 0).
  set (clock1 := if _ && _ then _ else clock).
  assert (H1 : clock <= clock1).
  { subst clock1.
    destruct (negb (Qeq_bool (cooldownUntil s) 0) && Qltb clock (cooldownUntil s))
      eqn:E; [|lra].
    apply andb_true_iff in E as [_ E]. apply Qltb_lt in E.
    unfold sleep. pose proof (lag_nonneg clock (cooldownUntil s - clock)). lra. }
  assert (Hd : dynamicDelayMs s <= target) by apply Q.le_max_l.
  assert (Hb : baseForPriority s priority <= target) by apply Q.le_max_r.
  assert (Hw : target - (clock - lastRequestTime s) <= wait) by apply Q.le_max_l.
  assert (Hw0 : 0 <= wait) by apply Q.le_max_r.
  assert (H2 : clock1 + wait <= (if Qltb 0 wait then sleep lag wait clock1 else clock1)).
  { destruct (Qltb 0 wait) eqn:E.
    - unfold sleep. pose proof (lag_nonneg clock1 wait). lra.
    - apply Qltb_ge in E. lra. }
  repeat split; lra.
Qed.

End Lagging.

Lemma beforeRequest_enforces_spacing_witness :
  lastRequestTime api_limiter + dynamicDelayMs api_limiter
  <= snd (beforeRequest punctual api_limiter "high" 200).
Proof.
  apply (beforeRequest_enforces_spacing punctual (fun _ _ => Qle_refl 0)
           api_limiter "high" 200).
Defined.

(** X2.  With timers that fire on time, the caller resumes at
    [max clock (lastRequestTime + spacingTarget)] when no cooldown is
    pending; when one is pending, the spacing wait, computed from the clock
    read on entry, is added after the cooldown instead of overlapping with
    it. *)
Theorem beforeRequest_resume_time (s : t) (priority : string) (clock : Q) :
  let resumed := snd (beforeRequest punctual s priority clock) in
  let target := Qmax (dynamicDelayMs s) (baseForPriority s priority) in
  (cooldownUntil s == 0 \/ cooldownUntil s <= clock ->
   resumed == Qmax clock (lastRequestTime s + target)) /\
  (~ cooldownUntil s == 0 -> clock < cooldownUntil s ->
   resumed == cooldownUntil s + Qmax (lastRequestTime s + target - clock) 0).
Proof.
  cbv zeta. unfold beforeRequest, sleep, punctual. cbn [snd].
  set (target := Qmax (dynamicDelayMs s) (baseForPriority s priority)).
  set (wait := Qmax (target - (clock - lastRequestTime s)) 0).
  assert (Hwait : (if Qltb 0 wait then wait else 0) == wait).
  { destruct (Qltb 0 wait) eqn:E; [reflexivity|].
    apply Qltb_ge in E. pose proof (Q.le_max_r (target - (clock - lastRequestTime s)) 0).
    fold wait in H. lra. }
  split.
  - intros Hc.
    assert (E : negb (Qeq_bool (cooldownUntil s) 0) && Qltb clock (cooldownUntil s)
                = false).
    { destruct Hc as [Hc|Hc].
      - apply Qeq_bool_iff in Hc. now rewrite Hc.
      - apply andb_false_iff. right. now apply Qltb_ge. }
    rewrite E.
    destruct (Qltb 0 wait) eqn:Ew.
    + apply Qltb_lt in Ew. subst wait. minmax_cases; lra.
    + apply Qltb_ge in Ew. subst wait. minmax_cases; lra.
  - intros Hnz Hlt.
    assert (E : negb (Qeq_bool (cooldownUntil s) 0) && Qltb clock (cooldownUntil s)
                = true).
    { apply andb_true_iff. split; [|now apply Qltb_lt].
      apply negb_true_iff. destruct (Qeq_bool (cooldownUntil s) 0) eqn:Ez; [|reflexivity].
      apply Qeq_bool_iff in Ez. contradiction. }
    rewrite E.
    destruct (Qltb 0 wait) eqn:Ew.
    + apply Qltb_lt in Ew. subst wait. minmax_cases; lra.
    + apply Qltb_ge in Ew. subst wait. minmax_cases; lra.
Qed.

End RateLimiterPacing.

(** ** The rate limiter: what [afterResponse] keeps *)

Section RateLimiterFeedback.
Import AdaptiveRateLimiter Samples MoreSamples.
Local Open Scope Q_scope.

Ltac minmax_split :=
  repeat match goal with
  | |- context [Qmin ?a ?b] =>
      let H := fresh "Hmin" in
      destruct (Q.min_spec a b) as [[? H] | [? H]];
      generalize dependent (Qmin a b); intros
  | |- context [Qmax ?a ?b] =>
      let H := fresh "Hmax" in
      destruct (Q.max_spec a b) as [[? H] | [? H]];
      generalize dependent (Qmax a b); intros
  | _ : context [Qmin ?a ?b] |- _ =>
      let H := fresh "Hmin" in
      destruct (Q.min_spec a b) as [[? H] | [? H]];
      generalize dependent (Qmin a b); intros
  | _ : context [Qmax ?a ?b] |- _ =>
      let H := fresh "Hmax" in
      destruct (Q.max_spec a b) as [[? H] | [? H]];
      generalize dependent (Qmax a b); intros
  end.

Lemma afterResponse_stamps s now status rc rt :
  requestTimestamps (afterResponse s now status rc rt)
  = List.filter (fun ts => Qltb (now - ts) 60000) (requestTimestamps s ++ [now]).
Proof. unfold afterResponse. destruct (status =? 429)%Z; reflexivity. Qed.

(** X3.  After every [afterResponse], whatever the status, the window
    [requestTimestamps] holds only times less than 60 seconds before [now],
    holds [now] itself, holds nothing that was not there before except [now],
    and has grown by at most one entry. *)
Theorem afterResponse_sliding_window (s : t) (now : Q) (status rc : Z) (rt : Q) :
  let stamps := requestTimestamps (afterResponse s now status rc rt) in
  Forall (fun ts => now - ts < 60000) stamps /\
  In now stamps /\
  (forall ts, In ts stamps -> In ts (requestTimestamps s) \/ ts = now) /\
  (List.length stamps <= S (List.length (requestTimestamps s)))%nat.
Proof.
  cbv zeta. rewrite afterResponse_stamps. repeat split.
  - apply List.Forall_forall. intros ts Hts.
    apply List.filter_In in Hts as [_ Hts]. now apply Qltb_lt.
  - apply List.filter_In. split.
    + apply List.in_or_app. right. now left.
    + apply Qltb_lt. lra.
  - intros ts Hts. apply List.filter_In in Hts as [Hts _].
    apply List.in_app_or in Hts as [Hts | [Hts | []]]; auto.
  - etransitivity; [apply List.filter_length_le|].
    rewrite List.length_app. cbn. lia.
Qed.

(** X4.  Which responses can move [dynamicDelayMs] which way, on a limiter
    whose delay is within its bounds.  A 429 never lowers a non-negative
    delay.  Another response never raises it when the window holds no more
    than [maxRequestsPerMinute] requests and the response took at most
    2000 ms; it never lowers it when the response took at least 800 ms and
    was empty with fewer than two empty responses before it.  Each bound
    composes steps of the form [x + k >= x], [x - k <= x], [x * 1.5 >= x]
    for [x >= 0], [Math.min] and [Math.max] only. *)
Theorem afterResponse_moves_one_way (s : t) (now : Q) (status rc : Z) (rt : Q) :
  within_bounds s ->
  let d := dynamicDelayMs s in
  let s' := afterResponse s now status rc rt in
  let d' := dynamicDelayMs s' in
  let density := inject_Z (Z.of_nat (List.length (requestTimestamps s'))) in
  (status = 429%Z -> 0 <= d -> d <= d') /\
  (status <> 429%Z -> density <= maxRequestsPerMinute s -> rt <= 2000 -> d' <= d) /\
  (status <> 429%Z -> 800 <= rt -> rc = 0%Z -> (emptyStreak s < 2)%nat -> d <= d').
Proof.
  intros [Hmin Hmax]. cbv zeta. rewrite afterResponse_stamps.
  unfold afterResponse. split; [|split].
  - intros -> H0. cbn. minmax_split; lra.
  - intros Hne Hdens Hrt. destruct (Z.eqb_spec status 429); [contradiction|].
    cbn [dynamicDelayMs].
    rewrite (proj2 (Qltb_ge (maxRequestsPerMinute s) _) Hdens).
    rewrite (proj2 (Qltb_ge 2000 rt) Hrt).
    repeat match goal with
           | |- context [if ?b then _ else _] => destruct b
           end; minmax_split; lra.
  - intros Hne Hrt -> Hstreak. destruct (Z.eqb_spec status 429); [contradiction|].
    cbn [dynamicDelayMs].
    rewrite (proj2 (Qltb_ge rt 800) Hrt).
    change (0 =? 0)%Z with true. cbv iota.
    replace (3 <=? S (emptyStreak s))%nat with false
      by (symmetry; apply Nat.leb_gt; lia).
    repeat match goal with
           | |- context [if ?b then _ else _] => destruct b
           end; minmax_split; lra.
Qed.

Lemma afterResponse_moves_one_way_witness :
  dynamicDelayMs (afterResponse api_limiter 1000 200 4 350)
  <= dynamicDelayMs api_limiter.
Proof.
  apply (afterResponse_moves_one_way api_limiter 1000 200 4 350).
  - split; vm_compute; intros H; discriminate H.
  - intros H. discriminate H.
  - vm_compute. intros H. discriminate H.
  - vm_compute. intros H. discriminate H.
Defined.

(** X5.  As long as no response of a sequence has status 429, neither
    [cooldownUntil] nor [backoffMs] changes: on a fresh limiter
    [cooldownUntil] stays 0 and no cooldown is ever waited for. *)
Theorem no_429_no_cooldown (calls : list Call) (s : t) :
  Forall (fun c => call_status c <> 429%Z) calls ->
  Forall (fun s' => cooldownUntil s' = cooldownUntil s /\ backoffMs s' = backoffMs s)
    (trace s calls).
Proof.
  revert s. induction calls as [|c calls IH]; intros s H; cbn; [constructor|].
  inversion H as [|? ? Hc Hrest]; subst.
  destruct (afterResponse_other_status s (call_now c) (call_status c)
              (call_resultsCount c) (call_responseTimeMs c) Hc) as [E1 E2].
  cbn in E1, E2. unfold apply_call. constructor; [now split|].
  specialize (IH (afterResponse s (call_now c) (call_status c)
                    (call_resultsCount c) (call_responseTimeMs c)) Hrest).
  rewrite E1, E2 in IH. exact IH.
Qed.

Lemma no_429_no_cooldown_witness :
  Forall (fun s' => cooldownUntil s' = cooldownUntil api_limiter /\
                    backoffMs s' = backoffMs api_limiter)
    (trace api_limiter quiet_calls).
Proof.
  apply (no_429_no_cooldown quiet_calls api_limiter).
  repeat constructor; intros H; discriminate H.
Defined.

Lemma afterResponse_backoff_step s now status rc rt :
  0 <= backoffMs s -> backoffMs s <= maxDelayMs s * 4 ->
  let s' := afterResponse s now status rc rt in
  backoffMs s <= backoffMs s' /\ backoffMs s' <= maxDelayMs s' * 4.
Proof.
  intros H0 Hcap. cbv zeta. unfold afterResponse.
  destruct (status =? 429)%Z; cbn; [|lra].
  minmax_split; split; lra.
Qed.

(** X6.  Once [backoffMs] is non-negative and within its cap
    [4 * maxDelayMs], it stays within the cap and never decreases, whatever
    responses follow. *)
Theorem backoff_grows_within_cap (calls : list Call) (s : t) :
  0 <= backoffMs s ->
  backoffMs s <= maxDelayMs s * 4 ->
  Forall (fun s' => backoffMs s <= backoffMs s' /\
                    backoffMs s' <= maxDelayMs s * 4) (trace s calls).
Proof.
  revert s. induction calls as [|c calls IH]; intros s H0 Hcap; cbn; [constructor|].
  destruct (afterResponse_backoff_step s (call_now c) (call_status c)
              (call_resultsCount c) (call_responseTimeMs c) H0 Hcap) as [Hle Hcap'].
  destruct (afterResponse_config s (call_now c) (call_status c)
              (call_resultsCount c) (call_responseTimeMs c)) as (_ & _ & Emax & _).
  cbn in Hle, Hcap', Emax. unfold apply_call.
  constructor.
  - split; [exact Hle|]. rewrite Emax in Hcap'. exact Hcap'.
  - assert (H0' : 0 <= backoffMs (afterResponse s (call_now c) (call_status c)
                                    (call_resultsCount c) (call_responseTimeMs c)))
      by lra.
    specialize (IH _ H0' Hcap').
    eapply List.Forall_impl; [|exact IH].
    intros s' [Ha Hb]. rewrite Emax in Hb. split; lra.
Qed.

Lemma backoff_grows_within_cap_witness :
  Forall (fun s' => backoffMs roomy_limiter <= backoffMs s' /\
                    backoffMs s' <= maxDelayMs roomy_limiter * 4)
    (trace roomy_limiter sample_calls).
Proof.
  apply (backoff_grows_within_cap sample_calls roomy_limiter).
  - vm_compute. discriminate.
  - vm_compute. discriminate.
Defined.

End RateLimiterFeedback.

(** ** The CSRF token of the cookie *)

Section CsrfFacts.
Import JS ApiSetup.
Local Open Scope string_scope.

Lemma string_app_assoc (a b c : string) : (a ++ b) ++ c = a ++ b ++ c.
Proof.
  induction a as [|x a IH]; [reflexivity|].
  rewrite !append_cons. now rewrite IH.
Qed.

Lemma string_length_app (a b : string) :
  String.length (a ++ b) = (String.length a + String.length b)%nat.
Proof.
  induction a as [|x a IH]; [reflexivity|].
  rewrite append_cons. cbn. now rewrite IH.
Qed.

Lemma drop_prefix_Some (p s rest : string) :
  drop_prefix p s = Some rest <-> s = p ++ rest.
Proof.
  revert s. induction p as [|a p IH]; intros s; cbn [drop_prefix].
  - rewrite append_empty. split; [now intros [= ->] | now intros ->].
  - rewrite append_cons. destruct s as [|b s].
    + split; discriminate.
    + destruct (Ascii.eqb_spec a b) as [->|Hne].
      * rewrite IH. split; [now intros -> | now intros [= ->]].
      * split; [discriminate | intros [= E _]; congruence].
Qed.

(** A prefix of a concatenation that fits in the first part is a prefix of
    the first part. *)
Lemma drop_prefix_app_fits (p u v rest : string) :
  drop_prefix p (u ++ v) = Some rest ->
  (String.length p <= String.length u)%nat ->
  exists rest', drop_prefix p u = Some rest'.
Proof.
  revert u. induction p as [|a p IH]; intros u H Hlen; cbn [drop_prefix] in *.
  - eauto.
  - destruct u as [|b u]; [cbn in Hlen; lia|].
    rewrite append_cons in H. destruct (Ascii.eqb a b); [|discriminate].
    apply IH; [exact H | cbn in Hlen; lia].
Qed.

Lemma occurs_in_cons (sub s : string) (c : ascii) :
  occurs_in sub s -> occurs_in sub (String c s).
Proof.
  intros (before & after & ->). exists (String c before), after.
  now rewrite append_cons.
Qed.

Lemma take_until_semicolon_clean (s : string) :
  ~ occurs_in ";" (take_until_semicolon s).
Proof.
  induction s as [|c s IH]; cbn [take_until_semicolon].
  - intros ([|] & after & H); discriminate H.
  - destruct (Ascii.eqb_spec c ";") as [->|Hne].
    + intros ([|] & after & H); discriminate H.
    + intros (before & after & H). destruct before as [|b before].
      * rewrite append_empty, append_cons in H. injection H as E _. congruence.
      * rewrite append_cons in H. injection H as _ H. apply IH. now exists before, after.
Qed.

Lemma take_until_semicolon_prefix (s : string) :
  exists rest, s = take_until_semicolon s ++ rest.
Proof.
  induction s as [|c s [rest IH]]; cbn [take_until_semicolon].
  - now exists "".
  - destruct (Ascii.eqb c ";").
    + now exists (String c s).
    + exists rest. rewrite append_cons. now rewrite <- IH.
Qed.

Lemma take_until_semicolon_app (token after : string) :
  ~ occurs_in ";" token ->
  after = "" \/ (exists rest, after = String ";" rest) ->
  take_until_semicolon (token ++ after) = token.
Proof.
  intros Hclean Hafter. induction token as [|c token IH].
  - rewrite append_empty. destruct Hafter as [-> | [rest ->]]; reflexivity.
  - rewrite append_cons. cbn [take_until_semicolon].
    destruct (Ascii.eqb_spec c ";") as [->|Hne].
    + exfalso. apply Hclean. now exists "", token.
    + rewrite IH; [reflexivity|].
      intros H. apply Hclean. now apply occurs_in_cons.
Qed.

Lemma csrftoken_at_sound (s token : string) :
  csrftoken_at s = Some token ->
  token <> "" /\ ~ occurs_in ";" token /\
  exists rest, s = "csrftoken=" ++ token ++ rest.
Proof.
  unfold csrftoken_at.
  destruct (drop_prefix "csrftoken=" s) as [r|] eqn:E; [|discriminate].
  apply drop_prefix_Some in E.
  pose proof (take_until_semicolon_clean r) as Hclean.
  destruct (take_until_semicolon_prefix r) as [rest Hrest].
  destruct (take_until_semicolon r) as [|c tok]; [discriminate|].
  intros [= <-]. split; [discriminate|]. split; [exact Hclean|].
  exists rest. now rewrite <- Hrest.
Qed.

Lemma match_csrftoken_sound (s token : string) :
  match_csrftoken s = Some token ->
  token <> "" /\ ~ occurs_in ";" token /\ occurs_in ("csrftoken=" ++ token) s.
Proof.
  induction s as [|c s IH]; cbn [match_csrftoken].
  - destruct (csrftoken_at "") eqn:E; [|discriminate].
    intros [= ->]. apply csrftoken_at_sound in E as (H1 & H2 & rest & H3).
    repeat split; auto. exists "", rest. now rewrite string_app_assoc.
  - destruct (csrftoken_at (String c s)) eqn:E.
    + intros [= ->]. apply csrftoken_at_sound in E as (H1 & H2 & rest & H3).
      repeat split; auto. exists "", rest. now rewrite string_app_assoc.
    + intros H. destruct (IH H) as (H1 & H2 & H3).
      repeat split; auto. now apply occurs_in_cons.
Qed.

(** X7.  The token that [extractCsrfFromCookie] returns never contains a
    [;]; when it is not empty, [csrftoken=] followed by the token occurs in
    the cookie; and a cookie in which [csrftoken=] does not occur gives the
    empty token. *)
Theorem extractCsrfFromCookie_sound (cookie : string) :
  ~ occurs_in ";" (extractCsrfFromCookie cookie) /\
  (extractCsrfFromCookie cookie <> "" ->
   occurs_in ("csrftoken=" ++ extractCsrfFromCookie cookie) cookie) /\
  (~ occurs_in "csrftoken=" cookie -> extractCsrfFromCookie cookie = "").
Proof.
  unfold extractCsrfFromCookie.
  destruct (match_csrftoken cookie) as [token|] eqn:E.
  - apply match_csrftoken_sound in E as (H1 & H2 & H3).
    repeat split; auto.
    intros Hno. exfalso. apply Hno.
    destruct H3 as (before & after & ->).
    exists before, (token ++ after). now rewrite string_app_assoc.
  - repeat split; auto.
    + intros ([|] & after & H); discriminate H.
    + intros H. now contradiction H.
Qed.

Lemma match_csrftoken_finds (token after : string) : forall before : string,
  token <> "" ->
  ~ occurs_in ";" token ->
  after = "" \/ (exists rest, after = String ";" rest) ->
  ~ occurs_in "csrftoken=" (before ++ "csrftoken") ->
  match_csrftoken (before ++ "csrftoken=" ++ token ++ after) = Some token.
Proof.
  intros before Hne Hclean Hafter.
  induction before as [|c before IH]; intros Hfirst.
  - rewrite append_empty.
    assert (E : csrftoken_at ("csrftoken=" ++ token ++ after) = Some token).
    { unfold csrftoken_at.
      rewrite (proj2 (drop_prefix_Some "csrftoken=" _ (token ++ after)) eq_refl).
      rewrite take_until_semicolon_app by assumption.
      destruct token; [contradiction|reflexivity]. }
    destruct ("csrftoken=" ++ token ++ after); cbn [match_csrftoken]; now rewrite E.
  - rewrite append_cons. cbn [match_csrftoken].
    assert (E : csrftoken_at (String c (before ++ "csrftoken=" ++ token ++ after))
                = None).
    { unfold csrftoken_at.
      destruct (drop_prefix "csrftoken=" _) as [r|] eqn:Er; [|reflexivity].
      exfalso. apply Hfirst.
      replace (String c (before ++ "csrftoken=" ++ token ++ after))
        with ((String c before ++ "csrftoken") ++ ("=" ++ token ++ after)) in Er
        by (now rewrite string_app_assoc, append_cons).
      apply drop_prefix_app_fits in Er as [r' Er'].
      - apply drop_prefix_Some in Er'. exists "", r'. now rewrite append_empty.
      - rewrite string_length_app. cbn. lia. }
    rewrite E. apply IH.
    intros H. apply Hfirst. rewrite append_cons. now apply occurs_in_cons.
Qed.

(** X8.  When the cookie holds [csrftoken=] followed by a non-empty token
    without [;], the token ending at a [;] or at the end of the cookie, and
    [csrftoken=] does not occur earlier, [extractCsrfFromCookie] returns that
    token, and the search request of the API constructed from that cookie
    carries it in the header [X-CSRFToken]. *)
Theorem extractCsrfFromCookie_finds_token
    (before token after userAgent appId rank_token query : string) :
  token <> "" ->
  ~ occurs_in ";" token ->
  after = "" \/ (exists rest, after = String ";" rest) ->
  ~ occurs_in "csrftoken=" (before ++ "csrftoken") ->
  let cookie := before ++ "csrftoken=" ++ token ++ after in
  extractCsrfFromCookie cookie = token /\
  header "X-CSRFToken"
    (InstagramAPI.searchRequest
       (constructor {| COOKIE := Some cookie; USER_AGENT := Some userAgent;
                       X_IG_APP_ID := Some appId |})
       rank_token query)
  = Some token.
Proof.
  intros Hne Hclean Hafter Hfirst cookie.
  assert (E : extractCsrfFromCookie cookie = token).
  { unfold extractCsrfFromCookie, cookie.
    now rewrite match_csrftoken_finds. }
  split; [exact E|].
  unfold header, InstagramAPI.searchRequest, constructor.
  cbn [InstagramAPI.headers InstagramAPI.lookup_param InstagramAPI.csrftoken
       InstagramAPI.cookie InstagramAPI.userAgent InstagramAPI.appId or_empty
       COOKIE].
  fold cookie. now rewrite E.
Qed.

Lemma extractCsrfFromCookie_finds_token_witness :
  extractCsrfFromCookie "sessionid=77; csrftoken=Zq9x; ds_user_id=5" = "Zq9x".
Proof.
  apply (extractCsrfFromCookie_finds_token "sessionid=77; " "Zq9x" "; ds_user_id=5"
           "Mozilla/5.0" "936619743392459" "k3x9" "ahmed trainer").
  - discriminate.
  - intros H. apply includes_true_iff in H. discriminate H.
  - right. now exists " ds_user_id=5".
  - intros H. apply includes_true_iff in H. discriminate H.
Defined.

End CsrfFacts.

(** ** Requests pass through the limiter *)

Section ApiPacing.
Import JS ApiSetup Samples.
Local Open Scope Q_scope.

Variable lag : Q -> Q -> Q.
Hypothesis lag_nonneg : forall clock ms, 0 <= lag clock ms.
Variable random_token : nat -> string.
Variable search_endpoint :
  InstagramAPI.Request -> Q -> InstagramAPI.Reply (option (list InstagramAPI.User)).
Variable profile_endpoint :
  InstagramAPI.Request -> Q -> InstagramAPI.Reply (option Utils.Profile).

Local Abbreviation search :=
  (InstagramAPI.searchProfiles lag random_token search_endpoint).
Local Abbreviation fetch_profile := (InstagramAPI.getProfile lag profile_endpoint).

Lemma send_time_bounds (api : InstagramAPI.t) (priority : string)
    (w : InstagramAPI.World) :
  0 <= InstagramAPI.clock w ->
  let rl := InstagramAPI.rateLimiter api in
  AdaptiveRateLimiter.cooldownUntil rl <= send_time lag api priority w /\
  AdaptiveRateLimiter.lastRequestTime rl + AdaptiveRateLimiter.dynamicDelayMs rl
    <= send_time lag api priority w /\
  InstagramAPI.clock w <= send_time lag api priority w.
Proof.
  intros Hclock rl. unfold send_time. fold rl.
  destruct (beforeRequest_waits_for_cooldown lag lag_nonneg rl priority
              (InstagramAPI.clock w) Hclock) as (H1 & _ & _).
  destruct (beforeRequest_enforces_spacing lag lag_nonneg rl priority
              (InstagramAPI.clock w)) as (H2 & _ & H3 & _).
  auto.
Qed.

Lemma afterResponse_lastRequestTime s now status rc rt :
  AdaptiveRateLimiter.lastRequestTime
    (AdaptiveRateLimiter.afterResponse s now status rc rt)
  = AdaptiveRateLimiter.lastRequestTime s.
Proof. apply (afterResponse_config s now status rc rt). Qed.

Lemma searchProfiles_timing (api : InstagramAPI.t) (query priority : string)
    (w : InstagramAPI.World) :
  let sent := send_time lag api priority w in
  let request :=
    InstagramAPI.searchRequest api (random_token (InstagramAPI.random_draws w)) query in
  let result := search api query priority w in
  AdaptiveRateLimiter.lastRequestTime (InstagramAPI.rateLimiter (snd (fst result)))
  = sent /\
  InstagramAPI.clock (snd result)
  = sent + InstagramAPI.latency (search_endpoint request sent).
Proof.
  cbv zeta. unfold InstagramAPI.searchProfiles, send_time.
  destruct (AdaptiveRateLimiter.beforeRequest lag (InstagramAPI.rateLimiter api)
              priority (InstagramAPI.clock w)) as [rl start] eqn:E.
  assert (Hl : AdaptiveRateLimiter.lastRequestTime rl = start).
  { pose proof (f_equal fst E) as E1. pose proof (f_equal snd E) as E2.
    cbn in E1, E2. subst rl start. reflexivity. }
  cbn [snd].
  destruct (InstagramAPI.outcome _) as [m | status json]; cbn; [auto|].
  destruct (status =? 429)%Z; cbn; [rewrite ?afterResponse_lastRequestTime; auto|].
  destruct (InstagramAPI.ok status); cbn;
    [|rewrite ?afterResponse_lastRequestTime; auto].
  destruct json as [data|m]; cbn; [|auto].
  rewrite ?afterResponse_lastRequestTime; auto.
Qed.

Lemma getProfile_timing (api : InstagramAPI.t) (name : string)
    (w : InstagramAPI.World) :
  let sent := send_time lag api "high" w in
  let result := fetch_profile api name w in
  AdaptiveRateLimiter.lastRequestTime (InstagramAPI.rateLimiter (snd (fst result)))
  = sent /\
  InstagramAPI.clock (snd result)
  = sent + InstagramAPI.latency
             (profile_endpoint (InstagramAPI.profileRequest api name) sent).
Proof.
  cbv zeta. unfold InstagramAPI.getProfile, send_time.
  destruct (AdaptiveRateLimiter.beforeRequest lag (InstagramAPI.rateLimiter api)
              "high" (InstagramAPI.clock w)) as [rl start] eqn:E.
  assert (Hl : AdaptiveRateLimiter.lastRequestTime rl = start).
  { pose proof (f_equal fst E) as E1. pose proof (f_equal snd E) as E2.
    cbn in E1, E2. subst rl start. reflexivity. }
  cbn [snd].
  replace (InstagramAPI.profileRequest (InstagramAPI.set_rateLimiter api rl) name)
    with (InstagramAPI.profileRequest api name) by reflexivity.
  destruct (InstagramAPI.outcome _) as [m | status json]; cbn; [auto|].
  destruct (status =? 429)%Z; cbn; [rewrite ?afterResponse_lastRequestTime; auto|].
  destruct (InstagramAPI.ok status); cbn;
    [|rewrite ?afterResponse_lastRequestTime; auto].
  destruct json as [[user|]|m]; cbn; rewrite ?afterResponse_lastRequestTime; auto.
Qed.

(** X9.  Every search and every profile fetch is sent at the time
    [beforeRequest] releases it: not before the cooldown deadline of the
    limiter, not before [lastRequestTime + dynamicDelayMs], not before the
    call was made.  The service is consulted at that time only (another
    service that answers the same there gives the same call), the limiter
    records that time as [lastRequestTime], and the clock ends at that time
    plus the latency of the reply. *)
Theorem requests_are_paced (api : InstagramAPI.t) (query priority name : string)
    (w : InstagramAPI.World) :
  0 <= InstagramAPI.clock w ->
  let rl := InstagramAPI.rateLimiter api in
  (let sent := send_time lag api priority w in
   let request :=
     InstagramAPI.searchRequest api (random_token (InstagramAPI.random_draws w)) query in
   AdaptiveRateLimiter.cooldownUntil rl <= sent /\
   AdaptiveRateLimiter.lastRequestTime rl + AdaptiveRateLimiter.dynamicDelayMs rl <= sent /\
   InstagramAPI.clock w <= sent /\
   AdaptiveRateLimiter.lastRequestTime
     (InstagramAPI.rateLimiter (snd (fst (search api query priority w)))) = sent /\
   InstagramAPI.clock (snd (search api query priority w))
   = sent + InstagramAPI.latency (search_endpoint request sent) /\
   (forall other,
      other request sent = search_endpoint request sent ->
      InstagramAPI.searchProfiles lag random_token other api query priority w
      = search api query priority w)) /\
  (let sent := send_time lag api "high" w in
   let request := InstagramAPI.profileRequest api name in
   AdaptiveRateLimiter.cooldownUntil rl <= sent /\
   AdaptiveRateLimiter.lastRequestTime rl + AdaptiveRateLimiter.dynamicDelayMs rl <= sent /\
   InstagramAPI.clock w <= sent /\
   AdaptiveRateLimiter.lastRequestTime
     (InstagramAPI.rateLimiter (snd (fst (fetch_profile api name w)))) = sent /\
   InstagramAPI.clock (snd (fetch_profile api name w))
   = sent + InstagramAPI.latency (profile_endpoint request sent) /\
   (forall other,
      other request sent = profile_endpoint request sent ->
      InstagramAPI.getProfile lag other api name w = fetch_profile api name w)).
Proof.
  intros Hclock rl. split.
  - cbv zeta.
    destruct (send_time_bounds api priority w Hclock) as (H1 & H2 & H3).
    destruct (searchProfiles_timing api query priority w) as (H4 & H5).
    repeat split; auto.
    intros other Hsame. unfold InstagramAPI.searchProfiles, send_time in *.
    destruct (AdaptiveRateLimiter.beforeRequest lag (InstagramAPI.rateLimiter api)
                priority (InstagramAPI.clock w)) as [rl' start].
    cbn [snd] in Hsame. now rewrite Hsame.
  - cbv zeta.
    destruct (send_time_bounds api "high" w Hclock) as (H1 & H2 & H3).
    destruct (getProfile_timing api name w) as (H4 & H5).
    repeat split; auto.
    intros other Hsame. unfold InstagramAPI.getProfile, send_time in *.
    destruct (AdaptiveRateLimiter.beforeRequest lag (InstagramAPI.rateLimiter api)
                "high" (InstagramAPI.clock w)) as [rl' start].
    cbn [snd] in Hsame.
    replace (InstagramAPI.profileRequest (InstagramAPI.set_rateLimiter api rl') name)
      with (InstagramAPI.profileRequest api name) by reflexivity.
    now rewrite Hsame.
Qed.

(** X10.  When a search is answered with status 429, it returns no hit and
    counts no request, and whatever request comes next on the resulting API,
    a search of any priority or a profile fetch, at whatever later time it is
    asked for, is sent no earlier than the end of the failed search plus the
    back-off that was in force. *)
Theorem rate_limited_search_holds_next_request
    (api : InstagramAPI.t) (query priority : string) (w : InstagramAPI.World)
    (json : result (option (list InstagramAPI.User))) :
  InstagramAPI.outcome
    (search_endpoint
       (InstagramAPI.searchRequest api (random_token (InstagramAPI.random_draws w)) query)
       (send_time lag api priority w))
  = InstagramAPI.Responds 429 json ->
  let result := search api query priority w in
  let api' := snd (fst result) in
  let finished := InstagramAPI.clock (snd result) in
  fst (fst result) = [] /\
  InstagramAPI.requestCount api' = InstagramAPI.requestCount api /\
  forall (next_priority : string) (w' : InstagramAPI.World),
    0 <= InstagramAPI.clock w' ->
    finished + AdaptiveRateLimiter.backoffMs (InstagramAPI.rateLimiter api)
    <= send_time lag api' next_priority w'.
Proof.
  intros Hout. cbv zeta.
  unfold InstagramAPI.searchProfiles, send_time in *.
  destruct (AdaptiveRateLimiter.beforeRequest lag (InstagramAPI.rateLimiter api)
              priority (InstagramAPI.clock w)) as [rl start] eqn:E.
  cbn [snd] in Hout. rewrite Hout. cbv beta iota.
  change (429 =? 429)%Z with true. cbv iota.
  cbn [fst snd InstagramAPI.set_rateLimiter InstagramAPI.requestCount
       InstagramAPI.rateLimiter InstagramAPI.clock].
  assert (Hb : AdaptiveRateLimiter.backoffMs rl
               = AdaptiveRateLimiter.backoffMs (InstagramAPI.rateLimiter api)).
  { pose proof (f_equal fst E) as E1. cbn in E1. subst rl. reflexivity. }
  split; [reflexivity|]. split; [reflexivity|].
  intros next_priority w' Hclock.
  match goal with
  | |- _ <= snd (AdaptiveRateLimiter.beforeRequest lag ?l _ _) =>
      destruct (beforeRequest_waits_for_cooldown lag lag_nonneg l next_priority
                  (InstagramAPI.clock w') Hclock) as (H1 & _)
  end.
  rewrite (proj1 (afterResponse_429 rl _ _ _)) in H1.
  rewrite Hb in H1. exact H1.
Qed.

(** X11.  [requestCount] counts the requests that delivered data: a profile
    fetch adds one exactly when it returns a profile, a search that returns
    hits adds one, and no call adds more than one. *)
Theorem requestCount_counts_deliveries (api : InstagramAPI.t)
    (query priority name : string) (w : InstagramAPI.World) :
  (let result := fetch_profile api name w in
   InstagramAPI.requestCount (snd (fst result))
   = match fst (fst result) with
     | Some _ => S (InstagramAPI.requestCount api)
     | None => InstagramAPI.requestCount api
     end) /\
  (let result := search api query priority w in
   (fst (fst result) <> [] ->
    InstagramAPI.requestCount (snd (fst result)) = S (InstagramAPI.requestCount api)) /\
   (InstagramAPI.requestCount (snd (fst result)) = InstagramAPI.requestCount api \/
    InstagramAPI.requestCount (snd (fst result)) = S (InstagramAPI.requestCount api))).
Proof.
  split; cbv zeta.
  - unfold InstagramAPI.getProfile.
    destruct (AdaptiveRateLimiter.beforeRequest _ _ _ _) as [rl start].
    destruct (InstagramAPI.outcome _) as [m | status json]; cbn; [reflexivity|].
    destruct (status =? 429)%Z; cbn; [reflexivity|].
    destruct (InstagramAPI.ok status); cbn; [|reflexivity].
    destruct json as [[user|]|m]; reflexivity.
  - unfold InstagramAPI.searchProfiles.
    destruct (AdaptiveRateLimiter.beforeRequest _ _ _ _) as [rl start].
    destruct (InstagramAPI.outcome _) as [m | status json]; cbn; [split; [congruence|auto]|].
    destruct (status =? 429)%Z; cbn; [split; [congruence|auto]|].
    destruct (InstagramAPI.ok status); cbn; [|split; [congruence|auto]].
    destruct json as [data|m]; cbn; split; auto; congruence.
Qed.

End ApiPacing.

Lemma requests_are_paced_witness :
  (AdaptiveRateLimiter.cooldownUntil (InstagramAPI.rateLimiter Samples.sample_api)
   <= ApiSetup.send_time Samples.punctual Samples.sample_api "medium"
        Samples.sample_world)%Q.
Proof.
  apply (requests_are_paced Samples.punctual (fun _ _ => Qle_refl 0%Q)
           Samples.sample_token Samples.sample_search_endpoint
           Samples.sample_profile_endpoint Samples.sample_api
           "ahmed trainer" "medium" "coach_dina" Samples.sample_world).
  vm_compute. intros H. discriminate H.
Defined.

Lemma rate_limited_search_holds_next_request_witness :
  let result :=
    InstagramAPI.searchProfiles Samples.punctual Samples.sample_token
      MoreSamples.throttling_search_endpoint Samples.sample_api "ahmed trainer" "high"
      Samples.sample_world in
  (InstagramAPI.clock (snd result)
   + AdaptiveRateLimiter.backoffMs (InstagramAPI.rateLimiter Samples.sample_api)
   <= ApiSetup.send_time Samples.punctual (snd (fst result)) "high"
        Samples.sample_world)%Q.
Proof.
  cbv zeta.
  apply (rate_limited_search_holds_next_request Samples.punctual
           (fun _ _ => Qle_refl 0%Q) Samples.sample_token
           MoreSamples.throttling_search_endpoint Samples.sample_api
           "ahmed trainer" "high" Samples.sample_world
           (JS.Throw "Unexpected token <") eq_refl).
  vm_compute. intros H. discriminate H.
Defined.

(** ** [deduplicateTrainers], continued *)

Section DedupMore.
Import JS Utils.

Lemma dedup_loop_fresh (l : list Trainer) : forall seen unique,
  NoDup (dedupKey <$> l) ->
  (forall t, t ∈ l -> dedupKey t ∉ seen) ->
  dedup_loop seen unique l = unique ++ l.
Proof.
  induction l as [|t l IH]; intros seen unique Hnd Hfresh; cbn [dedup_loop].
  - now rewrite app_nil_r.
  - rewrite fmap_cons in Hnd. apply NoDup_cons in Hnd as [Hhd Hnd].
    rewrite decide_False by (apply Hfresh; now left).
    rewrite IH; [now rewrite <- app_assoc| exact Hnd |].
    intros t' Ht' Hin. apply elem_of_union in Hin as [Hin|Hin].
    + apply elem_of_singleton in Hin. apply Hhd. rewrite <- Hin.
      now apply list_elem_of_fmap_2.
    + eapply Hfresh; [right; exact Ht' | exact Hin].
Qed.

(** X12.  [deduplicateTrainers] is idempotent, and it returns a list whose
    keys are already distinct unchanged. *)
Theorem deduplicateTrainers_idempotent (trainers : list Trainer) :
  deduplicateTrainers (deduplicateTrainers trainers) = deduplicateTrainers trainers /\
  (NoDup (dedupKey <$> trainers) -> deduplicateTrainers trainers = trainers).
Proof.
  assert (H : forall l, NoDup (dedupKey <$> l) -> deduplicateTrainers l = l).
  { intros l Hnd. unfold deduplicateTrainers.
    rewrite dedup_loop_fresh; [reflexivity | exact Hnd |].
    intros t _ Hin. now apply not_elem_of_empty in Hin. }
  split; [|apply H]. apply H, deduplicateTrainers_NoDup.
Qed.

Lemma dedup_loop_kept (l : list Trainer) : forall seen unique,
  exists kept,
    dedup_loop seen unique l = unique ++ kept /\
    sublist kept l /\
    keys_of kept ∪ seen = keys_of l ∪ seen /\
    (forall t, t ∈ kept ->
       (dedupKey t ∉ seen) /\
       exists before after,
         l = before ++ t :: after /\ (dedupKey t ∉ keys_of before)).
Proof.
  induction l as [|t l IH]; intros seen unique; cbn [dedup_loop].
  - exists []. rewrite app_nil_r. split; [reflexivity|]. split; [constructor|].
    split; [reflexivity|]. intros t Ht. inversion Ht.
  - case_decide as Hin.
    + destruct (IH seen unique) as (kept & E & Hsub & Hkeys & Hfirst).
      exists kept. split; [exact E|]. split; [now apply sublist_cons|].
      split.
      * rewrite keys_of_cons, Hkeys. clear - Hin. set_solver.
      * intros t' Ht'. destruct (Hfirst t' Ht') as (Hns & before & after & El & Hb).
        split; [exact Hns|]. exists (t :: before), after.
        split; [now rewrite El|].
        rewrite keys_of_cons. intros Hk. apply elem_of_union in Hk as [Hk|Hk].
        -- apply elem_of_singleton in Hk. apply Hns. now rewrite Hk.
        -- now apply Hb.
    + destruct (IH ({[dedupKey t]} ∪ seen) (unique ++ [t]))
        as (kept & E & Hsub & Hkeys & Hfirst).
      exists (t :: kept). split; [rewrite E; now rewrite <- app_assoc|].
      split; [now apply sublist_skip|]. split.
      * rewrite !keys_of_cons.
        replace ({[dedupKey t]} ∪ keys_of kept ∪ seen)
          with (keys_of kept ∪ ({[dedupKey t]} ∪ seen)) by (clear; set_solver).
        replace ({[dedupKey t]} ∪ keys_of l ∪ seen)
          with (keys_of l ∪ ({[dedupKey t]} ∪ seen)) by (clear; set_solver).
        exact Hkeys.
      * intros t' Ht'. apply elem_of_cons in Ht' as [-> | Ht'].
        -- split; [exact Hin|]. exists [], l. split; [reflexivity|].
           rewrite keys_of_nil. apply not_elem_of_empty.
        -- destruct (Hfirst t' Ht') as (Hns & before & after & El & Hb).
           split; [intros Hk; apply Hns; now apply elem_of_union_r|].
           exists (t :: before), after. split; [now rewrite El|].
           rewrite keys_of_cons. intros Hk. apply elem_of_union in Hk as [Hk|Hk].
           ++ apply Hns. apply elem_of_union_l. exact Hk.
           ++ now apply Hb.
Qed.

(** X13.  [deduplicateTrainers] only drops records: the result is a
    sub-list of the input in the input's order, it has the same set of keys
    as the input, and each record it keeps is the first record of the input
    with its key. *)
Theorem deduplicateTrainers_keeps_first (trainers : list Trainer) :
  sublist (deduplicateTrainers trainers) trainers /\
  keys_of (deduplicateTrainers trainers) = keys_of trainers /\
  (forall t, t ∈ deduplicateTrainers trainers ->
     exists before after,
       trainers = before ++ t :: after /\ (dedupKey t ∉ keys_of before)).
Proof.
  unfold deduplicateTrainers.
  destruct (dedup_loop_kept trainers ∅ []) as (kept & E & Hsub & Hkeys & Hfirst).
  rewrite E. cbn [app]. split; [exact Hsub|]. split.
  - rewrite !(right_id_L ∅ (∪)) in Hkeys. exact Hkeys.
  - intros t Ht. now destruct (Hfirst t Ht) as (_ & H).
Qed.

End DedupMore.

(** ** The profile filter, continued *)

Section FilterMore.
Import JS Utils UtilsMore Samples.

Lemma some_keyword_in_true (bio : string) (keywords : list (option string)) :
  some_keyword_in bio keywords = Ok true ->
  exists keyword,
    In (Some keyword) keywords /\ includes bio (toLowerCase keyword) = true.
Proof.
  induction keywords as [|[k|] ks IH]; cbn [some_keyword_in]; try discriminate.
  destruct (includes bio (toLowerCase k)) eqn:E.
  - intros _. exists k. split; [now left | exact E].
  - intros H. destruct (IH H) as (k' & Hin & Hk'). exists k'. split; [now right|auto].
Qed.

Lemma some_keyword_in_false (bio : string) (keywords : list (option string)) :
  some_keyword_in bio keywords = Ok false ->
  exists present,
    keywords = List.map Some present /\
    forall keyword, In keyword present -> includes bio (toLowerCase keyword) = false.
Proof.
  induction keywords as [|[k|] ks IH]; cbn [some_keyword_in]; try discriminate.
  - intros _. exists []. split; [reflexivity | intros k []].
  - destruct (includes bio (toLowerCase k)) eqn:E; [discriminate|].
    intros H. destruct (IH H) as (present & -> & Hnone).
    exists (k :: present). split; [reflexivity|].
    intros k' [<- | Hin]; auto.
Qed.

Lemma map_Some_inj (a b : list string) : List.map Some a = List.map Some b -> a = b.
Proof.
  revert b. induction a as [|x a IH]; intros [|y b]; cbn; try discriminate; auto.
  intros [= -> H]. f_equal. now apply IH.
Qed.

Lemma map_Some_app_None (en present : list string) :
  List.map Some en ++ [None] <> List.map Some present.
Proof.
  revert present. induction en as [|x en IH]; intros [|y present]; cbn;
    try discriminate.
  intros [= _ H]. now apply IH in H.
Qed.

Lemma filterProfile_try_pass (profile : Profile) (include exclude : KeywordSets)
    (verdict : FilterVerdict) :
  filterProfile_try profile include exclude = Ok verdict ->
  pass verdict = true ->
  is_private profile = false /\
  (exists inEn,
     english include = Some inEn /\
     bio_mentions profile (inEn ++ or_nil (arabic include))) /\
  (exists exEn exAr,
     exclude = {| english := Some exEn; arabic := Some exAr |} /\
     ~ bio_mentions profile (exEn ++ exAr)) /\
  reason verdict = "All checks passed"%string.
Proof.
  unfold filterProfile_try.
  destruct (is_private profile); [intros [= <-]; discriminate|].
  set (bio := toLowerCase (or_empty (biography profile))).
  destruct include as [[inEn|] inAr]; cbn [concat_languages english arabic bind];
    [|discriminate].
  destruct (some_keyword_in bio (List.map Some inEn ++ _)) as [[|]|m] eqn:Ein;
    cbn [bind negb]; [ | intros [= <-]; discriminate | discriminate].
  destruct exclude as [[exEn|] exAr]; cbn [concat_languages english arabic bind];
    [|discriminate].
  destruct (some_keyword_in bio (List.map Some exEn ++ _)) as [[|]|m] eqn:Eex;
    cbn [bind]; [intros [= <-]; discriminate | | discriminate].
  intros [= <-] _. split; [reflexivity|]. split; [|split; [|reflexivity]].
  - exists inEn. split; [reflexivity|].
    apply some_keyword_in_true in Ein as (k & Hin & Hk).
    exists k. split; [|now apply includes_true_iff].
    apply List.in_app_or in Hin as [Hin|Hin].
    + apply List.in_or_app. left. apply List.in_map_iff in Hin as (k' & [= ->] & Hin).
      exact Hin.
    + apply List.in_or_app. right. destruct inAr as [ar|]; cbn in *.
      * apply List.in_map_iff in Hin as (k' & [= ->] & Hin). exact Hin.
      * destruct Hin as [Hin|[]]. discriminate Hin.
  - apply some_keyword_in_false in Eex as (present & Epresent & Hnone).
    destruct exAr as [exAr|].
    + exists exEn, exAr. split; [reflexivity|].
      rewrite <- List.map_app in Epresent. apply map_Some_inj in Epresent.
      subst present. intros (k & Hin & Hk).
      apply includes_true_iff in Hk. fold bio in Hk.
      rewrite (Hnone k Hin) in Hk. discriminate Hk.
    + exfalso. exact (map_Some_app_None _ _ Epresent).
Qed.

(** Whatever the keyword objects, a passing verdict has gone through every
    check. *)
Lemma filterProfile_pass_inv (profile : Profile) (include exclude : KeywordSets) :
  pass (filterProfile profile include exclude) = true ->
  is_private profile = false /\
  (exists inEn,
     english include = Some inEn /\
     bio_mentions profile (inEn ++ or_nil (arabic include))) /\
  (exists exEn exAr,
     exclude = {| english := Some exEn; arabic := Some exAr |} /\
     ~ bio_mentions profile (exEn ++ exAr)) /\
  reason (filterProfile profile include exclude) = "All checks passed"%string.
Proof.
  unfold filterProfile.
  destruct (filterProfile_try profile include exclude) as [verdict|m] eqn:E;
    [|discriminate].
  now apply filterProfile_try_pass.
Qed.

(** X14.  Whatever the two keyword objects are, complete or not: a profile
    that passes is public, the include object has its [english] list and the
    biography mentions a keyword of the include lists, the exclude object has
    both lists and the biography mentions none of their keywords, and the
    reason is "All checks passed".  A private profile is always answered with
    "Account is private", before any keyword is looked at. *)
Theorem filterProfile_pass_is_sound (profile : Profile) (include exclude : KeywordSets) :
  (pass (filterProfile profile include exclude) = true ->
   is_private profile = false /\
   (exists inEn,
      english include = Some inEn /\
      bio_mentions profile (inEn ++ or_nil (arabic include))) /\
   (exists exEn exAr,
      exclude = {| english := Some exEn; arabic := Some exAr |} /\
      ~ bio_mentions profile (exEn ++ exAr)) /\
   reason (filterProfile profile include exclude) = "All checks passed"%string) /\
  (is_private profile = true ->
   filterProfile profile include exclude
   = {| pass := false; reason := "Account is private" |}).
Proof.
  split; [apply filterProfile_pass_inv|].
  intros H. unfold filterProfile, filterProfile_try. now rewrite H.
Qed.

Lemma toLowerCase_empty (s : string) : toLowerCase s = ""%string -> s = ""%string.
Proof. destruct s; [reflexivity | discriminate]. Qed.

Lemma occurs_in_empty (sub : string) : occurs_in sub "" -> sub = ""%string.
Proof.
  intros (before & after & H).
  destruct before; [|discriminate H].
  rewrite append_empty in H. destruct sub; [reflexivity | discriminate H].
Qed.

(** X15.  A profile whose biography is missing or empty passes only if one
    of the include keywords is the empty string: with include keywords that
    are all non-empty it is rejected. *)
Theorem filterProfile_needs_biography (profile : Profile) (include exclude : KeywordSets) :
  or_empty (biography profile) = ""%string ->
  (forall keyword,
     In keyword (or_nil (english include) ++ or_nil (arabic include)) ->
     keyword <> ""%string) ->
  pass (filterProfile profile include exclude) = false.
Proof.
  intros Hbio Hne.
  destruct (pass (filterProfile profile include exclude)) eqn:E; [|reflexivity].
  apply filterProfile_pass_inv in E as (_ & (inEn & Een & k & Hin & Hk) & _).
  exfalso. rewrite Een in Hne. cbn [or_nil] in Hne.
  apply (Hne k Hin). rewrite Hbio in Hk. apply occurs_in_empty in Hk.
  now apply toLowerCase_empty.
Qed.

End FilterMore.

Lemma filterProfile_needs_biography_witness :
  Utils.pass
    (Utils.filterProfile MoreSamples.profile_without_bio
       (Samples.keyword_lists ["trainer"; "coach"]%string ["مدرب"]%string)
       (Samples.keyword_lists [] []))
  = false.
Proof.
  apply (filterProfile_needs_biography MoreSamples.profile_without_bio
           (Samples.keyword_lists ["trainer"; "coach"]%string ["مدرب"]%string)
           (Samples.keyword_lists [] []) eq_refl).
  intros keyword [<- | [<- | [<- | []]]]; discriminate.
Defined.

(** ** The CSV export *)

Section CsvFacts.
Import JS Utils Csv.
Local Open Scope string_scope.

Lemma append_nil_r (s : string) : s ++ "" = s.
Proof.
  induction s as [|c s IH]; [reflexivity|]. rewrite append_cons. now rewrite IH.
Qed.

Lemma append_snoc (a : string) (c : ascii) (b : string) :
  (a ++ String c "") ++ b = a ++ String c b.
Proof. now rewrite string_app_assoc, append_cons, append_empty. Qed.

(** Reading an escaped text up to its closing quote gives the text back. *)
Lemma read_fields_escaped (text : string) : forall field rest,
  rest = "" \/ (exists rest', rest = String "," rest') ->
  read_fields (escape_quotes text ++ String quote rest) true field
  = read_fields rest false (field ++ text).
Proof.
  induction text as [|c text IH]; intros field rest Hrest.
  - rewrite append_empty, append_nil_r. cbn [escape_quotes read_fields].
    change (Ascii.eqb quote quote) with true. cbv iota.
    destruct Hrest as [-> | [rest' ->]]; [reflexivity|].
    change (Ascii.eqb "," quote) with false. reflexivity.
  - cbn [escape_quotes]. destruct (Ascii.eqb c quote) eqn:E.
    + apply Ascii.eqb_eq in E. subst c.
      rewrite !append_cons. cbn [read_fields].
      change (Ascii.eqb quote quote) with true. cbv iota.
      rewrite IH by exact Hrest. now rewrite append_snoc.
    + rewrite append_cons. cbn [read_fields]. rewrite E.
      rewrite IH by exact Hrest. now rewrite append_snoc.
Qed.

Lemma read_fields_cell (value : option JSValue) (rest : string) :
  rest = "" \/ (exists rest', rest = String "," rest') ->
  read_fields (cell value ++ rest) false ""
  = read_fields rest false (cell_text value).
Proof.
  intros Hrest. destruct value as [v|]; cbn [cell cell_text].
  - unfold quoted. rewrite append_cons, append_snoc. cbn [read_fields].
    change (Ascii.eqb quote ",") with false.
    change (Ascii.eqb quote quote) with true. cbv iota.
    rewrite read_fields_escaped by exact Hrest. now rewrite append_empty.
  - now rewrite append_empty.
Qed.

Lemma read_record_cells (values : list (option JSValue)) :
  values <> [] ->
  read_record (join "," (List.map cell values)) = List.map cell_text values.
Proof.
  unfold read_record.
  induction values as [|v values IH]; [contradiction|]. intros _.
  destruct values as [|v' values].
  - cbn [List.map join].
    rewrite <- (append_nil_r (cell v)). rewrite read_fields_cell by now left.
    reflexivity.
  - cbn [List.map join] in *.
    change ("," ++ ?x) with (String "," x).
    rewrite read_fields_cell by (right; eauto).
    cbn [read_fields]. change (Ascii.eqb "," ",") with true. cbv iota.
    f_equal. apply IH. discriminate.
Qed.

Lemma escape_quotes_plain (s : string) :
  ~ occurs_in (String quote "") s -> escape_quotes s = s.
Proof.
  induction s as [|c s IH]; intros H; [reflexivity|].
  cbn [escape_quotes]. destruct (Ascii.eqb c quote) eqn:E.
  - apply Ascii.eqb_eq in E. subst c. exfalso. apply H. now exists "", s.
  - rewrite IH; [reflexivity|]. intros Hs. apply H. now apply occurs_in_cons.
Qed.

(** X16.  For a non-empty list of headers, reading back the row that
    [saveCSV] writes for an object gives, header by header, the text of the
    object's values (the empty text for a missing value), so a row always
    has as many fields as there are headers, whatever quotes, commas or line
    breaks the values hold.  The header row reads back as the headers when no
    header holds a quote. *)
Theorem saveCSV_row_reads_back (headers : list string) (item : JSObject) :
  headers <> [] ->
  read_record (row headers item)
  = List.map (fun header => cell_text (item header)) headers /\
  List.length (read_record (row headers item)) = List.length headers /\
  (Forall (fun header => ~ occurs_in (String quote "") header) headers ->
   read_record (headerRow headers) = headers).
Proof.
  intros Hne.
  assert (E : read_record (row headers item)
              = List.map (fun header => cell_text (item header)) headers).
  { unfold row.
    rewrite <- (List.map_map (fun header => item header) cell).
    rewrite read_record_cells.
    - now rewrite List.map_map.
    - destruct headers; [contradiction | discriminate]. }
  split; [exact E|]. split; [rewrite E; apply List.length_map|].
  intros Hplain. unfold headerRow.
  assert (Ecells : List.map quoted headers
                   = List.map cell (List.map (fun h => Some (VString h)) headers)).
  { rewrite List.map_map. apply List.map_ext_in. intros h Hh. cbn [cell to_text].
    rewrite escape_quotes_plain; [reflexivity|].
    rewrite List.Forall_forall in Hplain. now apply Hplain. }
  rewrite Ecells, read_record_cells.
  - rewrite List.map_map. cbn [cell_text to_text]. apply List.map_id.
  - destruct headers; [contradiction | discriminate].
Qed.

Lemma saveCSV_row_reads_back_witness :
  read_record (row export_headers (trainer_object MoreSamples.awkward_trainer))
  = List.map (fun header => cell_text (trainer_object MoreSamples.awkward_trainer header))
      export_headers.
Proof.
  apply (saveCSV_row_reads_back export_headers
           (trainer_object MoreSamples.awkward_trainer)).
  discriminate.
Defined.

End CsvFacts.

(** ** The priority-based orchestrator, continued *)

Section RunFacts.
Import JS Utils UtilsMore PTFinder PTFinderRun.

Variable Env : Type.
Variable searchProfiles : string -> string -> Env -> list InstagramAPI.User * Env.
Variable getProfile : string -> Env -> option Profile * Env.
Variable timestamp_now : Env -> string.
Variable pause_between_phases : Env -> Env.

Local Abbreviation step := (process_user Env getProfile timestamp_now).
Local Abbreviation loop := (process_users Env getProfile timestamp_now).
Local Abbreviation search_and_process :=
  (searchAndProcess Env searchProfiles getProfile timestamp_now).
Lemma same_setup_refl f : same_setup f f.
Proof. repeat split. Qed.

Lemma same_setup_trans f g h : same_setup f g -> same_setup g h -> same_setup f h.
Proof.
  unfold same_setup. intros (A1 & A2 & A3 & A4 & A5 & A6 & A7)
    (B1 & B2 & B3 & B4 & B5 & B6 & B7).
  repeat split; congruence.
Qed.

Lemma keys_of_app (a b : list Trainer) : keys_of (a ++ b) = keys_of a ∪ keys_of b.
Proof.
  unfold keys_of. rewrite fmap_app. apply set_eq. intros x.
  rewrite elem_of_union, !elem_of_list_to_set. apply elem_of_app.
Qed.

Lemma grown_by_refl f : grown_by f f [].
Proof.
  split; [apply same_setup_refl|]. split; [now rewrite app_nil_r|].
  rewrite keys_of_nil. now rewrite (left_id_L ∅ (∪)).
Qed.

Lemma grown_by_trans f g h a b :
  grown_by f g a -> grown_by g h b -> grown_by f h (a ++ b).
Proof.
  intros (S1 & A1 & K1) (S2 & A2 & K2).
  split; [eapply same_setup_trans; eauto|]. split.
  - rewrite A2, A1. now rewrite app_assoc.
  - rewrite K2, K1, keys_of_app.
    rewrite (assoc_L (∪)). f_equal. apply (comm_L (∪)).
Qed.

(** A record built from a profile that passed the filter is acceptable. *)
Lemma accepted_record_acceptable (k : Keywords) profile label timestamp trainer :
  pass (filterProfile profile (bioFilterKeywords k) (excludeKeywords k)) = true ->
  extractTrainerInfo profile label timestamp = Some trainer ->
  t_searchKeyword trainer = label /\ acceptable k trainer.
Proof.
  intros Hpass [= <-]. split; [reflexivity|].
  apply filterProfile_pass_inv in Hpass
    as (Hpub & (inEn & Ein & kw & Hin & Hkw) & (exEn & exAr & Eex & Hno) & _).
  unfold acceptable. cbn [t_isPrivate t_bio]. rewrite Hpub. split; [reflexivity|].
  split.
  - exists kw. rewrite Ein. cbn [or_nil]. split; [exact Hin | exact Hkw].
  - intros kw' Hin' Hocc. rewrite Eex in Hin'. cbn [english arabic or_nil] in Hin'.
    apply Hno. exists kw'. split; [exact Hin' | exact Hocc].
Qed.

Lemma step_grows label f env user :
  exists extra,
    grown_by f (fst (step label (f, env) user)) extra /\
    Forall (fun tr => t_searchKeyword tr = label /\ acceptable (keywords f) tr) extra.
Proof.
  destruct (process_user_iteration Env getProfile timestamp_now label f env user)
    as [ | | | p tr Hns Hsome Hpass Hx]; cbn [fst].
  1-3: exists []; split; [apply grown_by_refl | constructor].
  exists [tr]. split.
  - split; [repeat split|]. split; [reflexivity|].
    rewrite keys_of_cons, keys_of_nil, (right_id_L ∅ (∪)). reflexivity.
  - constructor; [|constructor].
    eapply accepted_record_acceptable; eauto.
Qed.

Lemma loop_grows label hits : forall st,
  exists extra,
    grown_by (fst st) (fst (loop label hits st)) extra /\
    Forall (fun tr => t_searchKeyword tr = label /\
                      acceptable (keywords (fst st)) tr) extra.
Proof.
  induction hits as [|user rest IH]; intros [f env].
  - exists []. split; [apply grown_by_refl | constructor].
  - rewrite process_users_cons.
    destruct (step_grows label f env user) as (e1 & G1 & A1).
    destruct (IH (step label (f, env) user)) as (e2 & G2 & A2).
    exists (e1 ++ e2). cbn [fst] in *. split; [eapply grown_by_trans; eauto|].
    apply Forall_app. split; [exact A1|].
    destruct G1 as ((_ & Hk & _) & _). rewrite Hk in A2. exact A2.
Qed.

(** X17.  [searchAndProcess] only appends: it leaves the names, keyword sets
    and phase lists alone, keeps every record already stored in place, and
    adds the keys of the new records, and nothing else, to [seenUsernames].
    Every record it adds carries the context label of the search, comes from
    a public profile, and has a biography that mentions an include keyword
    and no exclude keyword. *)
Theorem searchAndProcess_only_appends (query priority label : string)
    (st : PTFinder.t * Env) :
  exists extra,
    grown_by (fst st) (fst (search_and_process query priority label st)) extra /\
    Forall (fun tr => t_searchKeyword tr = label /\
                      acceptable (keywords (fst st)) tr) extra.
Proof.
  destruct st as [f env]. unfold searchAndProcess.
  destruct (searchProfiles query priority env) as [users env'].
  apply (loop_grows label users (f, env')).
Qed.

End RunFacts.

(** ** The whole run of the priority-based finder *)

Section RunAllFacts.
Import JS Utils UtilsMore PTFinder PTFinderRun.

Variable Env : Type.
Variable searchProfiles : string -> string -> Env -> list RawHit * Env.
Variable getProfile : string -> Env -> option Profile * Env.
Variable timestamp_now : Env -> string.
Variable pause_between_phases : Env -> Env.

Local Abbreviation run_all :=
  (runAllPhases Env searchProfiles getProfile timestamp_now pause_between_phases).
Local Abbreviation terms_run :=
  (run_terms Env searchProfiles getProfile timestamp_now).
Local Abbreviation hit_step := (process_hit Env getProfile timestamp_now).
Local Abbreviation search_raw :=
  (searchAndProcess_raw Env searchProfiles getProfile timestamp_now).
Local Abbreviation phases :=
  (three_phases Env searchProfiles getProfile timestamp_now pause_between_phases).

(** What a part of the run, ended in whatever way, has added to the finder
    [f]: records that satisfy [P] and the filter of [f]. *)
Local Abbreviation grows P f c :=
  (exists extra,
     grown_by f (fst (state_of c)) extra /\
     Forall (fun tr => P tr /\ acceptable (keywords f) tr) extra).

Lemma terms_same_setup f f' :
  same_setup f f' ->
  priority_terms f' = priority_terms f /\ remaining_terms f' = remaining_terms f /\
  broad_terms f' = broad_terms f.
Proof.
  intros (_ & _ & E1 & E2 & E3 & E4 & E5).
  unfold priority_terms, remaining_terms, broad_terms.
  now rewrite E1, E2, E3, E4, E5.
Qed.

Lemma grows_nothing (P : Trainer -> Prop) (c : Completion Env) :
  grows P (fst (state_of c)) c.
Proof. exists []. split; [apply grown_by_refl | constructor]. Qed.

Lemma grows_weaken (P Q : Trainer -> Prop) f (c : Completion Env) :
  (forall tr, P tr -> Q tr) -> grows P f c -> grows Q f c.
Proof.
  intros HPQ (extra & G & A). exists extra. split; [exact G|].
  eapply List.Forall_impl; [|exact A]. intros tr [H1 H2]. auto.
Qed.

Lemma grows_and_then (P : Trainer -> Prop) f (c : Completion Env)
    (next : PTFinder.t * Env -> Completion Env) :
  grows P f c ->
  (forall st, same_setup f (fst st) -> grows P (fst st) (next st)) ->
  grows P f (and_then c next).
Proof.
  intros (e1 & G1 & A1) Hnext. destruct c as [st|st]; cbn [and_then state_of] in *.
  - destruct (Hnext st (proj1 G1)) as (e2 & G2 & A2).
    exists (e1 ++ e2). split; [eapply grown_by_trans; eauto|].
    apply Forall_app. split; [exact A1|].
    destruct G1 as ((_ & Hk & _) & _). rewrite Hk in A2. exact A2.
  - exists e1. split; [exact G1 | exact A1].
Qed.

Lemma grows_fold {A : Type} (P : Trainer -> Prop) f
    (body : A -> PTFinder.t * Env -> Completion Env) (items : list A) :
  (forall item st, In item items -> same_setup f (fst st) ->
     grows P (fst st) (body item st)) ->
  forall c, grows P f c ->
  grows P f (List.fold_left (fun c item => and_then c (body item)) items c).
Proof.
  induction items as [|item items IH]; intros Hbody c Hc; cbn [List.fold_left];
    [exact Hc|].
  apply IH.
  - intros item' st Hin. apply Hbody. now right.
  - apply grows_and_then; [exact Hc|]. intros st. apply Hbody. now left.
Qed.

Lemma searchAndProcess_raw_grows (query priority label : string)
    (st : PTFinder.t * Env) :
  grows (fun tr => t_searchKeyword tr = label) (fst st)
    (search_raw query priority label st).
Proof.
  destruct st as [f env]. unfold searchAndProcess_raw.
  destruct (searchProfiles query priority env) as [users env']. cbn [fst].
  apply (grows_fold (fun tr => t_searchKeyword tr = label) f
           (fun hit st =>
              match hit with
              | None => Threw st
              | Some user =>
                  Returned (process_user Env getProfile timestamp_now label st user)
              end) users).
  - intros [user|] [f' env''] _ _; cbn [fst].
    + apply (step_grows Env getProfile timestamp_now label f' env'' user).
    + apply (grows_nothing _ (Threw (f', env''))).
  - apply (grows_nothing _ (Returned (f, env'))).
Qed.

Lemma run_terms_grows (P : Trainer -> Prop) f (terms : list Term) :
  (forall term tr, In term terms -> t_searchKeyword tr = term_label term -> P tr) ->
  forall c, grows P f c -> grows P f (terms_run terms c).
Proof.
  intros HP. unfold run_terms.
  apply (grows_fold P f
           (fun term =>
              search_raw (term_query term) (term_priority term) (term_label term))).
  intros term st Hin _.
  eapply grows_weaken; [|apply searchAndProcess_raw_grows].
  intros tr. now apply HP.
Qed.

Lemma three_phases_grow (f : PTFinder.t) (env : Env) :
  grows (fun tr => exists term, In term (all_terms f) /\
                                t_searchKeyword tr = term_label term)
    f (phases (f, env)).
Proof.
  unfold three_phases, phasePriorityCombos, phaseRemainingCombos, phaseBroadKeywords.
  apply grows_and_then; [apply grows_and_then|]; cbn [fst].
  - apply run_terms_grows; [|apply (grows_nothing _ (Returned (f, env)))].
    intros term tr Hin Hl. exists term. split; [|exact Hl].
    apply List.in_or_app. now left.
  - intros st Hs. destruct (terms_same_setup _ _ Hs) as (E1 & E2 & E3).
    unfold all_terms. rewrite <- E1, <- E2, <- E3. cbn [pause fst].
    apply run_terms_grows;
      [|apply (grows_nothing _ (Returned (pause Env pause_between_phases st)))].
    intros term tr Hin Hl. exists term. split; [|exact Hl].
    apply List.in_or_app. right. apply List.in_or_app. now left.
  - intros st Hs. destruct (terms_same_setup _ _ Hs) as (E1 & E2 & E3).
    unfold all_terms. rewrite <- E1, <- E2, <- E3. cbn [pause fst].
    apply run_terms_grows;
      [|apply (grows_nothing _ (Returned (pause Env pause_between_phases st)))].
    intros term tr Hin Hl. exists term. split; [|exact Hl].
    apply List.in_or_app. right. apply List.in_or_app. now right.
Qed.

(** *** Runs in which every hit has a user name *)

Section Named.

Hypothesis hits_named : forall query priority env,
  Forall (fun hit : RawHit => hit <> None) (fst (searchProfiles query priority env)).

Lemma hits_return label (hits : list RawHit) :
  Forall (fun hit : RawHit => hit <> None) hits ->
  forall st, exists st', List.fold_left (hit_step label) hits (Returned st) = Returned st'.
Proof.
  induction 1 as [|hit hits Hhit _ IH]; intros st; cbn [List.fold_left]; [eauto|].
  destruct hit as [user|]; [|contradiction]. cbn [process_hit and_then]. apply IH.
Qed.

Lemma run_terms_return (terms : list Term) :
  forall st, exists st', terms_run terms (Returned st) = Returned st'.
Proof.
  unfold run_terms. induction terms as [|term terms IH]; intros st;
    cbn [List.fold_left]; [eauto|].
  cbn [run_term and_then]. unfold searchAndProcess_raw. destruct st as [f env].
  pose proof (hits_named (term_query term) (term_priority term) env) as Hn.
  destruct (searchProfiles (term_query term) (term_priority term) env)
    as [users env']. cbn [fst] in Hn.
  destruct (hits_return (term_label term) users Hn (f, env')) as [st' ->].
  apply IH.
Qed.

Lemma three_phases_return (st : PTFinder.t * Env) :
  exists st', phases st = Returned st'.
Proof.
  unfold three_phases, phasePriorityCombos, phaseRemainingCombos, phaseBroadKeywords.
  destruct (run_terms_return (priority_terms (fst st)) st) as [st1 ->].
  cbn [and_then].
  destruct (run_terms_return
              (remaining_terms (fst (pause Env pause_between_phases st1)))
              (pause Env pause_between_phases st1)) as [st2 ->].
  cbn [and_then].
  apply run_terms_return.
Qed.

End Named.

(** *** Runs in which every search starts with a hit without user name *)

Section Nameless.

Hypothesis first_hit_nameless : forall query priority env,
  exists rest, fst (searchProfiles query priority env) = None :: rest.

Lemma hits_threw label (hits : list RawHit) (st : PTFinder.t * Env) :
  List.fold_left (hit_step label) hits (Threw st) = Threw st.
Proof. induction hits as [|hit hits IH]; [reflexivity | exact IH]. Qed.

Lemma run_terms_threw (terms : list Term) (st : PTFinder.t * Env) :
  terms_run terms (Threw st) = Threw st.
Proof. induction terms as [|term terms IH]; [reflexivity | exact IH]. Qed.

Lemma run_terms_throw (terms : list Term) (st : PTFinder.t * Env) :
  terms_run terms (Returned st) = Returned st /\ terms = [] \/
  exists env', terms_run terms (Returned st) = Threw (fst st, env').
Proof.
  destruct terms as [|term terms]; [left; split; reflexivity|]. right.
  unfold run_terms. cbn [List.fold_left run_term and_then].
  unfold searchAndProcess_raw. destruct st as [f env].
  destruct (first_hit_nameless (term_query term) (term_priority term) env)
    as [rest Hrest].
  destruct (searchProfiles (term_query term) (term_priority term) env)
    as [users env']. cbn [fst] in Hrest. subst users.
  cbn [List.fold_left process_hit and_then]. rewrite hits_threw.
  exists env'. apply run_terms_threw.
Qed.

Lemma three_phases_throw (f : PTFinder.t) (env : Env) :
  broad_terms f <> [] ->
  exists env', phases (f, env) = Threw (f, env').
Proof.
  intros Hbroad.
  unfold three_phases, phasePriorityCombos, phaseRemainingCombos, phaseBroadKeywords.
  cbn [fst].
  destruct (run_terms_throw (priority_terms f) (f, env)) as [[-> _] | [env1 ->]];
    [|eauto].
  cbn [and_then]. unfold pause. cbn [fst snd].
  destruct (run_terms_throw (remaining_terms f) (f, pause_between_phases env))
    as [[-> _] | [env2 ->]]; [|eauto].
  cbn [and_then]. unfold pause. cbn [fst snd].
  destruct (run_terms_throw (broad_terms f)
              (f, pause_between_phases (pause_between_phases env)))
    as [[_ E] | [env3 ->]]; [contradiction | eauto].
Qed.

End Nameless.

(** X18.  [runAllPhases] on a fresh finder.  It returns true only if both
    data files loaded and the names file has both lists.  If a file did not
    load or the names file lacks a list, it returns false, nothing has been
    requested and nothing is stored.  If both loaded in full and no search
    ever delivers a hit without user name, it returns true; if every search
    starts with a hit without user name, the exception at the first search
    makes it return false although both files loaded, with nothing stored.
    However the run ends, [seenUsernames] is exactly the set of keys of
    the stored records, every stored record comes from a public profile whose
    biography mentions an include keyword and no exclude keyword of the
    loaded keyword file, and its [searchKeyword] is the label of one of the
    searches of the three phases. *)
Theorem runAllPhases_from_scratch (namesFile : option NamesFile)
    (keywordsData : option PTFinder.Keywords) (env : Env) :
  let outcome := run_all namesFile keywordsData (PTFinder.constructor, env) in
  let f := fst (snd outcome) in
  let loaded_in_full :=
    exists male female loaded,
      namesFile = Some {| file_maleNames := Some male;
                          file_femaleNames := Some female |} /\
      keywordsData = Some loaded in
  (fst outcome = true -> loaded_in_full) /\
  (~ loaded_in_full ->
   fst outcome = false /\ snd (snd outcome) = env /\ allTrainers f = []) /\
  ((forall query priority env',
      Forall (fun hit : RawHit => hit <> None)
        (fst (searchProfiles query priority env'))) ->
   loaded_in_full -> fst outcome = true) /\
  ((forall query priority env',
      exists rest, fst (searchProfiles query priority env') = None :: rest) ->
   loaded_in_full -> fst outcome = false /\ allTrainers f = []) /\
  seenUsernames f = keys_of (allTrainers f) /\
  (forall loaded, keywordsData = Some loaded ->
     Forall (acceptable loaded) (allTrainers f) /\
     Forall (fun tr => exists term,
                         In term (all_terms f) /\ t_searchKeyword tr = term_label term)
       (allTrainers f)).
Proof.
  cbv zeta. unfold runAllPhases, initialize_files. cbn [fst snd].
  assert (Hempty : forall g : PTFinder.t,
    allTrainers g = [] -> seenUsernames g = ∅ ->
    seenUsernames g = keys_of (allTrainers g) /\
    (forall loaded, keywordsData = Some loaded ->
       Forall (acceptable loaded) (allTrainers g) /\
       Forall (fun tr => exists term,
                           In term (all_terms g) /\
                           t_searchKeyword tr = term_label term) (allTrainers g))).
  { intros g -> ->. split; [reflexivity|]. intros loaded _. split; constructor. }
  destruct namesFile as [[[male|] [female|]]|]; cbn [spread_names file_maleNames
    file_femaleNames].
  2-4: (split; [discriminate|]; split; [auto|];
        split; [intros _ (m & fe & l & E & _); discriminate E|];
        split; [intros _ (m & fe & l & E & _); discriminate E|];
        now apply Hempty).
  2: { split; [discriminate|]. split; [auto|].
       split; [intros _ (m & fe & l & E & _); discriminate E|].
       split; [intros _ (m & fe & l & E & _); discriminate E|].
       now apply Hempty. }
  destruct keywordsData as [loaded|]; cbn [initialize negb fst snd].
  2: { split; [discriminate|]. split; [auto|].
       split; [intros _ (m & fe & l & _ & E); discriminate E|].
       split; [intros _ (m & fe & l & _ & E); discriminate E|].
       now apply Hempty. }
  set (f0 := configureKeywordSets _).
  assert (Hfull : exists male0 female0 loaded0,
            Some {| file_maleNames := Some male; file_femaleNames := Some female |}
            = Some {| file_maleNames := Some male0; file_femaleNames := Some female0 |} /\
            Some loaded = Some loaded0) by eauto.
  assert (E0 : allTrainers f0 = [] /\ seenUsernames f0 = ∅ /\ keywords f0 = loaded)
    by (repeat split).
  destruct E0 as (E1 & E2 & E3).
  destruct (three_phases_grow f0 env) as (extra & (Hs & Ha & Hk) & Hall).
  rewrite E1 in Ha. cbn [app] in Ha. rewrite E2 in Hk.
  rewrite (right_id_L ∅ (∪)) in Hk. rewrite E3 in Hall.
  assert (Hinv : forall final : PTFinder.t * Env,
    same_setup f0 (fst final) -> allTrainers (fst final) = extra ->
    seenUsernames (fst final) = keys_of extra ->
    seenUsernames (fst final) = keys_of (allTrainers (fst final)) /\
    (forall loaded', Some loaded = Some loaded' ->
       Forall (acceptable loaded') (allTrainers (fst final)) /\
       Forall (fun tr => exists term,
                           In term (all_terms (fst final)) /\
                           t_searchKeyword tr = term_label term)
         (allTrainers (fst final)))).
  { intros final Hs' Ha' Hk'. split; [now rewrite Hk', Ha'|].
    intros loaded' [= <-]. rewrite Ha'.
    destruct (terms_same_setup _ _ Hs') as (T1 & T2 & T3).
    unfold all_terms. rewrite T1, T2, T3.
    split; eapply List.Forall_impl; try exact Hall; intros tr [H1 H2]; auto. }
  split; [intros _; exact Hfull|].
  split; [intros Hnot; contradiction|].
  split; [|split].
  - intros Hnamed _. destruct (three_phases_return Hnamed (f0, env)) as [st' ->].
    reflexivity.
  - intros Hnameless _.
    destruct (three_phases_throw Hnameless f0 env) as [env' ->]; [discriminate|].
    split; reflexivity.
  - destruct (phases (f0, env)) as [final|final]; cbn [state_of fst snd] in *;
      now apply Hinv.
Qed.

End RunAllFacts.

(** ** The search plan of the priority-based finder *)

Section PlanFacts.
Import JS Utils PTFinder PTFinderRun.

Lemma combos_length priority names keywords :
  List.length (combos priority names keywords)
  = (List.length names * List.length keywords)%nat.
Proof.
  unfold combos. induction names as [|n names IH]; [reflexivity|].
  cbn [List.flat_map]. rewrite List.length_app, List.length_map, IH.
  cbn [List.length]. lia.
Qed.

Lemma prioritySeed_NoDup : NoDup prioritySeed.
Proof.
  unfold prioritySeed.
  repeat (apply NoDup_cons; split;
          [rewrite ?elem_of_cons, elem_of_nil; intros H;
           repeat (destruct H as [H|H]; [discriminate H|]); exact H|]).
  apply NoDup_nil_2.
Qed.

Lemma priorityNames_spec (f : PTFinder.t) n :
  n ∈ priorityNames (configureKeywordSets f) <-> n ∈ prioritySeed /\ n ∈ names f.
Proof.
  cbn [configureKeywordSets priorityNames].
  rewrite list_elem_of_filter, elem_of_list_to_set. tauto.
Qed.

Lemma remainingNames_spec (f : PTFinder.t) n :
  n ∈ remainingNames (configureKeywordSets f)
  <-> n ∈ names f /\ n ∉ priorityNames (configureKeywordSets f).
Proof.
  cbn [configureKeywordSets remainingNames priorityNames].
  rewrite list_elem_of_filter. tauto.
Qed.

Lemma filter_split_length {A} (P : A -> Prop) `{forall x, Decision (P x)} (l : list A) :
  (List.length (filter P l) + List.length (filter (fun x => ~ P x) l))%nat
  = List.length l.
Proof.
  induction l as [|x l IH]; [reflexivity|].
  rewrite !filter_cons. destruct (decide (P x)) as [Hp|Hp].
  - destruct (decide (~ P x)) as [Hn|_]; [contradiction|]. cbn [List.length]. lia.
  - destruct (decide (~ P x)) as [_|Hn]; [|contradiction]. cbn [List.length]. lia.
Qed.

(** X19.  The number of searches of a whole run is fixed by the name lists:
    five per priority name, three per remaining name and six broad ones.
    There are at most ten priority names, and when the name list has no
    repetition every name is searched in exactly one of the two name
    phases. *)
Theorem search_plan_size (f : PTFinder.t) :
  let f' := configureKeywordSets f in
  List.length (all_terms f')
  = (5 * List.length (priorityNames f') + 3 * List.length (remainingNames f') + 6)%nat /\
  (List.length (priorityNames f') <= 10)%nat /\
  (List.length (remainingNames f') <= List.length (names f))%nat /\
  (NoDup (names f) ->
   (List.length (priorityNames f') + List.length (remainingNames f'))%nat
   = List.length (names f)).
Proof.
  cbv zeta. split; [|split; [|split]].
  - unfold all_terms, priority_terms, remaining_terms, broad_terms.
    rewrite !List.length_app, !combos_length, List.length_map.
    cbn [configureKeywordSets priorityKeywords reducedKeywords broadKeywords
         List.length]. lia.
  - cbn [configureKeywordSets priorityNames].
    etransitivity; [apply length_filter|]. reflexivity.
  - cbn [configureKeywordSets remainingNames]. apply length_filter.
  - intros Hnd.
    set (prio := priorityNames (configureKeywordSets f)).
    assert (Hperm : filter (fun n => n ∈ prio) (names f) ≡ₚ prio).
    { apply NoDup_Permutation.
      - now apply NoDup_filter.
      - subst prio. cbn [configureKeywordSets priorityNames].
        apply NoDup_filter, prioritySeed_NoDup.
      - intros n. rewrite list_elem_of_filter. subst prio.
        rewrite priorityNames_spec. tauto. }
    rewrite <- (filter_split_length (fun n => n ∈ prio) (names f)).
    rewrite (Permutation_length Hperm). reflexivity.
Qed.

(** X20.  [initialize] stores the names in lower case and never touches the
    collected records.  When it reports success, a seed name is a priority
    name exactly when the names file has it in some letter case, the
    priority names keep the order of the seed list, and the remaining names
    are the stored names that are no priority name, in file order. *)
Theorem initialize_prepares_plan (namesData : option NamesData)
    (keywordsData : option PTFinder.Keywords) (f : PTFinder.t) :
  let ready := snd (initialize namesData keywordsData f) in
  allTrainers ready = allTrainers f /\
  seenUsernames ready = seenUsernames f /\
  (fst (initialize namesData keywordsData f) = true ->
   exists data loaded,
     namesData = Some data /\ keywordsData = Some loaded /\
     keywords ready = loaded /\
     names ready = List.map toLowerCase (maleNames data ++ femaleNames data) /\
     (forall n, n ∈ priorityNames ready <->
                n ∈ prioritySeed /\
                exists raw, In raw (maleNames data ++ femaleNames data) /\
                            toLowerCase raw = n) /\
     priorityNames ready `sublist_of` prioritySeed /\
     remainingNames ready `sublist_of` names ready /\
     (forall n, n ∈ remainingNames ready <->
                n ∈ names ready /\ n ∉ priorityNames ready)).
Proof.
  cbv zeta. unfold initialize.
  destruct namesData as [data|]; [|cbn; repeat split; discriminate].
  destruct keywordsData as [loaded|]; [|cbn; repeat split; discriminate].
  cbn [fst snd]. split; [reflexivity|]. split; [reflexivity|]. intros _.
  exists data, loaded. split; [reflexivity|]. split; [reflexivity|].
  split; [reflexivity|]. split; [reflexivity|].
  set (g := set_keywords _ _).
  assert (Hn : names g = List.map toLowerCase (maleNames data ++ femaleNames data))
    by reflexivity.
  split; [|split; [|split]].
  - intros n. rewrite priorityNames_spec, Hn.
    rewrite (list_elem_of_In (List.map _ _)), List.in_map_iff.
    split; intros [Hs Hin]; (split; [exact Hs|]);
      destruct Hin as (raw & H1 & H2); exists raw; tauto.
  - cbn [configureKeywordSets priorityNames]. apply sublist_filter.
  - cbn [configureKeywordSets remainingNames names]. apply sublist_filter.
  - intros n. rewrite remainingNames_spec. reflexivity.
Qed.

End PlanFacts.

(** ** The stand-alone finder: its filter and its duplicate removal *)

Section CompleteFinderFacts.
Import JS CompletePTFinder.

Lemma some_keyword_occurs (text : string) (keywords : list string) :
  existsb (fun keyword => includes text (toLowerCase keyword)) keywords = true
  <-> exists keyword, In keyword keywords /\ occurs_in (toLowerCase keyword) text.
Proof.
  rewrite List.existsb_exists. split; intros (k & Hin & H); exists k;
    (split; [exact Hin|]); now apply includes_true_iff.
Qed.

Lemma no_keyword_occurs (text : string) (keywords : list string) :
  existsb (fun keyword => includes text (toLowerCase keyword)) keywords = false
  <-> forall keyword, In keyword keywords -> ~ occurs_in (toLowerCase keyword) text.
Proof.
  rewrite <- Bool.not_true_iff_false, some_keyword_occurs. split.
  - intros H k Hin Hocc. apply H. eauto.
  - intros H (k & Hin & Hocc). exact (H k Hin Hocc).
Qed.

(** What the filter asks of an entry of the search result. *)
Local Abbreviation wanted this user :=
  ((mustBePublic (filters this) = true -> fu_is_private user = false) /\
   Z.le (minFollowers (filters this)) (fu_followers user) /\
   (exists keyword, In keyword (bioKeywords (filters this)) /\
                    occurs_in (toLowerCase keyword) (toLowerCase (fu_bio user))) /\
   (forall keyword, In keyword (excludeKeywords (filters this)) ->
                    ~ occurs_in (toLowerCase keyword) (toLowerCase (fu_bio user)))).

(** The record copies the entry it is built from. *)
Local Abbreviation copy_of r user searchTerm :=
  (username r = fu_username user /\ full_name r = fu_full_name user /\
   followers r = fu_followers user /\ is_verified r = fu_is_verified user /\
   is_private r = fu_is_private user /\ bio r = fu_bio user /\
   search_term r = searchTerm).

Lemma filter_step_cases (this : t) (searchTerm : string) (clock : nat -> string)
    (i : nat) (trainers : list Found) (user : FoundUser) :
  (~ wanted this user /\
   filter_step this searchTerm clock (i, trainers) user = (S i, trainers)) \/
  (wanted this user /\
   exists r, copy_of r user searchTerm /\ found_at r = clock i /\
     filter_step this searchTerm clock (i, trainers) user = (S i, trainers ++ [r])).
Proof.
  unfold filter_step.
  destruct (mustBePublic (filters this) && fu_is_private user) eqn:Hpriv.
  { left. split; [|reflexivity]. intros (Hp & _).
    apply andb_prop in Hpriv as [H1 H2]. rewrite (Hp H1) in H2. discriminate H2. }
  destruct (fu_followers user <? minFollowers (filters this))%Z eqn:Hfol.
  { left. split; [|reflexivity]. intros (_ & Hm & _).
    apply Z.ltb_lt in Hfol. lia. }
  cbv zeta.
  destruct (existsb _ (bioKeywords (filters this))) eqn:Hbio; cbn [negb].
  2: { left. split; [|reflexivity]. intros (_ & _ & Hk & _).
       apply some_keyword_occurs in Hk. congruence. }
  destruct (existsb _ (excludeKeywords (filters this))) eqn:Hex.
  { left. split; [|reflexivity]. intros (_ & _ & _ & Hn).
    apply no_keyword_occurs in Hn. congruence. }
  right. split.
  - split; [|split; [|split]].
    + intros Hp. rewrite Hp in Hpriv. exact Hpriv.
    + apply Z.ltb_ge in Hfol. exact Hfol.
    + now apply some_keyword_occurs.
    + now apply no_keyword_occurs.
  - eexists. split; [|split; [|reflexivity]]; cbn; auto 10.
Qed.

Lemma filter_loop_spec (this : t) (searchTerm : string) (clock : nat -> string)
    (users : list FoundUser) : forall i trainers,
  exists extra,
    snd (List.fold_left (filter_step this searchTerm clock) users (i, trainers))
    = trainers ++ extra /\
    Forall (fun r => exists user, In user users /\ wanted this user /\
                                  copy_of r user searchTerm) extra /\
    List.map username extra `sublist_of` List.map fu_username users /\
    (forall user, In user users -> wanted this user ->
       exists r, In r extra /\ copy_of r user searchTerm).
Proof.
  induction users as [|user users IH]; intros i trainers; cbn [List.fold_left].
  { exists []. rewrite app_nil_r. split; [reflexivity|]. split; [constructor|].
    split; [constructor|]. intros user []. }
  destruct (filter_step_cases this searchTerm clock i trainers user)
    as [[Hno ->] | [Hyes (r & Hcopy & _ & ->)]].
  - destruct (IH (S i) trainers) as (extra & E & Hall & Hsub & Hcomp).
    exists extra. split; [exact E|]. split; [|split].
    + eapply List.Forall_impl; [|exact Hall].
      intros r (u & Hin & H). exists u. split; [now right | exact H].
    + cbn [List.map]. now apply sublist_cons.
    + intros u [<- | Hin] Hw; [contradiction | now apply Hcomp].
  - destruct (IH (S i) (trainers ++ [r])) as (extra & E & Hall & Hsub & Hcomp).
    exists (r :: extra). split; [|split; [|split]].
    + rewrite E, <- app_assoc. reflexivity.
    + constructor.
      * exists user. split; [now left|]. split; [exact Hyes | exact Hcopy].
      * eapply List.Forall_impl; [|exact Hall].
        intros r' (u & Hin & H). exists u. split; [now right | exact H].
    + cbn [List.map]. rewrite (proj1 Hcopy). now apply sublist_skip.
    + intros u [<- | Hin] Hw.
      * exists r. split; [now left | exact Hcopy].
      * destruct (Hcomp u Hin Hw) as (r' & Hin' & H'). exists r'.
        split; [now right | exact H'].
Qed.

(** X21.  [filterPotentialTrainers] returns, in the order of the search
    result, exactly the entries that are public (when [mustBePublic] is
    set), have at least [minFollowers] followers, and whose biography
    mentions a fitness keyword and no exclude keyword, letter case ignored;
    each record copies its entry and carries the search term. *)
Theorem filterPotentialTrainers_exact (this : t) (users : list FoundUser)
    (searchTerm : string) (clock : nat -> string) :
  let trainers := filterPotentialTrainers this users searchTerm clock in
  Forall (fun r => exists user, In user users /\ wanted this user /\
                                copy_of r user searchTerm) trainers /\
  List.map username trainers `sublist_of` List.map fu_username users /\
  (forall user, In user users -> wanted this user ->
     exists r, In r trainers /\ copy_of r user searchTerm).
Proof.
  cbv zeta. unfold filterPotentialTrainers.
  destruct (filter_loop_spec this searchTerm clock users O [])
    as (extra & -> & H). exact H.
Qed.

(** X22.  With the filters of the constructor, no private account and no
    account with fewer than 100 followers is ever returned. *)
Theorem filterPotentialTrainers_follower_floor (users : list FoundUser)
    (searchTerm : string) (clock : nat -> string) :
  Forall (fun r => is_private r = false /\ (100 <= followers r)%Z)
    (filterPotentialTrainers constructor users searchTerm clock).
Proof.
  unfold filterPotentialTrainers.
  destruct (filter_loop_spec constructor searchTerm clock users O [])
    as (extra & -> & Hall & _).
  eapply List.Forall_impl; [|exact Hall].
  intros r (u & _ & (Hp & Hf & _) & (_ & _ & Ef & _ & Ep & _)).
  rewrite Ep, Ef. split; [now apply Hp | exact Hf].
Qed.

Lemma removeDuplicates_loop_spec (l : list Found) : forall seen kept,
  exists extra,
    List.fold_left removeDuplicates_step l (seen, kept)
    = (list_to_set (List.map username extra) ∪ seen, kept ++ extra) /\
    NoDup (List.map username extra) /\
    (forall r, r ∈ extra -> username r ∉ seen) /\
    extra `sublist_of` l /\
    (forall r, r ∈ l -> username r ∈ seen \/
                        exists r', r' ∈ extra /\ username r' = username r).
Proof.
  induction l as [|x l IH]; intros seen kept; cbn [List.fold_left].
  { exists []. cbn. rewrite app_nil_r, (left_id_L ∅ (∪)).
    split; [reflexivity|]. split; [constructor|].
    split; [intros r H; inversion H|]. split; [constructor|].
    intros r H. inversion H. }
  unfold removeDuplicates_step at 2.
  destruct (decide (username x ∈ seen)) as [Hin|Hout].
  - destruct (IH seen kept) as (extra & E & Hnd & Hfresh & Hsub & Hcov).
    exists extra. split; [exact E|]. split; [exact Hnd|]. split; [exact Hfresh|].
    split; [now apply sublist_cons|].
    intros r Hr. apply elem_of_cons in Hr as [-> | Hr]; [now left | now apply Hcov].
  - destruct (IH ({[username x]} ∪ seen) (kept ++ [x]))
      as (extra & E & Hnd & Hfresh & Hsub & Hcov).
    exists (x :: extra). split; [|split; [|split; [|split]]].
    + rewrite E, <- app_assoc. cbn [List.map app]. f_equal.
      rewrite list_to_set_cons. clear. set_solver.
    + cbn [List.map]. apply NoDup_cons. split; [|exact Hnd].
      intros Hx. apply (list_elem_of_In (List.map username extra)) in Hx.
      apply List.in_map_iff in Hx as (r' & Er & Hr').
      apply list_elem_of_In in Hr'. apply (Hfresh r' Hr').
      rewrite Er. apply elem_of_union_l, elem_of_singleton. reflexivity.
    + intros r Hr. apply elem_of_cons in Hr as [-> | Hr]; [exact Hout|].
      intros Hs. apply (Hfresh r Hr). now apply elem_of_union_r.
    + now apply sublist_skip.
    + intros r Hr. apply elem_of_cons in Hr as [-> | Hr].
      * right. exists x. split; [apply elem_of_cons; now left | reflexivity].
      * destruct (Hcov r Hr) as [Hs | (r' & Hr' & Er)].
        -- apply elem_of_union in Hs as [Hs | Hs].
           ++ apply elem_of_singleton in Hs. right. exists x.
              split; [apply elem_of_cons; now left | now symmetry].
           ++ now left.
        -- right. exists r'. split; [apply elem_of_cons; now right | exact Er].
Qed.

Lemma removeDuplicates_loop_NoDup (l : list Found) : forall seen kept,
  NoDup (List.map username l) ->
  (forall r, r ∈ l -> username r ∉ seen) ->
  snd (List.fold_left removeDuplicates_step l (seen, kept)) = kept ++ l.
Proof.
  induction l as [|x l IH]; intros seen kept Hnd Hfresh; cbn [List.fold_left].
  { now rewrite app_nil_r. }
  unfold removeDuplicates_step at 2.
  destruct (decide (username x ∈ seen)) as [Hin|Hout].
  { exfalso. apply (Hfresh x); [apply elem_of_cons; now left | exact Hin]. }
  cbn [List.map] in Hnd. apply NoDup_cons in Hnd as [Hx Hnd].
  rewrite IH; [now rewrite <- app_assoc | exact Hnd |].
  intros r Hr Hs. apply elem_of_union in Hs as [Hs | Hs].
  - apply elem_of_singleton in Hs. apply Hx.
    apply (list_elem_of_In (List.map username l)), List.in_map_iff.
    exists r. split; [exact Hs | now apply list_elem_of_In].
  - apply (Hfresh r); [apply elem_of_cons; now right | exact Hs].
Qed.

(** X23.  After [removeDuplicates] no two stored records have the same
    username; the stored list is a sublist of the old one that still holds
    every username; and [duplicatesRemoved] grows by exactly the number of
    records dropped. *)
Theorem removeDuplicates_exact (this : t) :
  let after := removeDuplicates this in
  NoDup (List.map username (allTrainers after)) /\
  allTrainers after `sublist_of` allTrainers this /\
  (forall r, r ∈ allTrainers this ->
     exists r', r' ∈ allTrainers after /\ username r' = username r) /\
  (duplicatesRemoved after + Z.of_nat (List.length (allTrainers after))
   = duplicatesRemoved this + Z.of_nat (List.length (allTrainers this)))%Z /\
  (duplicatesRemoved this <= duplicatesRemoved after)%Z.
Proof.
  cbv zeta. unfold removeDuplicates. cbn [allTrainers duplicatesRemoved].
  destruct (removeDuplicates_loop_spec (allTrainers this) ∅ [])
    as (extra & -> & Hnd & _ & Hsub & Hcov).
  cbn [snd app]. split; [exact Hnd|]. split; [exact Hsub|]. split; [|split].
  - intros r Hr. destruct (Hcov r Hr) as [Hs | H]; [|exact H].
    now apply not_elem_of_empty in Hs.
  - lia.
  - apply sublist_length in Hsub. lia.
Qed.

(** X24.  [removeDuplicates] is idempotent: a second call keeps every
    record and leaves [duplicatesRemoved] as it is. *)
Theorem removeDuplicates_idempotent (this : t) :
  removeDuplicates (removeDuplicates this) = removeDuplicates this.
Proof.
  destruct (removeDuplicates_loop_spec (allTrainers this) ∅ [])
    as (extra & E & Hnd & _).
  unfold removeDuplicates at 1.
  assert (Ea : allTrainers (removeDuplicates this) = extra).
  { unfold removeDuplicates. cbn [allTrainers]. now rewrite E. }
  rewrite Ea.
  rewrite (removeDuplicates_loop_NoDup extra ∅ [] Hnd)
    by (intros r _; apply not_elem_of_empty).
  cbn [app]. unfold removeDuplicates. cbn [filters duplicatesRemoved].
  rewrite E. cbn [snd app]. f_equal. lia.
Qed.

End CompleteFinderFacts.

(** ** The first phase of the three-phase finder: searches and pauses *)

Section LegacyPhaseFacts.
Import JS Utils PTFinderLegacy.

Variable Env : Type.
Variable searchUsers : string -> Env -> list InstagramAPI.User * Env.
Variable getProfile : string -> Env -> option Profile * Env.
Variable timestamp_now : Env -> string.
Variable pause_between_names : Env -> Env.

(** Two counters read off the environment: the searches sent and the
    pauses taken so far. *)
Variable searches : Env -> nat.
Variable pauses : Env -> nat.

Hypothesis searchUsers_counts : forall query env,
  searches (snd (searchUsers query env)) = S (searches env) /\
  pauses (snd (searchUsers query env)) = pauses env.
Hypothesis getProfile_counts : forall name env,
  searches (snd (getProfile name env)) = searches env /\
  pauses (snd (getProfile name env)) = pauses env.
Hypothesis pause_counts : forall env,
  searches (pause_between_names env) = searches env /\
  pauses (pause_between_names env) = S (pauses env).

Local Abbreviation users_loop :=
  (process_users Env getProfile timestamp_now).
Local Abbreviation iteration :=
  (phase1_iteration Env searchUsers getProfile timestamp_now pause_between_names).

Lemma process_users_counts label users : forall f env,
  searches (snd (users_loop label users (f, env))) = searches env /\
  pauses (snd (users_loop label users (f, env))) = pauses env.
Proof.
  unfold process_users.
  induction users as [|user users IH]; intros f env; cbn [List.fold_left];
    [auto|].
  unfold process_user at 2 4.
  destruct (getProfile_counts (InstagramAPI.u_username user) env) as [Hs Hp].
  destruct (getProfile (InstagramAPI.u_username user) env) as [profile env'].
  cbn [snd] in Hs, Hp.
  destruct profile as [profile|]; [|rewrite <- Hs, <- Hp; apply IH].
  destruct (negb (pass _)); [rewrite <- Hs, <- Hp; apply IH|].
  destruct (extractTrainerInfo _ _ _); rewrite <- Hs, <- Hp; apply IH.
Qed.

Lemma div_succ (c m : nat) :
  (0 < m)%nat ->
  (S c / m = c / m + (if (S c mod m =? 0)%nat then 1 else 0))%nat.
Proof.
  intros Hm.
  pose proof (Nat.div_mod_eq c m) as E1. pose proof (Nat.div_mod_eq (S c) m) as E2.
  pose proof (Nat.mod_upper_bound c m ltac:(lia)) as B1.
  pose proof (Nat.mod_upper_bound (S c) m ltac:(lia)) as B2.
  destruct (S c mod m =? 0)%nat eqn:Hz.
  - apply Nat.eqb_eq in Hz. nia.
  - apply Nat.eqb_neq in Hz. nia.
Qed.

Lemma phase1_iteration_counts locations c f env term :
  (0 < List.length locations * 3)%nat ->
  let r := iteration locations (c, (f, env)) term in
  fst r = S c /\
  searches (snd (snd r)) = S (searches env) /\
  (pauses (snd (snd r)) + c / (List.length locations * 3)
   = pauses env + S c / (List.length locations * 3))%nat.
Proof.
  intros Hm. cbv zeta. unfold phase1_iteration. destruct term as [nameVar location].
  destruct (searchUsers_counts (buildSearchQuery nameVar location) env) as [Hs Hp].
  destruct (searchUsers (buildSearchQuery nameVar location) env) as [users env1].
  cbn [snd] in Hs, Hp.
  destruct (process_users_counts (nameVar ++ " + " ++ location)%string users f env1)
    as [Hs2 Hp2].
  destruct (users_loop _ users (f, env1)) as [f2 env2]. cbn [snd] in Hs2, Hp2.
  rewrite (div_succ c _ Hm).
  destruct (S c mod (List.length locations * 3) =? 0)%nat; cbn [fst snd].
  - destruct (pause_counts env2) as [Hs3 Hp3]. repeat split; lia.
  - repeat split; lia.
Qed.

Lemma phase1_loop_counts locations terms :
  (0 < List.length locations * 3)%nat ->
  forall c f env,
  let r := List.fold_left (iteration locations) terms (c, (f, env)) in
  searches (snd (snd r)) = (searches env + List.length terms)%nat /\
  (pauses (snd (snd r)) + c / (List.length locations * 3)
   = pauses env + (c + List.length terms) / (List.length locations * 3))%nat.
Proof.
  intros Hm. induction terms as [|term terms IH]; intros c f env; cbv zeta;
    cbn [List.fold_left List.length].
  { rewrite !Nat.add_0_r. auto. }
  destruct (phase1_iteration_counts locations c f env term Hm) as (Hc & Hs & Hp).
  destruct (iteration locations (c, (f, env)) term) as [c1 [f1 env1]].
  cbn [fst snd] in Hc, Hs, Hp. subst c1.
  destruct (IH (S c) f1 env1) as [Hs' Hp']. cbv zeta in Hs', Hp'.
  rewrite Hs', Hs. split; [lia|].
  replace (c + S (List.length terms))%nat with (S c + List.length terms)%nat by lia.
  lia.
Qed.

Lemma phase1_terms_length (f : PTFinderLegacy.t) :
  List.length (phase1_terms f)
  = (List.length (names f) * (List.length (egyptianLocations (keywords f)) * 3))%nat.
Proof.
  unfold phase1_terms.
  assert (Hblock : forall name,
    List.length
      (List.flat_map
         (fun nameVar =>
            List.map (fun location => (nameVar, location))
              (egyptianLocations (keywords f)))
         (generateCaseVariations name))
    = (List.length (egyptianLocations (keywords f)) * 3)%nat).
  { intros name. cbn [generateCaseVariations List.flat_map].
    rewrite !List.length_app, !List.length_map. cbn [List.length]. lia. }
  induction (names f) as [|name rest IH]; [reflexivity|].
  cbn [List.flat_map]. rewrite List.length_app, IH, Hblock.
  cbn [List.length]. lia.
Qed.

(** X25.  Phase 1 of the three-phase finder sends three searches per name
    and location, and, when there is at least one location, pauses exactly
    once per name; without locations it neither searches nor pauses. *)
Theorem phase1_searches_and_pauses (st : PTFinderLegacy.t * Env) :
  let locations := egyptianLocations (keywords (fst st)) in
  let after :=
    phase1SearchNameLocations Env searchUsers getProfile timestamp_now
      pause_between_names st in
  searches (snd after)
  = (searches (snd st) + 3 * List.length (names (fst st)) * List.length locations)%nat /\
  (locations <> [] ->
   pauses (snd after) = (pauses (snd st) + List.length (names (fst st)))%nat) /\
  (locations = [] -> after = st).
Proof.
  cbv zeta. unfold phase1SearchNameLocations. destruct st as [f env]. cbn [fst snd].
  destruct (egyptianLocations (keywords f)) as [|location locations] eqn:El.
  - assert (Et : phase1_terms f = []).
    { unfold phase1_terms. rewrite El. induction (names f); [reflexivity|].
      cbn. assumption. }
    rewrite Et. cbn [List.fold_left snd List.length].
    split; [lia|]. split; [congruence | reflexivity].
  - assert (Hm : (0 < List.length (location :: locations) * 3)%nat)
      by (cbn [List.length]; lia).
    destruct (phase1_loop_counts (location :: locations) (phase1_terms f) Hm O f env)
      as [Hs Hp]. cbv zeta in Hs, Hp.
    rewrite phase1_terms_length, El in Hs, Hp.
    split; [rewrite Hs; lia|]. split; [|discriminate].
    intros _. rewrite Nat.add_0_l, Nat.div_mul in Hp by lia.
    rewrite Nat.Div0.div_0_l in Hp. lia.
Qed.

End LegacyPhaseFacts.

Lemma phase1_searches_and_pauses_witness :
  fst (snd (PTFinderLegacy.phase1SearchNameLocations (nat * nat)
              MoreSamples.counting_searchUsers MoreSamples.counting_getProfile
              MoreSamples.counting_timestamp MoreSamples.counting_pause
              (Samples.sample_legacy_finder, (O, O))))
  = (0 + 3 * List.length (PTFinderLegacy.names Samples.sample_legacy_finder)
         * List.length (PTFinderLegacy.egyptianLocations
                          (PTFinderLegacy.keywords Samples.sample_legacy_finder)))%nat.
Proof.
  apply (phase1_searches_and_pauses (nat * nat)
           MoreSamples.counting_searchUsers MoreSamples.counting_getProfile
           MoreSamples.counting_timestamp MoreSamples.counting_pause fst snd).
  - intros query env. split; reflexivity.
  - intros name env. split; reflexivity.
  - intros env. split; reflexivity.
Defined.

(** ** The probing API of the three-phase finder *)

Section ProbingFacts.
Import JS AdaptiveRateLimiter ProbingAPI.
Local Open Scope Q_scope.

Variable lag : Q -> Q -> Q.
Variable profile_endpoint : string -> Q -> InstagramAPI.Reply (option Utils.Profile).

Hypothesis lag_nonneg : forall clock ms, 0 <= lag clock ms.
Hypothesis latency_nonneg : forall username sent,
  0 <= InstagramAPI.latency (profile_endpoint username sent).

Local Abbreviation get_profile := (getProfile lag profile_endpoint).

(** The time at which [getProfile] sends its first request. *)
Lemma first_send_time (api : t) (clock : Q) :
  let delayMs := Config.SEARCH_delaySecs_betweenRequests * 1000 in
  let sent :=
    if Qltb (clock - lastRequestTime api) delayMs
    then sleep lag (delayMs - (clock - lastRequestTime api)) clock
    else clock in
  clock <= sent /\ lastRequestTime api + 1500 <= sent.
Proof.
  cbv zeta. unfold Config.SEARCH_delaySecs_betweenRequests.
  destruct (Qltb _ _) eqn:E.
  - apply Qltb_lt in E. unfold sleep.
    pose proof (lag_nonneg clock ((15 # 10) * 1000 - (clock - lastRequestTime api))).
    split; lra.
  - apply Qltb_ge in E. split; lra.
Qed.

Lemma getProfile_returns_spec (username : string) (fuel : nat) :
  forall api clock profile api' clock',
  get_profile fuel api username clock = Some (profile, api', clock') ->
  exists retries : nat,
    requestCount api' = (requestCount api + 1 + retries)%nat /\
    lastRequestTime api + 1500 <= lastRequestTime api' /\
    clock <= lastRequestTime api' /\
    lastRequestTime api' <= clock' /\
    clock + 60000 * inject_Z (Z.of_nat retries) <= clock'.
Proof.
  induction fuel as [|fuel IH]; intros api clock profile api' clock' H;
    [discriminate H|].
  cbn [getProfile] in H. cbv zeta in H.
  destruct (first_send_time api clock) as [Hc Hl]. cbv zeta in Hc, Hl.
  set (sent := if Qltb _ _ then _ else _) in *.
  pose proof (latency_nonneg username sent) as Hlat.
  assert (Hdone : forall r,
    Some (r, {| requestCount := S (requestCount api); lastRequestTime := sent |},
          sent + InstagramAPI.latency (profile_endpoint username sent))
    = Some (profile, api', clock') ->
    exists retries : nat,
      requestCount api' = (requestCount api + 1 + retries)%nat /\
      lastRequestTime api + 1500 <= lastRequestTime api' /\
      clock <= lastRequestTime api' /\
      lastRequestTime api' <= clock' /\
      clock + 60000 * inject_Z (Z.of_nat retries) <= clock').
  { intros r [= _ <- <-]. exists O. cbn [requestCount lastRequestTime].
    split; [lia|]. change (inject_Z (Z.of_nat 0)) with 0. repeat split; lra. }
  destruct (InstagramAPI.outcome (profile_endpoint username sent))
    as [message | status json]; [now apply (Hdone None)|].
  destruct (negb (InstagramAPI.ok status)).
  - destruct (status =? 429)%Z; [|now apply (Hdone None)].
    apply IH in H as (retries & Hn & Hl' & Hc' & Hle & Ht).
    cbn [requestCount lastRequestTime] in Hn, Hl'.
    exists (S retries). split; [lia|].
    pose proof (sleep_advances lag lag_nonneg 60000
                  (sent + InstagramAPI.latency (profile_endpoint username sent))) as Hs.
    rewrite Nat2Z.inj_succ. unfold Z.succ. rewrite inject_Z_plus.
    change (inject_Z 1) with 1. repeat split; lra.
  - destruct json as [[user|] | message];
      [now apply (Hdone (Some user)) | now apply (Hdone None) | now apply (Hdone None)].
Qed.

Lemma getProfile_last_reply (username : string) (fuel : nat) :
  forall api clock profile api' clock',
  get_profile fuel api username clock = Some (profile, api', clock') ->
  let reply := profile_endpoint username (lastRequestTime api') in
  clock' = lastRequestTime api' + InstagramAPI.latency reply /\
  profile = InstagramAPI.delivered (InstagramAPI.outcome reply) /\
  (forall json, InstagramAPI.outcome reply <> InstagramAPI.Responds 429 json).
Proof.
  induction fuel as [|fuel IH]; intros api clock profile api' clock' H;
    [discriminate H|].
  cbn [getProfile] in H. cbv zeta in H.
  set (sent := if Qltb _ _ then _ else _) in *.
  unfold InstagramAPI.delivered.
  destruct (InstagramAPI.outcome (profile_endpoint username sent))
    as [message | status json] eqn:Eo.
  { injection H as <- <- <-. cbn [lastRequestTime]. rewrite Eo.
    split; [reflexivity|]. split; [reflexivity | discriminate]. }
  destruct (InstagramAPI.ok status) eqn:Eok; cbn [negb] in H.
  - assert (E429 : (status =? 429)%Z = false).
    { destruct (status =? 429)%Z eqn:E; [|reflexivity].
      apply Z.eqb_eq in E. subst status. discriminate Eok. }
    assert (Hnot : forall json', InstagramAPI.Responds status json
                                 <> InstagramAPI.Responds 429 json').
    { intros json' [= -> _]. discriminate E429. }
    destruct json as [[user|] | message]; injection H as <- <- <-;
      cbn [lastRequestTime]; rewrite Eo, ?E429, ?Eok; auto.
  - destruct (status =? 429)%Z eqn:E429; [exact (IH _ _ _ _ _ H)|].
    assert (Hnot : forall json', InstagramAPI.Responds status json
                                 <> InstagramAPI.Responds 429 json').
    { intros json' [= -> _]. discriminate E429. }
    injection H as <- <- <-. cbn [lastRequestTime]. rewrite Eo, ?E429, ?Eok.
    split; [reflexivity|]. split; [|exact Hnot].
    destruct json as [[user|] | message]; reflexivity.
Qed.

(** X26.  When [getProfile] of lib/api.js returns, it has sent one request
    plus one for every 429 it met; its last request went out at least 1.5 s
    after the request before the call, and every retry has cost at least
    60 s.  What it returns is what the reply to that last request delivers,
    and that reply is no 429. *)
Theorem getProfile_retry_cost (username : string) (fuel : nat) (api : t) (clock : Q)
    (profile : option Utils.Profile) (api' : t) (clock' : Q) :
  get_profile fuel api username clock = Some (profile, api', clock') ->
  let reply := profile_endpoint username (lastRequestTime api') in
  (exists retries : nat,
     requestCount api' = (requestCount api + 1 + retries)%nat /\
     lastRequestTime api + 1500 <= lastRequestTime api' /\
     clock <= lastRequestTime api' /\
     clock + 60000 * inject_Z (Z.of_nat retries) <= clock') /\
  clock' = lastRequestTime api' + InstagramAPI.latency reply /\
  profile = InstagramAPI.delivered (InstagramAPI.outcome reply) /\
  (forall json, InstagramAPI.outcome reply <> InstagramAPI.Responds 429 json).
Proof.
  intros H. cbv zeta. split.
  - destruct (getProfile_returns_spec username fuel api clock profile api' clock' H)
      as (retries & Hn & Hl & Hc & _ & Ht).
    exists retries. auto.
  - exact (getProfile_last_reply username fuel api clock profile api' clock' H).
Qed.

(** X27.  [getProfile] returns as soon as the service stops answering 429:
    if no request sent at time [quiet] or later is answered with 429, then a
    call entered at [clock] makes at most [n + 1] requests, for any [n]
    with [quiet <= clock + n * 60000]. *)
Theorem getProfile_returns_after_busy_period (username : string) (quiet : Q) (n : nat) :
  (forall sent json, quiet <= sent ->
     InstagramAPI.outcome (profile_endpoint username sent)
     <> InstagramAPI.Responds 429 json) ->
  forall api clock,
  quiet <= clock + inject_Z (Z.of_nat n) * 60000 ->
  exists result, get_profile (S n) api username clock = Some result.
Proof.
  intros Hquiet. induction n as [|n IH]; intros api clock Hn.
  - change (inject_Z (Z.of_nat 0)) with 0 in Hn.
    cbn [getProfile]. cbv zeta.
    destruct (first_send_time api clock) as [Hc _]. cbv zeta in Hc.
    set (sent := if Qltb _ _ then _ else _) in *.
    assert (Hq : quiet <= sent) by lra.
    destruct (InstagramAPI.outcome (profile_endpoint username sent))
      as [message | status json] eqn:Eo; [eauto|].
    destruct (negb (InstagramAPI.ok status)).
    + destruct (status =? 429)%Z eqn:E429; [|eauto].
      apply Z.eqb_eq in E429. subst status.
      exfalso. exact (Hquiet sent json Hq Eo).
    + destruct json as [[user|] | message]; eauto.
  - rewrite Nat2Z.inj_succ in Hn. unfold Z.succ in Hn. rewrite inject_Z_plus in Hn.
    change (inject_Z 1) with 1 in Hn.
    cbn [getProfile]. cbv zeta.
    destruct (first_send_time api clock) as [Hc _]. cbv zeta in Hc.
    set (sent := if Qltb _ _ then _ else _) in *.
    pose proof (latency_nonneg username sent) as Hlat.
    destruct (InstagramAPI.outcome (profile_endpoint username sent))
      as [message | status json] eqn:Eo; [eauto|].
    destruct (negb (InstagramAPI.ok status)).
    + destruct (status =? 429)%Z; [|eauto].
      apply IH.
      pose proof (sleep_advances lag lag_nonneg 60000
                    (sent + InstagramAPI.latency (profile_endpoint username sent))).
      lra.
    + destruct json as [[user|] | message]; eauto.
Qed.

Lemma probe_out_of_fuel (fuel : nat) (usernames : list string) :
  List.fold_left (probe lag profile_endpoint fuel) usernames None = None.
Proof. induction usernames as [|u usernames IH]; [reflexivity | exact IH]. Qed.

Lemma probes_cost (fuel : nat) (usernames : list string) :
  forall results api clock results' api' clock',
  List.fold_left (probe lag profile_endpoint fuel) usernames
    (Some (results, api, clock)) = Some (results', api', clock') ->
  exists retries : nat,
    requestCount api' = (requestCount api + List.length usernames + retries)%nat /\
    (List.length results' <= List.length results + List.length usernames)%nat /\
    clock + 1500 * inject_Z (Z.of_nat (List.length usernames))
          + 60000 * inject_Z (Z.of_nat retries) <= clock'.
Proof.
  induction usernames as [|u usernames IH];
    intros results api clock results' api' clock' H; cbn [List.fold_left] in H.
  { injection H as <- <- <-. exists O. cbn [List.length].
    change (inject_Z (Z.of_nat 0)) with 0. split; [lia|]. split; [lia|lra]. }
  unfold probe at 2 in H.
  destruct (get_profile fuel api u clock) as [[[profile api1] clock1]|] eqn:E;
    [|rewrite probe_out_of_fuel in H; discriminate H].
  apply getProfile_returns_spec in E as (r1 & Hn1 & _ & _ & _ & Ht1).
  apply IH in H as (r2 & Hn2 & Hlen & Ht2).
  pose proof (sleep_advances lag lag_nonneg 1500 clock1) as Hs.
  exists (r1 + r2)%nat. cbn [List.length].
  rewrite Nat2Z.inj_succ, Nat2Z.inj_add. unfold Z.succ.
  rewrite !inject_Z_plus. change (inject_Z 1) with 1.
  split; [lia|]. split.
  - destruct profile; [rewrite List.length_app in Hlen; cbn [List.length] in Hlen|]; lia.
  - lra.
Qed.

(** X28.  When [searchUsers] of lib/api.js returns, it has made twelve
    profile requests plus one for every 429 it met and found at most twelve
    accounts; it has taken at least 18 s, and 60 s more for every retry. *)
Theorem searchUsers_cost (fuel : nat) (api : t) (query : string) (clock : Q)
    (results : list Hit) (api' : t) (clock' : Q) :
  searchUsers lag profile_endpoint fuel api query clock
  = Some (results, api', clock') ->
  exists retries : nat,
    requestCount api' = (requestCount api + 12 + retries)%nat /\
    (List.length results <= 12)%nat /\
    clock + 18000 + 60000 * inject_Z (Z.of_nat retries) <= clock'.
Proof.
  unfold searchUsers. intros H.
  apply probes_cost in H as (retries & Hn & Hlen & Ht).
  exists retries. cbn [usernamePatterns List.length] in Hn, Hlen, Ht.
  split; [exact Hn|]. split; [exact Hlen|].
  change (inject_Z (Z.of_nat 12)) with 12 in Ht. lra.
Qed.

End ProbingFacts.

Lemma busy_then_unknown_latency (username : string) (sent : Q) :
  (0 <= InstagramAPI.latency (MoreSamples.busy_then_unknown username sent))%Q.
Proof. cbn. lra. Qed.

Lemma punctual_nonneg (clock ms : Q) : (0 <= Samples.punctual clock ms)%Q.
Proof. apply Qle_refl. Qed.

Lemma getProfile_retry_cost_witness :
  exists retries : nat,
    ProbingAPI.requestCount
      {| ProbingAPI.requestCount := 2; ProbingAPI.lastRequestTime := 616000 # 10 |}
    = (ProbingAPI.requestCount ProbingAPI.constructor + 1 + retries)%nat /\
    (ProbingAPI.lastRequestTime ProbingAPI.constructor + 1500
     <= ProbingAPI.lastRequestTime
          {| ProbingAPI.requestCount := 2;
             ProbingAPI.lastRequestTime := 616000 # 10 |})%Q /\
    (0 <= ProbingAPI.lastRequestTime
            {| ProbingAPI.requestCount := 2;
               ProbingAPI.lastRequestTime := 616000 # 10 |})%Q /\
    (0 + 60000 * inject_Z (Z.of_nat retries) <= 617000 # 10)%Q.
Proof.
  apply (getProfile_retry_cost Samples.punctual MoreSamples.busy_then_unknown
           punctual_nonneg busy_then_unknown_latency
           "ahmed_pt" 3 ProbingAPI.constructor 0%Q None).
  vm_compute. reflexivity.
Defined.

Lemma getProfile_returns_after_busy_period_witness :
  exists result,
    ProbingAPI.getProfile Samples.punctual MoreSamples.busy_then_unknown 2
      ProbingAPI.constructor "ahmed_pt" 0%Q = Some result.
Proof.
  apply (getProfile_returns_after_busy_period Samples.punctual
           MoreSamples.busy_then_unknown punctual_nonneg busy_then_unknown_latency
           "ahmed_pt" 60000%Q 1).
  - intros sent json Hsent. unfold MoreSamples.busy_then_unknown.
    cbn [InstagramAPI.outcome].
    rewrite (proj2 (Qltb_ge sent 60000) Hsent). discriminate.
  - vm_compute. discriminate.
Defined.

Lemma searchUsers_cost_witness :
  exists retries : nat,
    ProbingAPI.requestCount
      {| ProbingAPI.requestCount := 13; ProbingAPI.lastRequestTime := 792000 # 10 |}
    = (ProbingAPI.requestCount ProbingAPI.constructor + 12 + retries)%nat /\
    (List.length (@nil ProbingAPI.Hit) <= 12)%nat /\
    (0 + 18000 + 60000 * inject_Z (Z.of_nat retries) <= 808000 # 10)%Q.
Proof.
  apply (searchUsers_cost Samples.punctual MoreSamples.busy_then_unknown
           punctual_nonneg busy_then_unknown_latency
           2 ProbingAPI.constructor "Ahmed Cairo" 0%Q).
  vm_compute. reflexivity.
Defined.

Section ProbingMoreFacts.
Import JS AdaptiveRateLimiter ProbingAPI.
Local Open Scope Q_scope.

Variable lag : Q -> Q -> Q.
Variable profile_endpoint : string -> Q -> InstagramAPI.Reply (option Utils.Profile).

(** X29.  As long as the service answers every request with 429,
    [getProfile] of lib/api.js never returns: whatever the number of
    requests allowed, it is used up. *)
Theorem getProfile_retries_forever (username : string) :
  (forall sent, exists json,
     InstagramAPI.outcome (profile_endpoint username sent)
     = InstagramAPI.Responds 429 json) ->
  forall fuel api clock,
  getProfile lag profile_endpoint fuel api username clock = None.
Proof.
  intros Hbusy. induction fuel as [|fuel IH]; intros api clock; [reflexivity|].
  cbn [getProfile]. cbv zeta.
  set (sent := if Qltb _ _ then _ else _).
  destruct (Hbusy sent) as [json ->].
  change (negb (InstagramAPI.ok 429)) with true. cbv iota.
  change (429 =? 429)%Z with true. cbv iota. apply IH.
Qed.

Lemma first_word_app_space (a b : string) :
  first_word (a ++ " " ++ b) = first_word a.
Proof.
  induction a as [|c a IH]; [reflexivity|].
  rewrite append_cons. cbn [first_word]. now rewrite IH.
Qed.

Lemma first_word_map_chars (f : ascii -> ascii) (s : string) :
  (forall c, Ascii.eqb (f c) " " = Ascii.eqb c " ") ->
  first_word (map_chars f s) = map_chars f (first_word s).
Proof.
  intros Hf. induction s as [|c s IH]; [reflexivity|].
  cbn [map_chars first_word]. rewrite Hf.
  destruct (Ascii.eqb c " "); [reflexivity|]. cbn [map_chars]. now rewrite IH.
Qed.

Lemma lower_char_space (c : ascii) : Ascii.eqb (lower_char c) " " = Ascii.eqb c " ".
Proof. destruct c as [[] [] [] [] [] [] [] []]; reflexivity. Qed.

Lemma upper_char_space (c : ascii) : Ascii.eqb (upper_char c) " " = Ascii.eqb c " ".
Proof. destruct c as [[] [] [] [] [] [] [] []]; reflexivity. Qed.

Lemma probed_name_of_variation (name nameVar location : string) :
  ascii_only name = true ->
  In nameVar (PTFinderLegacy.generateCaseVariations name) ->
  toLowerCase (first_word (Utils.buildSearchQuery nameVar location))
  = toLowerCase (first_word (trim name)).
Proof.
  unfold Utils.buildSearchQuery. rewrite first_word_app_space.
  intros Hascii [<- | [<- | [<- | []]]]; [reflexivity | |].
  - unfold toLowerCase at 2.
    rewrite (trim_map_chars _ is_space_lower_char),
      (first_word_map_chars _ _ lower_char_space).
    apply toLowerCase_idempotent.
  - rewrite (toUpperCase_ascii name Hascii).
    rewrite (trim_map_chars _ is_space_upper_char),
      (first_word_map_chars _ _ upper_char_space).
    apply toLowerCase_map_upper.
Qed.

(** X30.  The searches of the three-phase finder do not depend on the
    location nor on the case variation: for every variation of a name made
    of ASCII characters and every two locations, [searchUsers] of lib/api.js
    probes the same twelve user names and so behaves in the same way. *)
Theorem searchUsers_ignores_location_and_case (name nameVar location location' : string)
    (fuel : nat) (api : t) (clock : Q) :
  ascii_only name = true ->
  In nameVar (PTFinderLegacy.generateCaseVariations name) ->
  usernamePatterns (first_word (Utils.buildSearchQuery nameVar location))
  = usernamePatterns (first_word (trim name)) /\
  searchUsers lag profile_endpoint fuel api
    (Utils.buildSearchQuery nameVar location) clock
  = searchUsers lag profile_endpoint fuel api
      (Utils.buildSearchQuery name location') clock.
Proof.
  intros Hascii Hvar.
  assert (E1 := probed_name_of_variation name nameVar location Hascii Hvar).
  assert (E2 := probed_name_of_variation name name location' Hascii
                  (or_introl eq_refl)).
  unfold searchUsers, usernamePatterns. rewrite E1, E2. split; reflexivity.
Qed.

End ProbingMoreFacts.

Lemma getProfile_retries_forever_witness :
  ProbingAPI.getProfile Samples.punctual MoreSamples.always_busy 5
    ProbingAPI.constructor "ahmed_pt" 0%Q = None.
Proof.
  apply (getProfile_retries_forever Samples.punctual MoreSamples.always_busy "ahmed_pt").
  intros sent. eexists. reflexivity.
Defined.

Lemma searchUsers_ignores_location_and_case_witness :
  ProbingAPI.usernamePatterns
    (ProbingAPI.first_word (Utils.buildSearchQuery "AHMED" "Cairo"))
  = ProbingAPI.usernamePatterns (ProbingAPI.first_word (JS.trim "Ahmed")) /\
  ProbingAPI.searchUsers Samples.punctual MoreSamples.busy_then_unknown 2
    ProbingAPI.constructor (Utils.buildSearchQuery "AHMED" "Cairo") 0%Q
  = ProbingAPI.searchUsers Samples.punctual MoreSamples.busy_then_unknown 2
      ProbingAPI.constructor (Utils.buildSearchQuery "Ahmed" "Giza") 0%Q.
Proof.
  apply (searchUsers_ignores_location_and_case Samples.punctual
           MoreSamples.busy_then_unknown "Ahmed" "AHMED" "Cairo" "Giza"
           2 ProbingAPI.constructor 0%Q).
  - reflexivity.
  - right. right. left. reflexivity.
Defined.
